(** * Latent-imagination training core: reward models and the Explorer

    A shallow embedding of [src/model/achiever_reward.py] and
    [src/model/explorer.py].

    Conventions of the embedding.
    - Float tensors hold real numbers ([R]): rounding and overflow of
      tensor arithmetic are outside the model.  The one nan the code
      can produce from real inputs, the mean over zero elements, is
      modelled in the losses ([Torch.scalar]).
    - The Python float [neg_sampling_factor] is an IEEE 754 binary64,
      multiplied with round-to-nearest-even ([SpecFloat]), since
      [int(...)] of the product depends on the rounding.
    - A tensor is a list over its leading dimension; a (T, B, ...) tensor
      is a list of lists whose innermost rows are kept abstract when the
      code never looks inside them.
    - Index arrays of shape (N, 2) are lists of (time, batch) pairs.
    - Sizes and counts ([horison_length], [batch_size], [batch_length],
      [num_positives]) are natural numbers.
    - Python exceptions are the [Raise] outcome; the ambient random
      generator and the order of the observable calls are threaded through
      a [world].
    - The networks, the dynamics model, the intrinsic reward and the
      lambda-return utility live in modules outside these two files
      ([network.py], [worldmodel.py], [explorer_reward.py], [utils.py]);
      they are parameters here, bundled in a class per consumer. *)

From Stdlib Require Import Reals Lra Lia ZArith QArith SpecFloat.
From stdpp Require Import base list gmap strings.

Local Open Scope R_scope.
Local Open Scope nat_scope.

(** ** Python runtime: exceptions, the random generator, a call trace *)

Module Py.

Inductive exn : Type :=
| ValueError (msg : string)
| ZeroDivisionError
| IndexError
| RuntimeError (msg : string)
| OverflowError (msg : string).

Inductive outcome (A : Type) : Type :=
| Ok (a : A)
| Raise (e : exn).
Arguments Ok {A} a.
Arguments Raise {A} e.

(** What an observer of one training call can see happen, in order. *)
Inductive event : Type :=
| RandomChoice (population size : nat)   (* np.random.choice(a, size, replace=False) *)
| RandomRandint (rows : Z)               (* np.random.randint(low, high, size=(rows, 2)) *)
| RandomChoice1 (candidates : list nat)  (* np.random.choice(list) *)
| Forward (module : string).             (* a network forward pass *)

(** [entropy] is the stream of raw draws the generator will deliver
    (zeros once the list is exhausted). *)
Record world : Type := World { entropy : list nat; trace : list event }.

Definition M (A : Type) : Type := world -> outcome A * world.

Definition ret {A} (a : A) : M A := fun w => (Ok a, w).

Definition bind {A B} (m : M A) (k : A -> M B) : M B :=
  fun w => match m w with
           | (Ok a, w') => k a w'
           | (Raise e, w') => (Raise e, w')
           end.

Definition raise {A} (e : exn) : M A := fun w => (Raise e, w).

Definition lift {A} (o : outcome A) : M A := fun w => (o, w).

Definition emit (e : event) : M unit :=
  fun w => (Ok tt, World (entropy w) (trace w ++ [e])).

Definition draw : M nat :=
  fun w => match entropy w with
           | [] => (Ok 0, w)
           | r :: rs => (Ok r, World rs (trace w))
           end.

(** [for x in xs: body] collecting the results. *)
Fixpoint for_each {A B} (xs : list A) (body : A -> M B) : M (list B) :=
  match xs with
  | [] => ret []
  | x :: xs' => bind (body x) (fun y => bind (for_each xs' body) (fun ys => ret (y :: ys)))
  end.

Definition obind {A B} (o : outcome A) (k : A -> outcome B) : outcome B :=
  match o with Ok a => k a | Raise e => Raise e end.

Fixpoint omap {A B} (f : A -> outcome B) (xs : list A) : outcome (list B) :=
  match xs with
  | [] => Ok []
  | x :: xs' => obind (f x) (fun y => obind (omap f xs') (fun ys => Ok (y :: ys)))
  end.

(** A sampler draws uniformly from [support] when, restricted to the
    raw draws of [canonical] form (each draw below the number of
    alternatives it selects among), it consumes exactly those draws, and
    sends them one-to-one onto [support]: equally likely draws then give
    equally likely outcomes. *)
Definition uniform_over {A} (sampler : M A) (canonical : list nat -> Prop)
    (support : A -> Prop) : Prop :=
  (forall draws tr, canonical draws ->
     exists a tr', sampler (World draws tr) = (Ok a, World [] tr') /\ support a)
  /\ (forall a tr, support a ->
        exists draws tr', canonical draws
                          /\ sampler (World draws tr) = (Ok a, World [] tr'))
  /\ (forall a draws1 draws2 tr1 tr2 tr1' tr2',
        canonical draws1 -> canonical draws2 ->
        sampler (World draws1 tr1) = (Ok a, World [] tr1') ->
        sampler (World draws2 tr2) = (Ok a, World [] tr2') ->
        draws1 = draws2).

(** *** Numbers

    A Python number is an [int] or a [float]; a float is a binary64. *)
Inductive number : Type :=
| Int (z : Z)
| Float (x : spec_float).

Definition prec : Z := 53.
Definition emax : Z := 1024.

Definition msg_int_too_large : string := "int too large to convert to float".
Definition msg_nan_to_int : string := "cannot convert float NaN to integer".
Definition msg_inf_to_int : string := "cannot convert float infinity to integer".

(** [float(n)]: the nearest binary64, ties to even; refused when that
    is beyond the largest finite one. *)
Definition float_of_int (n : Z) : outcome spec_float :=
  match binary_normalize prec emax n 0 false with
  | S754_infinity _ => Raise (OverflowError msg_int_too_large)
  | x => Ok x
  end.

(** [n * b] for an int [n]: exact when [b] is an int; when [b] is a
    float, [n] is converted and the product rounded. *)
Definition mul_int (n : Z) (b : number) : outcome number :=
  match b with
  | Int z => Ok (Int (n * z))
  | Float y => obind (float_of_int n) (fun x => Ok (Float (SFmul prec emax x y)))
  end.

(** [int(x)]: truncation toward zero. *)
Definition to_int (x : number) : outcome Z :=
  match x with
  | Int z => Ok z
  | Float (S754_zero _) => Ok 0%Z
  | Float (S754_finite s m e) => Ok (cond_Zopp s (Z.shiftl (Z.pos m) e))
  | Float S754_nan => Raise (ValueError msg_nan_to_int)
  | Float (S754_infinity _) => Raise (OverflowError msg_inf_to_int)
  end.

End Py.
Import Py.

#[export] Instance M_ret : MRet M := @Py.ret.
#[export] Instance M_bind : MBind M := fun A B k m => Py.bind m k.
#[export] Instance outcome_ret : MRet outcome := @Py.Ok.
#[export] Instance outcome_bind : MBind outcome := fun A B k o => Py.obind o k.

(** ** numpy.random *)

Module Np.

Definition msg_larger_sample : string :=
  "Cannot take a larger sample than population when 'replace=False'".
Definition msg_empty_population : string :=
  "'a' cannot be empty unless no samples are taken".
(** The wording of numpy 1.x; numpy 2 says "high <= 0" for the same
    [ValueError]. *)
Definition msg_low_high : string := "low >= high".
Definition msg_negative_dim : string := "negative dimensions are not allowed".
Definition msg_concat_empty : string := "need at least one array to concatenate".

(** Draws [k] distinct members of [pool], one raw draw each. *)
Fixpoint pick_distinct (k : nat) (pool : list nat) : M (list nat) :=
  match k with
  | 0 => ret []
  | S k' =>
      r ← draw;
      let i := r mod length pool in
      match pool !! i with
      | None => raise (ValueError msg_larger_sample)
      | Some x => rest ← pick_distinct k' (delete i pool); ret (x :: rest)
      end
  end.

(** [np.random.choice(np.arange(n), k, replace=False)]: an empty
    population is refused unless nothing is asked of it, then a sample
    larger than the population. *)
Definition choice_no_replace (n k : nat) : M (list nat) :=
  emit (RandomChoice n k);;
  if decide (n = 0 /\ k <> 0) then raise (ValueError msg_empty_population)
  else if decide (n < k) then raise (ValueError msg_larger_sample)
  else pick_distinct k (seq 0 n).

(** The raw draws [choice_no_replace n k] reduces to themselves: [k]
    draws, the i-th below the [n - i] members still in the pool. *)
Definition canonical_choice (n k : nat) (draws : list nat) : Prop :=
  length draws = k /\ forall i d, draws !! i = Some d -> d < n - i.

(** [np.random.choice(cands)] for a Python list [cands]: an empty
    population is refused before anything is drawn. *)
Definition choice1 (cands : list nat) : M nat :=
  emit (RandomChoice1 cands);;
  match cands with
  | [] => raise (ValueError msg_empty_population)
  | x0 :: _ => r ← draw; ret (nth (r mod length cands) cands x0)
  end.

Definition canonical_choice1 (cands : list nat) (draws : list nat) : Prop :=
  exists r, draws = [r] /\ r < length cands.

(** [np.random.randint((0,0), (seq_len, bs), size=(rows, 2))]: each row
    is a time index below [seq_len] and a batch index below [bs].  A
    negative size is refused; an empty request returns before the
    bounds are looked at. *)
Definition randint_pairs (rows : Z) (seq_len bs : nat) : M (list (nat * nat)) :=
  emit (RandomRandint rows);;
  if decide (rows < 0)%Z then raise (ValueError msg_negative_dim)
  else if decide (rows = 0)%Z then ret []
  else if decide (seq_len = 0 \/ bs = 0) then raise (ValueError msg_low_high)
  else for_each (seq 0 (Z.to_nat rows))
         (fun _ => t ← draw; b ← draw; ret (t mod seq_len, b mod bs)).

(** The raw draws [randint_pairs rows seq_len bs] reduces to
    themselves: a draw below [seq_len] and a draw below [bs] per row. *)
Definition canonical_randint (rows : Z) (seq_len bs : nat) (draws : list nat) : Prop :=
  exists l : list (nat * nat),
    draws = l ≫= (fun p => [p.1; p.2])
    /\ length l = Z.to_nat rows
    /\ Forall (fun p : nat * nat => p.1 < seq_len /\ p.2 < bs) l.

(** Fancy indexing [a[idx]] of an array by an index array. *)
Definition take_rows {A} (a : list A) (idx : list nat) : outcome (list A) :=
  omap (fun i => match a !! i with Some x => Ok x | None => Raise IndexError end) idx.

End Np.

(** ** torch: element-wise arithmetic, broadcasting, reductions *)

Module Torch.

Definition msg_broadcast : string := "The size of tensor a must match the size of tensor b".
Definition msg_view : string := "shape is invalid for input size".

(** One broadcast dimension: equal sizes pair up, a size-1 side is repeated. *)
Definition broadcast {A B C} (f : A -> B -> outcome C) (a : list A) (b : list B)
  : outcome (list C) :=
  if decide (length a = length b) then omap (fun p => f p.1 p.2) (zip a b)
  else match a, b with
       | [x], _ => omap (f x) b
       | _, [y] => omap (fun x => f x y) a
       | _, _ => Raise (RuntimeError msg_broadcast)
       end.

Definition broadcast1 (f : R -> R -> R) : list R -> list R -> outcome (list R) :=
  broadcast (fun x y => Ok (f x y)).

Definition broadcast2 (f : R -> R -> R)
  : list (list R) -> list (list R) -> outcome (list (list R)) :=
  broadcast (broadcast1 f).

Definition sum (xs : list R) : R := foldr Rplus 0%R xs.

(** The mean of the elements of a non-empty tensor. *)
Definition mean (xs : list R) : R := (sum xs / INR (length xs))%R.

(** A 0-d float tensor: a real number, or nan. *)
Inductive scalar : Type :=
| Value (r : R)
| Nan.

(** [torch.mean(x)]: nan over zero elements. *)
Definition mean_or_nan (xs : list R) : scalar :=
  match xs with
  | [] => Nan
  | _ => Value (mean xs)
  end.

(** [a + b] and [-a] on 0-d tensors, and [torch.sum] of a 1-d tensor
    whose elements may be nan. *)
Definition add (a b : scalar) : scalar :=
  match a, b with
  | Value x, Value y => Value (x + y)
  | _, _ => Nan
  end.

Definition neg (a : scalar) : scalar :=
  match a with
  | Value x => Value (- x)
  | Nan => Nan
  end.

Definition sum_scalars (xs : list scalar) : scalar := foldr add (Value 0) xs.

(** [x.sum(dim=1)], [torch.mean(x, dim=1)], [torch.norm(x, dim=1)] *)
Definition sum_dim1 (x : list (list R)) : list R := map sum x.
Definition mean_dim1 (x : list (list R)) : list scalar := map mean_or_nan x.
Definition norm (xs : list R) : R := sqrt (sum (map (fun v => v * v)%R xs)).
Definition norm_dim1 (x : list (list R)) : list R := map norm x.

(** [F.mse_loss(input, target)] on (N, 1) tensors, kept as lists of N:
    the mean of the squared differences, nan when there are none. *)
Definition mse_loss (input target : list R) : outcome scalar :=
  obind (broadcast1 (fun p t => ((p - t) * (p - t))%R) input target)
        (fun sq => Ok (mean_or_nan sq)).

(** Indexing a (T, B, ...) tensor by paired index arrays:
    [x[idx[:,0], idx[:,1]]]. *)
Definition index2 {A} (x : list (list A)) (idx : list (nat * nat)) : outcome (list A) :=
  omap (fun tb => match x !! tb.1 with
                  | Some row => match row !! tb.2 with
                                | Some v => Ok v
                                | None => Raise IndexError
                                end
                  | None => Raise IndexError
                  end) idx.

End Torch.

(** ** achiever_reward.py: TemporalLatentDistanceReward *)

Module TemporalLatentDistanceReward.

(** The collaborators held by the module: the state encoder, whose
    output is a distribution with a [.mean], and the distance estimator. *)
Class Networks : Type := {
  Zrow : Type;
  Hrow : Type;
  Emb : Type;
  Dist : Type;
  state2emb : list Zrow -> list Hrow -> Dist;
  dist_mean : Dist -> list Emb;
  distance_estimator : list Emb -> list Emb -> list R
}.

Section Methods.
Context {NN : Networks}.

Definition imagine_compute_reward (current_z : list Zrow) (current_h : list Hrow)
    (goal_z : list Zrow) (goal_h : list Hrow) : list R :=
  let current_emb := dist_mean (state2emb current_z current_h) in
  let goal_emb := dist_mean (state2emb goal_z goal_h) in
  let distance := distance_estimator current_emb goal_emb in
  map Ropp distance.

Definition compute_reward (z : list Zrow) (h : list Hrow) (goal_emb : list Emb) : list R :=
  let current_emb := dist_mean (state2emb z h) in
  let distance := distance_estimator current_emb goal_emb in
  map Ropp distance.

(** The two nested loops of [get_future_goal_idxs]: one (cur, goal)
    iteration per entry, in loop order. *)
Definition loop_iterations (seq_len : nat) : list (nat * nat) :=
  cur_idx ← seq 0 seq_len;
  goal_idx ← seq cur_idx (seq_len - cur_idx);
  [(cur_idx, goal_idx)].

(** [np.concatenate([np.ones((bs,1))*t, np.arange(bs).reshape(-1,1)], -1)] *)
Definition block (t bs : nat) : list (nat * nat) :=
  (fun b => (t, b)) <$> seq 0 bs.

Definition get_future_goal_idxs (seq_len bs : nat)
  : outcome (list (nat * nat) * list (nat * nat)) :=
  let cur_idx_list := (fun it => block it.1 bs) <$> loop_iterations seq_len in
  let goal_idx_list := (fun it => block it.2 bs) <$> loop_iterations seq_len in
  match cur_idx_list with
  | [] => Raise (ValueError Np.msg_concat_empty)
  | _ => Ok (concat cur_idx_list, concat goal_idx_list)
  end.

(** [[j for j in range(bs) if j//batch_length != c//batch_length]] *)
Definition other_episode_candidates (batch_length bs c : nat) : outcome (list nat) :=
  if decide (bs = 0) then Ok []
  else if decide (batch_length = 0) then Raise ZeroDivisionError
  else Ok (filter (fun j => j / batch_length <> c / batch_length) (seq 0 bs)).

(** The loop [for i in range(num_negs): goal_idxs[i,1] = ...], which
    rewrites the batch column of [goal_idxs] in place. *)
Fixpoint resample_goals (batch_length bs : nat) (ixs : list nat)
    (cur_idxs goal_idxs : list (nat * nat)) : M (list (nat * nat)) :=
  match ixs with
  | [] => mret goal_idxs
  | i :: ixs' =>
      match cur_idxs !! i, goal_idxs !! i with
      | Some c, Some g =>
          cands ← lift (other_episode_candidates batch_length bs c.2);
          j ← Np.choice1 cands;
          resample_goals batch_length bs ixs' cur_idxs (<[i := (g.1, j)]> goal_idxs)
      | _, _ => raise IndexError
      end
  end.

Definition get_future_goal_idxs_neg_sampling (batch_length : nat)
    (num_negs : Z) (seq_len bs : nat) : M (list (nat * nat) * list (nat * nat)) :=
  cur_idxs ← Np.randint_pairs num_negs seq_len bs;
  goal_idxs ← Np.randint_pairs num_negs seq_len bs;
  goal_idxs ← resample_goals batch_length bs (seq 0 (Z.to_nat num_negs)) cur_idxs goal_idxs;
  mret (cur_idxs, goal_idxs).

(** Lines 68-70: enumerate, choose without replacement, select. *)
Definition sample_positives (horison_length batch_size num_positives : nat)
  : M (list (nat * nat) * list (nat * nat)) :=
  '(current_idxs, goal_idxs) ← lift (get_future_goal_idxs horison_length batch_size);
  idx ← Np.choice_no_replace (length current_idxs) num_positives;
  current_idx ← lift (Np.take_rows current_idxs idx);
  goal_idx ← lift (Np.take_rows goal_idxs idx);
  mret (current_idx, goal_idx).

(** [(goal_idx[:,0] - current_idx[:,0]) / horison_length] *)
Definition time_gap (horison_length : nat) (goal cur : nat * nat) : R :=
  (IZR (Z.of_nat goal.1 - Z.of_nat cur.1) / INR horison_length)%R.

Definition positive_target (horison_length : nat)
    (current_idx goal_idx : list (nat * nat)) : list R :=
  zip_with (time_gap horison_length) goal_idx current_idx.

(** [int(num_positives * neg_sampling_factor)] *)
Definition num_negatives_of (num_positives : nat) (neg_sampling_factor : number)
  : outcome Z :=
  product ← Py.mul_int (Z.of_nat num_positives) neg_sampling_factor;
  Py.to_int product.

Definition negative_target (num_negatives : Z) : list R :=
  replicate (Z.to_nat num_negatives) 1%R.

(** Lines 71-73 and 75-76, repeated as lines 80-82 and 84-85: gather
    the latent states, embed them, predict and score against [target]. *)
Definition regression_loss (zs : list (list Zrow)) (hs : list (list Hrow))
    (current_idx goal_idx : list (nat * nat)) (target : list R) : M Torch.scalar :=
  current_zs ← lift (Torch.index2 zs current_idx);
  current_hs ← lift (Torch.index2 hs current_idx);
  goal_zs ← lift (Torch.index2 zs goal_idx);
  goal_hs ← lift (Torch.index2 hs goal_idx);
  emit (Forward "state2emb");;
  let current_embs := dist_mean (state2emb current_zs current_hs) in
  emit (Forward "state2emb");;
  let goal_embs := dist_mean (state2emb goal_zs goal_hs) in
  emit (Forward "distance_estimator");;
  let pred_distance := distance_estimator current_embs goal_embs in
  lift (Torch.mse_loss pred_distance target).

(** The forward passes [regression_loss] makes, in order. *)
Definition regression_events : list event :=
  [Forward "state2emb"; Forward "state2emb"; Forward "distance_estimator"].

(** The estimator's prediction for a list of index pairs: what
    [regression_loss] scores against its target. *)
Definition predicted_distance (zs : list (list Zrow)) (hs : list (list Hrow))
    (current_idx goal_idx : list (nat * nat)) : outcome (list R) :=
  current_zs ← Torch.index2 zs current_idx;
  current_hs ← Torch.index2 hs current_idx;
  goal_zs ← Torch.index2 zs goal_idx;
  goal_hs ← Torch.index2 hs goal_idx;
  mret (distance_estimator (dist_mean (state2emb current_zs current_hs))
                           (dist_mean (state2emb goal_zs goal_hs))).

(** Lines 68-76: the positive half of [train]. *)
Definition positive_step (zs : list (list Zrow)) (hs : list (list Hrow))
    (num_positives horison_length batch_size : nat) : M Torch.scalar :=
  '(current_idx, goal_idx) ← sample_positives horison_length batch_size num_positives;
  regression_loss zs hs current_idx goal_idx
    (positive_target horison_length current_idx goal_idx).

(** Lines 78-85: the negative half of [train]. *)
Definition negative_step (zs : list (list Zrow)) (hs : list (list Hrow))
    (num_negatives : Z) (horison_length batch_size batch_length : nat)
  : M Torch.scalar :=
  '(current_idx, goal_idx) ←
    get_future_goal_idxs_neg_sampling batch_length num_negatives horison_length batch_size;
  regression_loss zs hs current_idx goal_idx (negative_target num_negatives).

Definition train (zs : list (list Zrow)) (hs : list (list Hrow))
    (num_positives : nat) (neg_sampling_factor : number)
    (horison_length batch_size batch_length : nat) : M Torch.scalar :=
  loss ← positive_step zs hs num_positives horison_length batch_size;
  num_negatives ← lift (num_negatives_of num_positives neg_sampling_factor);
  loss_neg ← negative_step zs hs num_negatives horison_length batch_size batch_length;
  mret (Torch.add loss loss_neg).

End Methods.

(** Every batch index below [batch_size] has the same episode
    quotient: the batch holds fewer than two episodes. *)
Definition single_episode (batch_size batch_length : nat) : Prop :=
  forall i j, i < batch_size -> j < batch_size -> i / batch_length = j / batch_length.

(** The calls made by [get_future_goal_idxs_neg_sampling]. *)
Definition negative_sampling_event (e : event) : bool :=
  match e with
  | RandomRandint _ | RandomChoice1 _ => true
  | _ => false
  end.

(** A run stopped by a check made ahead of the negative-sampling step:
    it raised, and no call of that step had been made. *)
Definition rejected_before_negative_sampling {A} (r : outcome A * world) : Prop :=
  (exists e, r.1 = Raise e)
  /\ Forall (fun ev => negative_sampling_event ev = false) (trace r.2).

End TemporalLatentDistanceReward.

(** ** achiever_reward.py: CosineLatentDistanceReward *)

Module CosineLatentDistanceReward.

(** [worldmodel.rssm.posterior(h, emb)] returns a distribution; its
    [.mean] has one entry per batch element, which [flatten(1)] lays
    out as a vector. *)
Class WorldModel : Type := {
  GoalEmb : Type;
  MeanRow : Type;
  posterior_mean : list (list R) -> GoalEmb -> list MeanRow;
  flatten : MeanRow -> list R
}.

Section Methods.
Context {WM : WorldModel}.

Definition zeros (rows cols : nat) : list (list R) :=
  replicate rows (replicate cols 0%R).

Definition decoded_goal (h_dim batch_size : nat) (goal_emb : GoalEmb) : list (list R) :=
  let init_h := zeros batch_size h_dim in
  flatten <$> posterior_mean init_h goal_emb.

Definition add_scalar (eps : R) (x : list R) : list R := map (fun v => v + eps)%R x.

Definition compute_reward {Hs : Type} (h_dim : nat)
    (z : list (list R)) (h : Hs) (goal_emb : GoalEmb) : outcome (list R) :=
  let batch_size := length z in
  let current_state := z in
  let goal_state := decoded_goal h_dim batch_size goal_emb in
  norm ← Torch.broadcast1 Rmult (Torch.norm_dim1 current_state) (Torch.norm_dim1 goal_state);
  prod ← Torch.broadcast2 Rmult current_state goal_state;
  let dot_prod := Torch.sum_dim1 prod in
  Torch.broadcast1 Rdiv dot_prod (add_scalar 1e-8 norm).

Definition train {A : Type} (args : list A) : M Z := mret 0%Z.

End Methods.

(** The formula of the description, for one pair of vectors. *)
Definition dot (a b : list R) : R := Torch.sum (zip_with Rmult a b).

Definition cosine_similarity (a b : list R) : R :=
  (dot a b / (Torch.norm a * Torch.norm b + 1e-8))%R.

End CosineLatentDistanceReward.

(** ** explorer.py: Explorer *)

Module Explorer.

(** A parameter tensor and a module's [state_dict()]. *)
Record tensor : Type := Tensor { shape : list nat; data : list R }.

(** How the message of every [RuntimeError] of [load_state_dict]
    begins; the missing keys, unexpected keys and size mismatches are
    listed after it. *)
Definition msg_load : string := "Error(s) in loading state_dict".

(** What is copied into the parameter [p] from the entry [q]: a 1-d
    entry offered to a 0-d parameter is first replaced by its element 0
    ([input_param = input_param[0]]), which an empty entry does not
    have.  [None] stands for that [IndexError]. *)
Definition input_for (p q : tensor) : option tensor :=
  match shape p, shape q with
  | [], [0] => None
  | [], [S _] => Some (Tensor [] (take 1 (data q)))
  | _, _ => Some q
  end.

Definition lacks_element (p : tensor) (entry : option tensor) : bool :=
  match entry with
  | Some q => match input_for p q with None => true | Some _ => false end
  | None => false
  end.

(** The entry is there and, after the step above, has the shape of
    the parameter. *)
Definition fits (p : tensor) (entry : option tensor) : bool :=
  match entry ≫= input_for p with
  | Some q => bool_decide (shape q = shape p)
  | None => false
  end.

(** [param.copy_(input_param)]: the parameter keeps its shape and
    takes the values of the entry under its key. *)
Definition copy_entry (sd : gmap string tensor) (k : string) (p : tensor)
  : option tensor :=
  (fun q => Tensor (shape p) (data q)) <$> (sd !! k ≫= input_for p).

(** [own.load_state_dict(sd)] with the default [strict=True].  Every
    parameter whose key is in [sd] is visited: taking element 0 of an
    empty entry raises at once; a shape that differs is noted, a shape
    that agrees is copied ([param.copy_(input_param)]).  Missing and
    unexpected keys and the noted shapes then raise one [RuntimeError]. *)
Definition load_state_dict (own sd : gmap string tensor) : outcome (gmap string tensor) :=
  if decide (map_Forall (fun k p => lacks_element p (sd !! k) = false) own) then
    if decide (dom own = dom sd
               /\ map_Forall (fun k p => fits p (sd !! k) = true) own) then
      Ok (map_imap (copy_entry sd) own)
    else Raise (RuntimeError msg_load)
  else Raise IndexError.

(** An entry that [load_state_dict] accepts for a parameter: of the
    same shape, or a non-empty 1-d entry for a 0-d parameter. *)
Definition loadable_entry (p q : tensor) : Prop :=
  shape q = shape p \/ (shape p = [] /\ exists n, shape q = [S n]).

Definition loadable (own sd : gmap string tensor) : Prop :=
  dom own = dom sd
  /\ forall k p q, own !! k = Some p -> sd !! k = Some q -> loadable_entry p q.

(** Two state dicts of one architecture: the same keys, and the same
    shape under every key.  [__init__] builds [critic] and
    [target_critic] from one constructor call each, with the same
    arguments. *)
Definition same_architecture (a b : gmap string tensor) : Prop :=
  dom a = dom b
  /\ forall k p q, a !! k = Some p -> b !! k = Some q -> shape p = shape q.

(** The collaborators: actor, dynamics model, intrinsic reward, the
    critic architecture (run on a given [state_dict]) and the external
    lambda-return utility. *)
Class Modules : Type := {
  Zrow : Type;
  Hrow : Type;
  Arow : Type;
  actor : list Zrow -> list Hrow -> M (list Arow * list R * list R);
  imagine : list Arow -> list Zrow -> list Hrow -> M (list Hrow * list Zrow);
  instrinsic_reward : list Zrow -> list Hrow -> list R;
  critic_forward : gmap string tensor -> list Zrow -> list Hrow -> list R;
  compute_lambda_target : list (list R) -> R -> list (list R) -> R -> list (list R)
}.

Record explorer : Type := {
  critic : gmap string tensor;
  target_critic : gmap string tensor;
  discount : R;
  lambda_ : R;
  actor_entropy_scale : R
}.

Section Methods.
Context {MD : Modules}.

(** [buf[t] = v]: [v] must have the slot's leading size, or size 1. *)
Definition assign_slot {A} (buf : list (list A)) (t : nat) (v : list A)
  : outcome (list (list A)) :=
  match buf !! t with
  | None => Raise IndexError
  | Some slot =>
      if decide (length v = length slot) then Ok (<[t := v]> buf)
      else match v with
           | [x] => Ok (<[t := replicate (length slot) x]> buf)
           | _ => Raise (RuntimeError Torch.msg_broadcast)
           end
  end.

Record rollout : Type := {
  zs : list Zrow;
  hs : list Hrow;
  imagined_zs : list (list Zrow);
  imagined_hs : list (list Hrow);
  imagined_action_log_probs : list (list R);
  imagined_action_entropys : list (list R)
}.

(** [torch.empty(horison_length, *x.shape)]: uninitialised storage of
    that shape; every slot is written before it is read. *)
Definition empty {A} (horison_length : nat) (like : list A) : list (list A) :=
  replicate horison_length like.

Definition rollout_init (init_zs : list Zrow) (init_hs : list Hrow)
    (horison_length : nat) : rollout :=
  {| zs := init_zs;
     hs := init_hs;
     imagined_zs := empty horison_length init_zs;
     imagined_hs := empty horison_length init_hs;
     imagined_action_log_probs := empty horison_length (replicate (length init_zs) 0%R);
     imagined_action_entropys := empty horison_length (replicate (length init_zs) 0%R) |}.

(** One iteration of the loop at lines 90-99. *)
Definition rollout_step (st : rollout) (t : nat) : M rollout :=
  '(actions, action_log_probs, action_entropys) ← actor (zs st) (hs st);
  '(hs', zs') ← imagine actions (zs st) (hs st);
  ihs ← lift (assign_slot (imagined_hs st) t hs');
  izs ← lift (assign_slot (imagined_zs st) t zs');
  ilp ← lift (assign_slot (imagined_action_log_probs st) t action_log_probs);
  ient ← lift (assign_slot (imagined_action_entropys st) t action_entropys);
  mret {| zs := zs'; hs := hs';
          imagined_zs := izs; imagined_hs := ihs;
          imagined_action_log_probs := ilp;
          imagined_action_entropys := ient |}.

Fixpoint rollout_loop (ts : list nat) (st : rollout) : M rollout :=
  match ts with
  | [] => mret st
  | t :: ts' => st' ← rollout_step st t; rollout_loop ts' st'
  end.

(** The recorded tensors have leading shape (horizon, batch): the
    latent buffers hold [horizon] slots of [bz] (resp. [bh]) rows, the
    log-probability and entropy buffers [horizon] slots of [bz] values. *)
Definition recorded_shape (horizon bz bh : nat) (st : rollout) : Prop :=
  (length (imagined_zs st) = horizon
   /\ Forall (fun x => length x = bz) (imagined_zs st))
  /\ (length (imagined_hs st) = horizon
      /\ Forall (fun x => length x = bh) (imagined_hs st))
  /\ (length (imagined_action_log_probs st) = horizon
      /\ Forall (fun x => length x = bz) (imagined_action_log_probs st))
  /\ (length (imagined_action_entropys st) = horizon
      /\ Forall (fun x => length x = bz) (imagined_action_entropys st)).

(** The collaborators' contract on the batch dimension: the actor
    returns one log-probability and one entropy per input row, the
    dynamics model one new state per input state. *)
Definition actor_batchwise : Prop :=
  forall z h w actions lp ent w',
    actor z h w = (Ok (actions, lp, ent), w') ->
    length lp = length z /\ length ent = length z.

Definition imagine_batchwise : Prop :=
  forall actions z h w h' z' w',
    imagine actions z h w = (Ok (h', z'), w') ->
    length h' = length h /\ length z' = length z.

(** The reward model and the critic return one value per flattened
    state; the lambda-return utility returns targets of the shape of
    the rewards it is given. *)
Definition reward_batchwise : Prop :=
  forall z h, length (instrinsic_reward z h) = length z.

Definition critic_batchwise : Prop :=
  forall params z h, length (critic_forward params z h) = length z.

Definition lambda_target_shaped : Prop :=
  forall rewards discount values lam,
    Forall2 (fun x y => length x = length y)
      (compute_lambda_target rewards discount values lam) rewards.

Definition imagine_rollout (init_zs : list Zrow) (init_hs : list Hrow)
    (horison_length : nat) : M rollout :=
  rollout_loop (seq 0 horison_length) (rollout_init init_zs init_hs horison_length).

Fixpoint chunks {A} (count size : nat) (x : list A) : list (list A) :=
  match count with
  | 0 => []
  | S count' => take size x :: chunks count' size (drop size x)
  end.

(** [x.view(rows, -1)] *)
Definition view_rows (rows : nat) (x : list R) : outcome (list (list R)) :=
  if decide (rows = 0) then Raise (RuntimeError Torch.msg_view)
  else if decide (length x mod rows = 0) then Ok (chunks rows (length x / rows) x)
  else Raise (RuntimeError Torch.msg_view).

(** Lines 110-111. *)
Definition actor_loss_of (scale : R)
    (log_probs entropys lambda_target target_values : list (list R))
  : outcome Torch.scalar :=
  advantage ← Torch.broadcast2 Rminus lambda_target target_values;
  objective ← Torch.broadcast2 Rmult log_probs advantage;
  total ← Torch.broadcast2 Rplus objective (map (map (Rmult scale)) entropys);
  mret (Torch.neg (Torch.sum_scalars (Torch.mean_dim1 total))).

(** Lines 114-115: [td.Independent(td.Normal(mean, 1), 1).log_prob(x)]
    sums the unit-variance normal log-density over the last dimension. *)
Definition normal_log_prob (mu x : R) : R :=
  (- ((x - mu) * (x - mu)) / 2 - ln 1 - ln (sqrt (2 * PI)))%R.

Definition critic_loss_of (value_mean lambda_target : list (list R))
  : outcome Torch.scalar :=
  lp ← Torch.broadcast2 (fun x mu => normal_log_prob mu x) lambda_target value_mean;
  mret (Torch.neg (Torch.mean_or_nan (Torch.sum_dim1 lp))).

Definition train (self : explorer) (init_zs : list Zrow) (init_hs : list Hrow)
    (horison_length : nat) : M ((Torch.scalar * Torch.scalar) * explorer) :=
  st ← imagine_rollout init_zs init_hs horison_length;
  let flatten_hs := concat (imagined_hs st) in
  let flatten_zs := concat (imagined_zs st) in
  rewards ← lift (view_rows horison_length (instrinsic_reward flatten_zs flatten_hs));
  target_values ← lift (view_rows horison_length
                          (critic_forward (target_critic self) flatten_zs flatten_hs));
  let lambda_target :=
    compute_lambda_target rewards (discount self) target_values (lambda_ self) in
  actor_loss ← lift (actor_loss_of (actor_entropy_scale self)
                       (imagined_action_log_probs st) (imagined_action_entropys st)
                       lambda_target target_values);
  value_mean ← lift (view_rows horison_length
                       (critic_forward (critic self) flatten_zs flatten_hs));
  critic_loss ← lift (critic_loss_of value_mean lambda_target);
  mret ((actor_loss, critic_loss), self).

(** Successive [train] calls on the same object. *)
Fixpoint train_calls (self : explorer)
    (calls : list (list Zrow * list Hrow * nat))
  : M (list (Torch.scalar * Torch.scalar) * explorer) :=
  match calls with
  | [] => mret ([], self)
  | (init_zs, init_hs, horison_length) :: calls' =>
      '(losses, self1) ← train self init_zs init_hs horison_length;
      '(rest, self2) ← train_calls self1 calls';
      mret (losses :: rest, self2)
  end.

Definition update_critic (self : explorer) : outcome (unit * explorer) :=
  loaded ← load_state_dict (target_critic self) (critic self);
  mret (tt, {| critic := critic self;
               target_critic := loaded;
               discount := discount self;
               lambda_ := lambda_ self;
               actor_entropy_scale := actor_entropy_scale self |}).

End Methods.

(** The actor loss as the description writes it: the negated mean over
    the batch of the per-trajectory sum over time. *)
Definition at2 (x : list (list R)) (t b : nat) : R := nth b (nth t x []) 0%R.

Definition spec_actor_loss (horizon batch : nat) (scale : R)
    (log_probs entropys lambda_target target_values : list (list R)) : R :=
  (- Torch.mean
       (map (fun b =>
               Torch.sum
                 (map (fun t =>
                         at2 log_probs t b * (at2 lambda_target t b - at2 target_values t b)
                         + scale * at2 entropys t b)
                    (seq 0 horizon)))
          (seq 0 batch)))%R.

End Explorer.

(** ** Small concrete collaborators, to run the methods on examples *)

Module Toy.

(** Latent rows are numbers; the embedding of a state is [z + h] and
    the estimated distance is the absolute difference of embeddings. *)
Definition networks : TemporalLatentDistanceReward.Networks :=
  {| TemporalLatentDistanceReward.Zrow := nat;
     TemporalLatentDistanceReward.Hrow := nat;
     TemporalLatentDistanceReward.Emb := R;
     TemporalLatentDistanceReward.Dist := list R;
     TemporalLatentDistanceReward.state2emb :=
       fun zs hs => zip_with (fun z h => INR (z + h)) zs hs;
     TemporalLatentDistanceReward.dist_mean := fun d => d;
     TemporalLatentDistanceReward.distance_estimator :=
       fun a b => zip_with (fun x y => Rabs (x - y)) a b |}.

(** Python floats: the binary64 nearest to 1/3 and to 0.7, and 1.0, 0.5
    and -1.5, which are binary64 themselves. *)
Definition double_third : spec_float := S754_finite false 6004799503160661 (-54).
Definition double_0_7 : spec_float := S754_finite false 6305039478318694 (-53).
Definition double_1 : spec_float := S754_finite false 4503599627370496 (-52).
Definition double_half : spec_float := S754_finite false 4503599627370496 (-53).
Definition double_minus_1_5 : spec_float := S754_finite true 6755399441055744 (-52).

(** A (2, 2) batch of latent states. *)
Definition zs22 : list (list nat) := [[0; 1]; [2; 3]].
Definition hs22 : list (list nat) := [[0; 0]; [1; 1]].

(** A dynamics model whose posterior mean is the goal embedding itself,
    shifted by the recurrent state it is given. *)
Definition worldmodel : CosineLatentDistanceReward.WorldModel :=
  {| CosineLatentDistanceReward.GoalEmb := list (list R);
     CosineLatentDistanceReward.MeanRow := list R;
     CosineLatentDistanceReward.posterior_mean :=
       fun init_h emb => zip_with (fun h e => map (Rplus (Torch.sum h)) e) init_h emb;
     CosineLatentDistanceReward.flatten := fun row => row |}.

(** Explorer collaborators over numeric rows: the actor shifts the
    state by a random draw, the dynamics model advances every row by one,
    the critic is linear in [z] with the weight stored under "w". *)
Definition weight (params : gmap string Explorer.tensor) : R :=
  match params !! "w" with
  | Some t => nth 0 (Explorer.data t) 0%R
  | None => 0%R
  end.

Definition modules : Explorer.Modules :=
  {| Explorer.Zrow := nat;
     Explorer.Hrow := nat;
     Explorer.Arow := nat;
     Explorer.actor := fun z h =>
       r ← draw; mret (map (Nat.add r) z, map INR z, map (fun _ => 1%R) z);
     Explorer.imagine := fun a z h => mret (map S h, zip_with Nat.add z (a ++ z));
     Explorer.instrinsic_reward := fun z h => map INR z;
     Explorer.critic_forward := fun params z h => map (fun v => weight params * INR v)%R z;
     Explorer.compute_lambda_target := fun rewards discount values lam =>
       map (map (fun r => r + discount * lam)%R) rewards |}.

Definition critic_params (v : R) : gmap string Explorer.tensor :=
  {[ "w" := Explorer.Tensor [1] [v] ]}.

Definition explorer0 : Explorer.explorer :=
  {| Explorer.critic := critic_params 2;
     Explorer.target_critic := critic_params 5;
     Explorer.discount := 1;
     Explorer.lambda_ := 1;
     Explorer.actor_entropy_scale := 3 |}.

(** An explorer whose target critic holds a 0-d parameter where the
    critic holds a 1-d one. *)
Definition explorer_scalar : Explorer.explorer :=
  {| Explorer.critic := {[ "w" := Explorer.Tensor [1] [2%R] ]};
     Explorer.target_critic := {[ "w" := Explorer.Tensor [] [5%R] ]};
     Explorer.discount := 1;
     Explorer.lambda_ := 1;
     Explorer.actor_entropy_scale := 3 |}.

(** An explorer whose critic has no parameter at all. *)
Definition explorer_empty : Explorer.explorer :=
  {| Explorer.critic := ∅;
     Explorer.target_critic := critic_params 5;
     Explorer.discount := 1;
     Explorer.lambda_ := 1;
     Explorer.actor_entropy_scale := 3 |}.

End Toy.

(** ** Contracts the callers of TemporalLatentDistanceReward rely on *)

Module TemporalContract.

Section Contract.
Context {NN : TemporalLatentDistanceReward.Networks}.

(** The encoder embeds every state of the batch it is given, and the
    estimator returns one distance per pair of embeddings. *)
Definition encoder_batchwise : Prop :=
  forall z h, length z = length h ->
    length (TemporalLatentDistanceReward.dist_mean
              (TemporalLatentDistanceReward.state2emb z h)) = length z.

Definition estimator_batchwise : Prop :=
  forall a b, length a = length b ->
    length (TemporalLatentDistanceReward.distance_estimator a b) = length a.

End Contract.

(** A (T, B, ...) tensor holds an entry at every (time, batch) index of
    the [horison_length] x [batch_size] grid. *)
Definition covers {A} (x : list (list A)) (horison_length batch_size : nat) : Prop :=
  forall t b, t < horison_length -> b < batch_size ->
    exists row v, x !! t = Some row /\ row !! b = Some v.

End TemporalContract.

(** ** Contracts the Explorer's callers rely on *)

Module ExplorerContract.

Section Contract.
Context {MD : Explorer.Modules}.

(** The actor and the dynamics model return for every input: they do
    not raise. *)
Definition actor_total : Prop :=
  forall z h w, exists r w', Explorer.actor z h w = (Ok r, w').

Definition imagine_total : Prop :=
  forall actions z h w, exists r w', Explorer.imagine actions z h w = (Ok r, w').

End Contract.

End ExplorerContract.

(** ** train.py: the training script

    [main] drives the environment, the replay buffer and the LEXA agent,
    none of which is under src/.  Their calls are recorded as events, in
    program order; what they return is given by the [Collaborators]
    below, indexed by the learning step at which the call is made.  The
    collaborators are taken to return: an exception raised inside one of
    them, and an evaluation episode that never ends, are outside this
    model (an evaluation episode comes with the number of steps it
    takes).  What is modelled in full is the script's own control: the
    four modulus tests, the episode counter, [goal], [metrics] and
    [best_score].  The construction of the collaborators (lines 19 to 28)
    has no control flow and is left out. *)

Module Main.

(** [UnboundLocalError] is what reading a local variable raises before
    its first assignment; the other exceptions are those of [Py]. *)
Inductive exn :=
| Builtin (e : Py.exn)
| UnboundLocalError (name : string).

Inductive result (A : Type) :=
| Returned (a : A)
| Raised (e : exn).
Arguments Returned {A} a.
Arguments Raised {A} e.

(** The strings 'explorer' and 'achiever'. *)
Inductive mode := explorer | achiever.

(** [base_path / cfg.wandb.name / f'{step + 1}'] and [... / 'best']. *)
Inductive path := Checkpoint (steps : Z) | Best.

(** One evaluation episode, lines 79 to 87: the entry of
    [eval_env.goals] it is run for, the goal observation the
    environment returns for it, how many more times than once the loop
    [while not eval_done] runs, and what [compute_success()] says. *)
Record eval_run (Goal GoalIdx : Type) := EvalRun {
  goal_idx : GoalIdx;
  goal_obs : Goal;
  later_steps : nat;
  success : bool
}.
Arguments EvalRun {Goal GoalIdx} goal_idx goal_obs later_steps success.
Arguments goal_idx {Goal GoalIdx} e.
Arguments goal_obs {Goal GoalIdx} e.
Arguments later_steps {Goal GoalIdx} e.
Arguments success {Goal GoalIdx} e.

Class Collaborators := {
  Goal : Type;
  GoalIdx : Type;
  Metrics : Type;
  (** [done] of [env.step] at a seed step and at a learning step *)
  seed_done : Z -> bool;
  env_done : Z -> bool;
  (** the value of [lexa.train] at a learning step *)
  train_metrics : Z -> Metrics;
  (** the goal drawn by [replay_buffer.sample(1, 1)] at a learning step *)
  sampled_goal : Z -> Goal;
  (** the evaluation run at a learning step: an episode for each entry
      of [eval_env.goals] *)
  eval_runs : Z -> list (eval_run Goal GoalIdx)
}.

(** [cfg.learning.*], and [cfg.model.explorer.slow_critic_update] and
    [cfg.model.achiever.slow_critic_update]. *)
Record config := Config {
  seed_steps : Z;
  num_steps : Z;
  expl_episode_freq : Z;
  update_freq : Z;
  eval_episode_freq : Z;
  explorer_slow_critic_update : Z;
  achiever_slow_critic_update : Z
}.

Section Script.
Context {C : Collaborators}.
Local Open Scope Z_scope.

Inductive event :=
| ActionSample                               (* env.action_space.sample() *)
| Agent (m : mode) (goal : option Goal) (train : option bool)
                                             (* lexa.agent(obs, mode, goal[, train=...]) *)
| EnvStep                                    (* env.step(action) *)
| Push                                       (* replay_buffer.push(...) *)
| Sample                                     (* replay_buffer.sample(batch_size, seq_length) *)
| Train                                      (* lexa.train(observations, actions) *)
| ExplorerUpdateCritic                       (* lexa.explorer.update_critic() *)
| AchieverUpdateCritic                       (* lexa.achiever.update_critic() *)
| PrintMetrics (steps episodes : Z) (m : Metrics)
| Save (p : path)                            (* lexa.save(...) *)
| EnvReset                                   (* env.reset() *)
| AgentReset                                 (* lexa.agent.reset() *)
| SampleGoal                                 (* replay_buffer.sample(1, 1) *)
| EvalEnvReset                               (* eval_env.reset() *)
| SetGoalIdx (i : GoalIdx)                   (* eval_env.set_goal_idx(goal_idx) *)
| GetGoalObs                                 (* eval_env.get_goal_obs() *)
| EvalEnvStep                                (* eval_env.step(eval_action) *)
| ComputeSuccess (success : bool)            (* eval_env.compute_success() *)
| PrintScore (steps episodes : Z) (score : Q).

(** A computation returns or raises, and has made calls up to then. *)
Definition M (A : Type) : Type := result A * list event.

Definition ret {A} (a : A) : M A := (Returned a, []).

Definition bind {A B} (m : M A) (k : A -> M B) : M B :=
  match m with
  | (Returned a, evs) => let '(r, evs') := k a in (r, evs ++ evs')
  | (Raised e, evs) => (Raised e, evs)
  end.

Definition raise {A} (e : exn) : M A := (Raised e, []).

Definition emit (e : event) : M unit := (Returned tt, [e]).

#[export] Instance M_ret : MRet M := @ret.
#[export] Instance M_bind : MBind M := fun A B k m => bind m k.

(** [a % b] on Python integers: the sign of the result is that of [b]. *)
Definition py_mod (a b : Z) : M Z :=
  if decide (b = 0) then raise (Builtin ZeroDivisionError) else mret (a mod b).

(** [a / b] on two counts. *)
Definition true_div (a b : nat) : M Q :=
  if decide (b = 0%nat) then raise (Builtin ZeroDivisionError)
  else mret (Z.of_nat a # Pos.of_nat b).

(** [range(n)] *)
Definition range (n : Z) : list Z := map Z.of_nat (seq 0%nat (Z.to_nat n)).

(** The local variables of [main] that its control depends on;
    [None] in [metrics] is the variable before its first assignment. *)
Record locals := Locals {
  episodes : Z;
  best_score : Q;
  goal : option Goal;
  metrics : option Metrics
}.

(** Lines 33 to 39. *)
Definition seed_step (step : Z) : M unit :=
  emit ActionSample;;
  emit EnvStep;;
  emit Push;;
  if seed_done step then emit EnvReset else mret tt.

Fixpoint seed_loop (steps : list Z) : M unit :=
  match steps with
  | [] => mret tt
  | step :: rest => seed_step step;; seed_loop rest
  end.

(** Lines 83 to 85: the agent acts as achiever towards the goal
    observation, with [train=False], until the environment reports the
    end of the episode. *)
Fixpoint eval_rollout (goal : Goal) (later_steps : nat) : M unit :=
  emit (Agent achiever (Some goal) (Some false));;
  emit EvalEnvStep;;
  match later_steps with
  | O => mret tt
  | S n => eval_rollout goal n
  end.

(** Lines 77 to 87: one evaluation episode per goal, counting the
    successes. *)
Fixpoint eval_episodes (runs : list (eval_run Goal GoalIdx)) : M nat :=
  match runs with
  | [] => mret 0%nat
  | run :: rest =>
      emit EvalEnvReset;;
      emit (SetGoalIdx (goal_idx run));;
      emit GetGoalObs;;
      eval_rollout (goal_obs run) (later_steps run);;
      emit (ComputeSuccess (success run));;
      count ← eval_episodes rest;
      mret (if success run then S count else count)
  end.

(** Lines 77 to 88: the evaluation episodes, then the ratio. *)
Definition evaluate (step : Z) : M Q :=
  count ← eval_episodes (eval_runs step);
  true_div count (length (eval_runs step)).

(** Lines 75 to 93. *)
Definition evaluation (cfg : config) (step : Z) (st : locals) : M locals :=
  r ← py_mod (episodes st) (eval_episode_freq cfg);
  if decide (r = 0) then mret st
  else
    score ← evaluate step;
    emit (PrintScore (step + 1) (episodes st) score);;
    st' ← (if Qlt_le_dec (best_score st) score
           then emit (Save Best);;
                mret (Locals (episodes st) score (goal st) (metrics st))
           else mret st);
    emit AgentReset;;
    mret st'.

(** Lines 67 to 93. *)
Definition episode_end (cfg : config) (step : Z) (st : locals) : M locals :=
  match metrics st with
  | None => raise (UnboundLocalError "metrics")
  | Some m =>
      emit (PrintMetrics (step + 1) (episodes st) m);;
      emit (Save (Checkpoint (step + 1)));;
      emit EnvReset;;
      emit AgentReset;;
      emit SampleGoal;;
      evaluation cfg step
        (Locals (episodes st + 1) (best_score st) (Some (sampled_goal step)) (metrics st))
  end.

(** Lines 47 to 56: the agent acts in the mode of the current episode. *)
Definition interact (cfg : config) (st : locals) : M unit :=
  r ← py_mod (episodes st) (expl_episode_freq cfg);
  emit (Agent (if decide (r = 0) then explorer else achiever) (goal st) None);;
  emit EnvStep;;
  emit Push.

(** Lines 58 to 65: the three tests on [step + 1]; a non-zero
    remainder is what lets the call through. *)
Definition updates (cfg : config) (step : Z) (st : locals) : M locals :=
  u ← py_mod (step + 1) (update_freq cfg);
  st1 ← (if decide (u = 0) then mret st
         else emit Sample;;
              emit Train;;
              mret (Locals (episodes st) (best_score st) (goal st)
                      (Some (train_metrics step))));
  e ← py_mod (step + 1) (explorer_slow_critic_update cfg);
  (if decide (e = 0) then mret tt else emit ExplorerUpdateCritic);;
  a ← py_mod (step + 1) (achiever_slow_critic_update cfg);
  (if decide (a = 0) then mret tt else emit AchieverUpdateCritic);;
  mret st1.

(** Lines 47 to 93: one pass of the learning loop. *)
Definition learning_step (cfg : config) (step : Z) (st : locals) : M locals :=
  interact cfg st;;
  st1 ← updates cfg step st;
  if env_done step then episode_end cfg step st1 else mret st1.

Fixpoint learning_loop (cfg : config) (steps : list Z) (st : locals) : M locals :=
  match steps with
  | [] => mret st
  | step :: rest => st' ← learning_step cfg step st; learning_loop cfg rest st'
  end.

(** Lines 43 to 45. *)
Definition initial : locals := Locals 0 (-1)%Q None None.

(** Lines 30 to 93. *)
Definition main (cfg : config) : M locals :=
  emit EnvReset;;
  seed_loop (range (seed_steps cfg));;
  emit EnvReset;;
  learning_loop cfg (range (num_steps cfg)) initial.

(** How often a call occurs among those made. *)
Definition calls (p : event -> bool) (evs : list event) : nat :=
  length (filter (fun e => p e = true) evs).

Definition is_train (e : event) : bool :=
  match e with Train => true | _ => false end.
Definition is_explorer_update (e : event) : bool :=
  match e with ExplorerUpdateCritic => true | _ => false end.
Definition is_achiever_update (e : event) : bool :=
  match e with AchieverUpdateCritic => true | _ => false end.
Definition is_checkpoint (e : event) : bool :=
  match e with Save (Checkpoint _) => true | _ => false end.
Definition is_best (e : event) : bool :=
  match e with Save Best => true | _ => false end.
Definition is_score (e : event) : bool :=
  match e with PrintScore _ _ _ => true | _ => false end.

(** A call of the evaluation episodes for [runs], lines 79 to 86: a
    call on [eval_env], or the agent acting as achiever, with
    [train=False], towards the goal observation of one of the runs. *)
Definition evaluation_call (runs : list (eval_run Goal GoalIdx)) (e : event) : Prop :=
  match e with
  | EvalEnvReset | SetGoalIdx _ | GetGoalObs | EvalEnvStep | ComputeSuccess _ => True
  | Agent m g t =>
      m = achiever /\ t = Some false
      /\ exists run, run ∈ runs /\ g = Some (goal_obs run)
  | _ => False
  end.

(** [success / len(eval_env.goals)] for a non-empty [runs]. *)
Definition score_of (runs : list (eval_run Goal GoalIdx)) : Q :=
  Z.of_nat (length (filter (fun run => success run = true) runs))
  # Pos.of_nat (length runs).

(** What [best_score] has to do with the scores printed so far: it
    bounds them all, and it is either still the initial -1, with nothing
    evaluated and no 'best' checkpoint, or one of the printed scores,
    with at least one 'best' checkpoint and no more of them than
    evaluations. *)
Definition best_recorded (best : Q) (evs : list event) : Prop :=
  (forall steps ep q, PrintScore steps ep q ∈ evs -> (0 <= q <= 1)%Q /\ (q <= best)%Q)
  /\ ((best = (-1)%Q /\ calls is_score evs = 0%nat /\ calls is_best evs = 0%nat)
      \/ ((exists steps ep, PrintScore steps ep best ∈ evs)
          /\ (0 < calls is_best evs <= calls is_score evs)%nat)).

End Script.

End Main.

(** A run of the script to try the statements on: episodes of two
    steps, metrics and goals named by the step that produced them, and
    three evaluation goals with observations 100, 101 and 102, reached
    in one, two and three steps, the third with success from learning
    step 3 on only. *)
Module ToyScript.

Definition collaborators : Main.Collaborators :=
  {| Main.Goal := Z;
     Main.GoalIdx := nat;
     Main.Metrics := Z;
     Main.seed_done := Z.odd;
     Main.env_done := Z.odd;
     Main.train_metrics := fun step => step;
     Main.sampled_goal := fun step => step;
     Main.eval_runs := fun step =>
       [Main.EvalRun 0 100%Z 0 true;
        Main.EvalRun 1 101%Z 1 false;
        Main.EvalRun 2 102%Z 2 (2 <? step)%Z] |}.

(** Two seed steps and six learning steps; exploration every second
    episode, [update_freq] 3, [eval_episode_freq] 2, and 2 and 4 for the
    two [slow_critic_update]. *)
Definition cfg : Main.config :=
  {| Main.seed_steps := 2;
     Main.num_steps := 6;
     Main.expl_episode_freq := 2;
     Main.update_freq := 3;
     Main.eval_episode_freq := 2;
     Main.explorer_slow_critic_update := 2;
     Main.achiever_slow_critic_update := 4 |}.

(** The same with [update_freq] 1. *)
Definition cfg_update_freq_1 : Main.config :=
  {| Main.seed_steps := 2;
     Main.num_steps := 6;
     Main.expl_episode_freq := 2;
     Main.update_freq := 1;
     Main.eval_episode_freq := 2;
     Main.explorer_slow_critic_update := 2;
     Main.achiever_slow_critic_update := 4 |}.

End ToyScript.

(** * Properties *)

(** ** The runtime *)

Section RuntimeFacts.

Lemma bind_Ok_inv {A B} (m : M A) (k : A -> M B) w r w' :
  (m ≫= k) w = (Ok r, w') ->
  exists a w1, m w = (Ok a, w1) /\ k a w1 = (Ok r, w').
Proof.
  unfold mbind, M_bind, Py.bind.
  destruct (m w) as [[a|e] w1]; [eauto | discriminate].
Qed.

Lemma bind_Ok_intro {A B} (m : M A) (k : A -> M B) w a w1 :
  m w = (Ok a, w1) -> (m ≫= k) w = k a w1.
Proof. unfold mbind, M_bind, Py.bind. by intros ->. Qed.

Lemma bind_Raise_intro {A B} (m : M A) (k : A -> M B) w e w1 :
  m w = (Raise e, w1) -> (m ≫= k) w = (Raise e, w1).
Proof. unfold mbind, M_bind, Py.bind. by intros ->. Qed.

Lemma ret_Ok_inv {A} (a : A) w r w' :
  mret (M := M) a w = (Ok r, w') -> r = a /\ w' = w.
Proof. intros [= <- <-]. done. Qed.

Lemma lift_Ok_inv {A} (o : outcome A) w a w' :
  lift o w = (Ok a, w') -> o = Ok a /\ w' = w.
Proof. unfold lift. intros [= -> ->]. done. Qed.

Lemma omap_Ok {A B} (f : A -> outcome B) xs ys :
  omap f xs = Ok ys <-> Forall2 (fun x y => f x = Ok y) xs ys.
Proof.
  revert ys. induction xs as [|x xs IH]; intros ys; simpl.
  - split; [intros [= <-]; constructor | by inversion 1].
  - unfold obind. destruct (f x) as [y|e] eqn:Ef.
    + destruct (omap f xs) as [ys'|e] eqn:Em.
      * split.
        -- intros [= <-]. constructor; [done | by apply IH].
        -- inversion 1 as [|? y0 ? ys0 Hy Hys]; subst.
           apply IH in Hys. congruence.
      * split; [discriminate|].
        inversion 1 as [|? y0 ? ys0 Hy Hys]; subst.
        apply IH in Hys. discriminate.
    + split; [discriminate|].
      inversion 1; subst; congruence.
Qed.

Lemma omap_total {A B} (f : A -> outcome B) (g : A -> B) xs :
  Forall (fun x => f x = Ok (g x)) xs -> omap f xs = Ok (g <$> xs).
Proof.
  induction 1 as [|x xs Hx _ IH]; simpl; [done|].
  by rewrite Hx, IH.
Qed.

Lemma take_rows_Ok {A} (a : list A) idx rows :
  Np.take_rows a idx = Ok rows <-> Forall2 (fun i x => a !! i = Some x) idx rows.
Proof.
  unfold Np.take_rows. rewrite omap_Ok.
  split; intros HF; eapply Forall2_impl; try exact HF; simpl; intros i x.
  - destruct (a !! i); congruence.
  - by intros ->.
Qed.

Lemma take_rows_total {A} (a : list A) idx :
  Forall (fun i => i < length a) idx -> exists rows, Np.take_rows a idx = Ok rows.
Proof.
  induction 1 as [|i idx Hi _ [rows IH]].
  - by exists [].
  - destruct (lookup_lt_is_Some_2 a i Hi) as [x Hx].
    exists (x :: rows). apply take_rows_Ok. constructor; [done|].
    by apply take_rows_Ok.
Qed.

Lemma draw_Ok w : exists r w1, draw w = (Ok r, w1) /\ trace w1 = trace w.
Proof. unfold draw. destruct (entropy w); eauto. Qed.

End RuntimeFacts.

(** ** Sampling without replacement *)

Section ChoiceFacts.

Lemma delete_lookup_notin (pool : list nat) i x :
  NoDup pool -> pool !! i = Some x -> x ∉ delete i pool.
Proof.
  intros Hnd Hi.
  rewrite delete_take_drop.
  rewrite <- (take_drop_middle pool i x Hi) in Hnd.
  apply NoDup_app in Hnd as (_ & Hdisj & Hnd).
  apply NoDup_cons in Hnd as [Hx _].
  intros [Hin|Hin]%elem_of_app; [|done].
  apply (Hdisj x Hin). left.
Qed.

Lemma pick_distinct_Ok k pool w idx w' :
  Np.pick_distinct k pool w = (Ok idx, w') ->
  NoDup pool ->
  length idx = k /\ NoDup idx /\ (forall x, x ∈ idx -> x ∈ pool).
Proof.
  revert pool w idx w'. induction k as [|k IH]; intros pool w idx w'; simpl.
  - intros [= <- <-] _. split; [done|]. split; [constructor|].
    intros x Hx. by apply elem_of_nil in Hx.
  - intros Hrun Hnd.
    apply bind_Ok_inv in Hrun as (r & w1 & _ & Hrun).
    destruct (pool !! (r mod length pool)) as [x|] eqn:Hx; [|discriminate].
    apply bind_Ok_inv in Hrun as (rest & w2 & Hrest & [= <- <-]).
    assert (NoDup (delete (r mod length pool) pool)) as Hnd'.
    { apply (sublist_NoDup _ pool); [done | apply sublist_delete]. }
    destruct (IH _ _ _ _ Hrest Hnd') as (Hlen & Hndr & Hsub).
    split; [simpl; by rewrite Hlen|]. split.
    + constructor; [|done].
      intros Hin. apply Hsub in Hin.
      exact (delete_lookup_notin pool _ x Hnd Hx Hin).
    + intros y [->|Hy]%elem_of_cons.
      * by eapply list_elem_of_lookup_2.
      * apply Hsub in Hy. eapply elem_of_sublist; [done | apply sublist_delete].
Qed.

Lemma pick_distinct_total k pool w :
  k <= length pool ->
  exists idx w', Np.pick_distinct k pool w = (Ok idx, w') /\ trace w' = trace w.
Proof.
  revert pool w. induction k as [|k IH]; intros pool w Hk; simpl.
  - by exists [], w.
  - destruct (draw_Ok w) as (r & w1 & Hd & Ht1).
    rewrite (bind_Ok_intro _ _ _ _ _ Hd).
    assert (r mod length pool < length pool) as Hlt by (apply Nat.mod_upper_bound; lia).
    destruct (lookup_lt_is_Some_2 pool _ Hlt) as [x Hx]. rewrite Hx.
    destruct (IH (delete (r mod length pool) pool) w1) as (rest & w2 & Hrest & Ht2).
    { rewrite length_delete by eauto. lia. }
    rewrite (bind_Ok_intro _ _ _ _ _ Hrest).
    exists (x :: rest), w2. split; [done | congruence].
Qed.

Lemma choice_no_replace_Ok n k w idx w' :
  Np.choice_no_replace n k w = (Ok idx, w') ->
  length idx = k /\ NoDup idx /\ Forall (fun i => i < n) idx.
Proof.
  unfold Np.choice_no_replace. intros Hrun.
  apply bind_Ok_inv in Hrun as (? & w1 & _ & Hrun).
  destruct (decide (n = 0 /\ k <> 0)); [discriminate|].
  destruct (decide (n < k)); [discriminate|].
  apply pick_distinct_Ok in Hrun as (Hlen & Hnd & Hsub); [|apply NoDup_seq].
  split; [done|]. split; [done|].
  apply Forall_forall. intros i Hi%Hsub%elem_of_seq. lia.
Qed.

Lemma choice_no_replace_total n k w :
  k <= n ->
  exists idx w', Np.choice_no_replace n k w = (Ok idx, w')
                 /\ trace w' = trace w ++ [RandomChoice n k].
Proof.
  intros Hk. unfold Np.choice_no_replace.
  destruct (pick_distinct_total k (seq 0 n) (World (entropy w) (trace w ++ [RandomChoice n k])))
    as (idx & w' & Hrun & Ht).
  { by rewrite length_seq. }
  exists idx, w'. split; [|done].
  erewrite bind_Ok_intro by reflexivity.
  destruct (decide (n = 0 /\ k <> 0)); [lia|].
  destruct (decide (n < k)); [lia | done].
Qed.

(** Every selection of [k] distinct indices below [n], in any order, is
    the outcome of some stream of raw draws: the sampler's support is the
    whole set of samples without replacement. *)
Lemma pick_distinct_reaches (idx pool : list nat) (tr : list event) :
  NoDup idx -> (forall x, x ∈ idx -> x ∈ pool) ->
  exists draws w',
    Np.pick_distinct (length idx) pool (World draws tr) = (Ok idx, w').
Proof.
  revert pool. induction idx as [|x idx IH]; intros pool Hnd Hsub.
  - by exists [], (World [] tr).
  - apply NoDup_cons in Hnd as [Hx Hnd].
    assert (x ∈ pool) as [i Hi]%list_elem_of_lookup by (apply Hsub; left).
    pose proof (lookup_lt_Some _ _ _ Hi) as Hlt.
    destruct (IH (delete i pool) Hnd) as (draws & w' & Hrest).
    { intros y Hy.
      assert (y ∈ pool) as Hyp by (apply Hsub; by right).
      rewrite <- (take_drop_middle pool i x Hi) in Hyp.
      rewrite delete_take_drop.
      apply elem_of_app in Hyp as [Hyp|Hyp]; [apply elem_of_app; by left|].
      apply elem_of_cons in Hyp as [->|Hyp]; [done|].
      apply elem_of_app. by right. }
    exists (i :: draws), w'.
    cbn [length Np.pick_distinct].
    erewrite bind_Ok_intro by reflexivity.
    rewrite Nat.mod_small by done. rewrite Hi.
    by rewrite (bind_Ok_intro _ _ _ _ _ Hrest).
Qed.

Lemma choice_no_replace_reaches (n : nat) (idx : list nat) :
  NoDup idx -> Forall (fun i => i < n) idx ->
  exists draws w',
    Np.choice_no_replace n (length idx) (World draws []) = (Ok idx, w').
Proof.
  intros Hnd Hlt.
  destruct (pick_distinct_reaches idx (seq 0 n) [RandomChoice n (length idx)] Hnd)
    as (draws & w' & Hrun).
  { intros x Hx. apply elem_of_seq.
    assert (x < n) by exact (proj1 (Forall_forall _ _) Hlt x Hx). lia. }
  exists draws, w'. unfold Np.choice_no_replace.
  erewrite bind_Ok_intro by reflexivity.
  assert (length idx <= n) as Hle.
  { rewrite <- (length_seq n 0). apply submseteq_length, NoDup_submseteq; [done|].
    intros x Hx. apply elem_of_seq.
    assert (x < n) by exact (proj1 (Forall_forall _ _) Hlt x Hx). lia. }
  destruct (decide (n = 0 /\ length idx <> 0)); [lia|].
  destruct (decide (n < length idx)); [lia|]. exact Hrun.
Qed.

Lemma draw_cons r rs tr : draw (World (r :: rs) tr) = (Ok r, World rs tr).
Proof. done. Qed.

(** On canonical draws the sampler takes the member at each draw, and
    uses the draws up. *)
Lemma pick_distinct_canonical k pool draws tr :
  length draws = k ->
  (forall i d, draws !! i = Some d -> d < length pool - i) ->
  exists idx, Np.pick_distinct k pool (World draws tr) = (Ok idx, World [] tr).
Proof.
  revert pool draws. induction k as [|k IH]; intros pool draws Hlen Hcan.
  - destruct draws; [|done]. by exists [].
  - destruct draws as [|d ds]; [done|].
    assert (d < length pool) as Hd by (specialize (Hcan 0 d eq_refl); lia).
    destruct (lookup_lt_is_Some_2 pool d Hd) as [x Hx].
    destruct (IH (delete d pool) ds) as (rest & Hrest).
    { simpl in Hlen. lia. }
    { intros i e He. rewrite length_delete by eauto.
      specialize (Hcan (S i) e He). lia. }
    exists (x :: rest). cbn [Np.pick_distinct].
    rewrite (bind_Ok_intro _ _ _ _ _ (draw_cons d ds tr)).
    rewrite Nat.mod_small by done. rewrite Hx.
    by rewrite (bind_Ok_intro _ _ _ _ _ Hrest).
Qed.

(** Two vectors of canonical draws that select the same members in the
    same order are the same vector. *)
Lemma pick_distinct_injective k pool draws1 draws2 tr1 tr2 idx w1 w2 :
  NoDup pool ->
  length draws1 = k -> (forall i d, draws1 !! i = Some d -> d < length pool - i) ->
  length draws2 = k -> (forall i d, draws2 !! i = Some d -> d < length pool - i) ->
  Np.pick_distinct k pool (World draws1 tr1) = (Ok idx, w1) ->
  Np.pick_distinct k pool (World draws2 tr2) = (Ok idx, w2) ->
  draws1 = draws2.
Proof.
  revert pool draws1 draws2 idx w1 w2.
  induction k as [|k IH];
    intros pool draws1 draws2 idx w1 w2 Hnd Hl1 Hc1 Hl2 Hc2 Hrun1 Hrun2.
  - destruct draws1, draws2; done.
  - destruct draws1 as [|d1 ds1]; [done|]. destruct draws2 as [|d2 ds2]; [done|].
    assert (d1 < length pool) as Hd1 by (specialize (Hc1 0 d1 eq_refl); lia).
    assert (d2 < length pool) as Hd2 by (specialize (Hc2 0 d2 eq_refl); lia).
    cbn [Np.pick_distinct] in Hrun1, Hrun2.
    rewrite (bind_Ok_intro _ _ _ _ _ (draw_cons d1 ds1 tr1)) in Hrun1.
    rewrite (bind_Ok_intro _ _ _ _ _ (draw_cons d2 ds2 tr2)) in Hrun2.
    rewrite Nat.mod_small in Hrun1, Hrun2 by done.
    destruct (pool !! d1) as [x1|] eqn:Hx1; [|discriminate].
    destruct (pool !! d2) as [x2|] eqn:Hx2; [|discriminate].
    apply bind_Ok_inv in Hrun1 as (rest1 & u1 & Hrest1 & Hret1).
    apply bind_Ok_inv in Hrun2 as (rest2 & u2 & Hrest2 & Hret2).
    apply (ret_Ok_inv (x1 :: rest1)) in Hret1 as [-> ->].
    apply (ret_Ok_inv (x2 :: rest2)) in Hret2 as [Heq ->].
    injection Heq as -> ->.
    assert (d1 = d2) as <- by exact (proj1 (NoDup_alt _) Hnd d1 d2 x2 Hx1 Hx2).
    f_equal.
    eapply (IH (delete d1 pool) ds1 ds2 rest2); [| | | | | exact Hrest1 | exact Hrest2].
    + apply (sublist_NoDup _ pool); [done | apply sublist_delete].
    + simpl in Hl1. lia.
    + intros i e He. rewrite length_delete by eauto.
      specialize (Hc1 (S i) e He). lia.
    + simpl in Hl2. lia.
    + intros i e He. rewrite length_delete by eauto.
      specialize (Hc2 (S i) e He). lia.
Qed.

Lemma pick_distinct_reaches_canonical (idx pool : list nat) (tr : list event) :
  NoDup idx -> (forall x, x ∈ idx -> x ∈ pool) ->
  exists draws,
    length draws = length idx
    /\ (forall i d, draws !! i = Some d -> d < length pool - i)
    /\ Np.pick_distinct (length idx) pool (World draws tr) = (Ok idx, World [] tr).
Proof.
  revert pool. induction idx as [|x idx IH]; intros pool Hnd Hsub.
  - exists []. split; [done|]. split; [|done]. intros i d Hd. done.
  - apply NoDup_cons in Hnd as [Hx Hnd].
    assert (x ∈ pool) as [i Hi]%list_elem_of_lookup by (apply Hsub; left).
    pose proof (lookup_lt_Some _ _ _ Hi) as Hlt.
    destruct (IH (delete i pool) Hnd) as (draws & Hlen & Hcan & Hrest).
    { intros y Hy.
      assert (y ∈ pool) as Hyp by (apply Hsub; by right).
      rewrite <- (take_drop_middle pool i x Hi) in Hyp.
      rewrite delete_take_drop.
      apply elem_of_app in Hyp as [Hyp|Hyp]; [apply elem_of_app; by left|].
      apply elem_of_cons in Hyp as [->|Hyp]; [done|].
      apply elem_of_app. by right. }
    exists (i :: draws). split; [simpl; by rewrite Hlen|]. split.
    + intros [|j] d Hd.
      * injection Hd as <-. lia.
      * specialize (Hcan j d Hd). rewrite length_delete in Hcan by eauto. lia.
    + cbn [length Np.pick_distinct].
      rewrite (bind_Ok_intro _ _ _ _ _ (draw_cons i draws tr)).
      rewrite Nat.mod_small by done. rewrite Hi.
      by rewrite (bind_Ok_intro _ _ _ _ _ Hrest).
Qed.

Lemma canonical_choice_size n k draws : Np.canonical_choice n k draws -> k <= n.
Proof.
  intros [Hlen Hcan].
  destruct (decide (k <= n)) as [|Hgt]; [done|].
  destruct (lookup_lt_is_Some_2 draws n) as [d Hd]; [lia|].
  specialize (Hcan n d Hd). lia.
Qed.

Lemma choice_no_replace_run n k w :
  k <= n ->
  Np.choice_no_replace n k w
  = Np.pick_distinct k (seq 0 n) (World (entropy w) (trace w ++ [RandomChoice n k])).
Proof.
  intros Hk. unfold Np.choice_no_replace.
  erewrite bind_Ok_intro by reflexivity.
  destruct (decide (n = 0 /\ k <> 0)); [lia|].
  destruct (decide (n < k)); [lia | done].
Qed.

(** [np.random.choice(np.arange(n), k, replace=False)] is uniform over
    the ordered selections of [k] distinct indices below [n]. *)
Lemma choice_no_replace_uniform (n k : nat) :
  uniform_over (Np.choice_no_replace n k) (Np.canonical_choice n k)
    (fun idx => length idx = k /\ NoDup idx /\ Forall (fun i => i < n) idx).
Proof.
  split; [|split].
  - intros draws tr Hcan.
    pose proof (canonical_choice_size _ _ _ Hcan) as Hk. destruct Hcan as [Hlen Hcan].
    destruct (pick_distinct_canonical k (seq 0 n) draws (tr ++ [RandomChoice n k]) Hlen)
      as (idx & Hrun).
    { intros i d Hd. rewrite length_seq. by apply Hcan. }
    exists idx, (tr ++ [RandomChoice n k]).
    assert (Np.choice_no_replace n k (World draws tr)
            = (Ok idx, World [] (tr ++ [RandomChoice n k]))) as Hc
      by (by rewrite choice_no_replace_run).
    split; [done|]. by apply choice_no_replace_Ok in Hc.
  - intros idx tr (Hlen & Hnd & Hlt).
    assert (forall x, x ∈ idx -> x ∈ seq 0 n) as Hsub.
    { intros x Hx. apply elem_of_seq.
      assert (x < n) by exact (proj1 (Forall_forall _ _) Hlt x Hx). lia. }
    assert (k <= n) as Hk.
    { rewrite <- Hlen, <- (length_seq n 0).
      by apply submseteq_length, NoDup_submseteq. }
    destruct (pick_distinct_reaches_canonical idx (seq 0 n) (tr ++ [RandomChoice n k])
                Hnd Hsub) as (draws & Hl & Hcan & Hrun).
    exists draws, (tr ++ [RandomChoice n k]). split.
    + split; [congruence|]. intros i d Hd. specialize (Hcan i d Hd).
      by rewrite length_seq in Hcan.
    + rewrite choice_no_replace_run by done. rewrite Hlen in Hrun. exact Hrun.
  - intros idx draws1 draws2 tr1 tr2 tr1' tr2' Hc1 Hc2 Hrun1 Hrun2.
    pose proof (canonical_choice_size _ _ _ Hc1) as Hk.
    destruct Hc1 as [Hl1 Hc1]. destruct Hc2 as [Hl2 Hc2].
    rewrite choice_no_replace_run in Hrun1, Hrun2 by done.
    eapply (pick_distinct_injective k (seq 0 n) draws1 draws2);
      [apply NoDup_seq | done | | done | | exact Hrun1 | exact Hrun2].
    + intros i d Hd. rewrite length_seq. by apply Hc1.
    + intros i d Hd. rewrite length_seq. by apply Hc2.
Qed.

End ChoiceFacts.

(** ** TemporalLatentDistanceReward: the positive pairs *)

Section PositivePairs.
Import TemporalLatentDistanceReward.

Lemma loop_iterations_elem (seq_len : nat) (it : nat * nat) :
  it ∈ loop_iterations seq_len <-> it.1 <= it.2 /\ it.2 < seq_len.
Proof.
  unfold loop_iterations. rewrite list_elem_of_bind. split.
  - intros (cur & Hit & Hcur).
    apply list_elem_of_bind in Hit as (goal & Hit & Hgoal).
    apply list_elem_of_singleton in Hit as ->. simpl.
    apply elem_of_seq in Hcur, Hgoal. lia.
  - intros [Hle Hlt]. exists it.1. split.
    + apply list_elem_of_bind. exists it.2. split.
      * destruct it. apply list_elem_of_singleton. done.
      * apply elem_of_seq. lia.
    + apply elem_of_seq. lia.
Qed.

Lemma loop_iterations_NoDup (seq_len : nat) : NoDup (loop_iterations seq_len).
Proof.
  unfold loop_iterations. apply NoDup_bind; [| |apply NoDup_seq].
  - intros c1 c2 it _ _ H1 H2.
    apply list_elem_of_bind in H1 as (g1 & H1 & _).
    apply list_elem_of_bind in H2 as (g2 & H2 & _).
    apply list_elem_of_singleton in H1, H2. congruence.
  - intros cur _. apply NoDup_bind; [| |apply NoDup_seq].
    + intros g1 g2 it _ _ H1 H2.
      apply list_elem_of_singleton in H1, H2. congruence.
    + intros g _. apply NoDup_singleton.
Qed.

Lemma length_block t bs : length (block t bs) = bs.
Proof. unfold block. by rewrite length_fmap, length_seq. Qed.

Lemma zip_block t t' bs :
  zip (block t bs) (block t' bs) = (fun b => ((t, b), (t', b))) <$> seq 0 bs.
Proof.
  unfold block. generalize (seq 0 bs). intros l.
  induction l as [|b l IH]; [done|]. simpl. by f_equal.
Qed.

Lemma concat_blocks_zip (l : list (nat * nat)) bs :
  zip (concat ((fun it => block it.1 bs) <$> l))
      (concat ((fun it => block it.2 bs) <$> l))
  = l ≫= (fun it => (fun b => ((it.1, b), (it.2, b))) <$> seq 0 bs)
  /\ length (concat ((fun it => block it.1 bs) <$> l))
     = length (concat ((fun it => block it.2 bs) <$> l)).
Proof.
  split.
  - induction l as [|it l IH]; [done|].
    rewrite !fmap_cons, !concat_cons, bind_cons.
    rewrite zip_with_app by (by rewrite !length_block).
    by rewrite IH, zip_block.
  - induction l as [|it l IH]; [done|].
    rewrite !fmap_cons, !concat_cons, !length_app, !length_block. by rewrite IH.
Qed.

(** The enumeration, pair by pair. *)
Lemma get_future_goal_idxs_zip seq_len bs all_cur all_goal :
  get_future_goal_idxs seq_len bs = Ok (all_cur, all_goal) ->
  zip all_cur all_goal =
    loop_iterations seq_len ≫=
      (fun it => (fun b => ((it.1, b), (it.2, b))) <$> seq 0 bs)
  /\ length all_cur = length all_goal
  /\ 0 < seq_len.
Proof.
  unfold get_future_goal_idxs.
  destruct (loop_iterations seq_len) as [|it0 its] eqn:E; [discriminate|].
  intros [= <- <-].
  destruct (concat_blocks_zip (it0 :: its) bs) as [Hzip Hlen].
  split; [exact Hzip|]. split; [exact Hlen|].
  destruct seq_len; [discriminate | lia].
Qed.

Lemma enumerated_pairs_elem seq_len bs (c g : nat * nat) :
  (c, g) ∈ (loop_iterations seq_len ≫=
              (fun it => (fun b => ((it.1, b), (it.2, b))) <$> seq 0 bs))
  <-> c.1 <= g.1 /\ g.1 < seq_len /\ c.2 = g.2 /\ c.2 < bs.
Proof.
  rewrite list_elem_of_bind. split.
  - intros (it & Hcg & Hit). apply loop_iterations_elem in Hit.
    apply list_elem_of_fmap in Hcg as (b & [= -> ->] & Hb).
    apply elem_of_seq in Hb. simpl. lia.
  - intros (Hle & Hlt & Hb & Hbs). exists (c.1, g.1). split.
    + apply list_elem_of_fmap. exists c.2. split.
      * destruct c, g; simpl in *. by subst.
      * apply elem_of_seq. lia.
    + apply loop_iterations_elem. done.
Qed.

Lemma enumerated_pairs_NoDup seq_len bs :
  NoDup (loop_iterations seq_len ≫=
           (fun it => (fun b => ((it.1, b), (it.2, b))) <$> seq 0 bs)).
Proof.
  apply NoDup_bind; [| |apply loop_iterations_NoDup].
  - intros [c1 g1] [c2 g2] p _ _ H1 H2.
    apply list_elem_of_fmap in H1 as (b1 & -> & _).
    apply list_elem_of_fmap in H2 as (b2 & [= -> _ -> _] & _). done.
  - intros it _. apply NoDup_fmap_2; [|apply NoDup_seq].
    intros b1 b2 [= ->]. done.
Qed.

Lemma get_future_goal_idxs_total seq_len bs :
  0 < seq_len ->
  exists all_cur all_goal, get_future_goal_idxs seq_len bs = Ok (all_cur, all_goal).
Proof.
  intros Hpos. unfold get_future_goal_idxs.
  destruct ((fun it => block it.1 bs) <$> loop_iterations seq_len) as [|b0 bl] eqn:E;
    [|eauto].
  apply fmap_nil_inv in E.
  assert ((0, 0) ∈ loop_iterations seq_len) as Hin
    by (apply loop_iterations_elem; simpl; lia).
  rewrite E in Hin. by apply elem_of_nil in Hin.
Qed.

Lemma time_gap_eq h (c g : nat * nat) :
  time_gap h g c = ((INR g.1 - INR c.1) / INR h)%R.
Proof. unfold time_gap. by rewrite minus_IZR, <- !INR_IZR_INZ. Qed.

Lemma time_gap_bounds h (c g : nat * nat) :
  c.1 <= g.1 -> g.1 < h -> (0 <= time_gap h g c <= 1)%R.
Proof.
  intros Hle Hlt. rewrite time_gap_eq.
  assert (0 < INR h)%R as Hh by (apply lt_0_INR; lia).
  apply le_INR in Hle. apply lt_INR in Hlt.
  assert (0 <= INR c.1)%R by apply pos_INR.
  split.
  - apply Rmult_le_pos; [lra | left; by apply Rinv_0_lt_compat].
  - apply (Rmult_le_reg_r (INR h)); [done|].
    unfold Rdiv. rewrite Rmult_assoc, Rinv_l by lra. lra.
Qed.

Lemma time_gap_monotone h b (i j k : nat) :
  j <= k -> (time_gap h (j, b) (i, b) <= time_gap h (k, b) (i, b))%R.
Proof.
  intros Hjk. rewrite !time_gap_eq. simpl.
  apply le_INR in Hjk.
  assert (0 <= / INR h)%R as Hinv.
  { destruct h; [simpl; rewrite Rinv_0; lra|].
    left. apply Rinv_0_lt_compat. apply lt_0_INR. lia. }
  unfold Rdiv. apply Rmult_le_compat_r; [done | lra].
Qed.

End PositivePairs.

Section PositiveSampling.
Import TemporalLatentDistanceReward.

Lemma sample_positives_inv horison_length batch_size num_positives w w' current_idx goal_idx :
  sample_positives horison_length batch_size num_positives w
    = (Ok (current_idx, goal_idx), w') ->
  exists all_cur all_goal idx,
    get_future_goal_idxs horison_length batch_size = Ok (all_cur, all_goal)
    /\ length idx = num_positives /\ NoDup idx
    /\ Forall2 (fun i x => all_cur !! i = Some x) idx current_idx
    /\ Forall2 (fun i x => all_goal !! i = Some x) idx goal_idx.
Proof.
  unfold sample_positives. intros Hrun.
  apply bind_Ok_inv in Hrun as ([all_cur all_goal] & w1 & Henum & Hrun).
  apply lift_Ok_inv in Henum as [Henum ->].
  apply bind_Ok_inv in Hrun as (idx & w2 & Hidx & Hrun).
  apply bind_Ok_inv in Hrun as (cur & w3 & Hcur & Hrun).
  apply lift_Ok_inv in Hcur as [Hcur ->].
  apply bind_Ok_inv in Hrun as (goal & w4 & Hgoal & Hrun).
  apply lift_Ok_inv in Hgoal as [Hgoal ->].
  injection Hrun as <- <- <-.
  apply choice_no_replace_Ok in Hidx as (Hlen & Hnd & _).
  exists all_cur, all_goal, idx.
  by rewrite <- !take_rows_Ok.
Qed.

Lemma sample_positives_total horison_length batch_size num_positives w :
  0 < horison_length ->
  (forall all_cur all_goal,
      get_future_goal_idxs horison_length batch_size = Ok (all_cur, all_goal) ->
      num_positives <= length all_cur) ->
  exists current_idx goal_idx w',
    sample_positives horison_length batch_size num_positives w
      = (Ok (current_idx, goal_idx), w').
Proof.
  intros Hpos Hk.
  destruct (get_future_goal_idxs_total horison_length batch_size Hpos)
    as (all_cur & all_goal & Henum).
  specialize (Hk _ _ Henum).
  destruct (get_future_goal_idxs_zip _ _ _ _ Henum) as (_ & Hlens & _).
  destruct (choice_no_replace_total (length all_cur) num_positives w Hk)
    as (idx & w1 & Hidx & _).
  destruct (choice_no_replace_Ok _ _ _ _ _ Hidx) as (_ & _ & Hlt).
  destruct (take_rows_total all_cur idx Hlt) as (cur & Hcur).
  destruct (take_rows_total all_goal idx) as (goal & Hgoal).
  { by rewrite <- Hlens. }
  exists cur, goal, w1. unfold sample_positives.
  erewrite bind_Ok_intro by (unfold lift; by rewrite Henum).
  cbn beta iota.
  rewrite (bind_Ok_intro _ _ _ _ _ Hidx).
  erewrite bind_Ok_intro by (unfold lift; by rewrite Hcur).
  erewrite bind_Ok_intro by (unfold lift; by rewrite Hgoal).
  done.
Qed.

Lemma selected_pairs_NoDup {A B} (xs : list A) (ys : list B) idx sx sy :
  NoDup (zip xs ys) -> NoDup idx ->
  Forall2 (fun i x => xs !! i = Some x) idx sx ->
  Forall2 (fun i y => ys !! i = Some y) idx sy ->
  NoDup (zip sx sy) /\ (forall p, p ∈ zip sx sy -> p ∈ zip xs ys).
Proof.
  intros Hall Hidx Hx Hy.
  assert (forall n p, zip sx sy !! n = Some p ->
            exists i, idx !! n = Some i /\ zip xs ys !! i = Some p) as Hsel.
  { intros n p Hp.
    apply lookup_zip_with_Some in Hp as (x & y & -> & Hsx & Hsy).
    destruct (Forall2_lookup_r _ _ _ _ _ Hx Hsx) as (i & Hi & Hxi).
    destruct (Forall2_lookup_r _ _ _ _ _ Hy Hsy) as (i' & Hi' & Hyi).
    assert (i' = i) as -> by congruence.
    exists i. split; [done|].
    apply lookup_zip_with_Some. eauto. }
  split.
  - apply NoDup_alt. intros n m p Hn Hm.
    destruct (Hsel _ _ Hn) as (i & Hi & Hpi).
    destruct (Hsel _ _ Hm) as (j & Hj & Hpj).
    assert (i = j) as -> by exact (proj1 (NoDup_alt _) Hall i j p Hpi Hpj).
    exact (proj1 (NoDup_alt _) Hidx n m j Hi Hj).
  - intros p Hp. apply list_elem_of_lookup in Hp as [n Hn].
    destruct (Hsel _ _ Hn) as (i & _ & Hpi).
    by eapply list_elem_of_lookup_2.
Qed.

Lemma sample_positives_choice horison_length batch_size num_positives w w'
    current_idx goal_idx :
  sample_positives horison_length batch_size num_positives w
    = (Ok (current_idx, goal_idx), w') ->
  exists all_cur all_goal idx,
    get_future_goal_idxs horison_length batch_size = Ok (all_cur, all_goal)
    /\ Np.choice_no_replace (length all_cur) num_positives w = (Ok idx, w')
    /\ Forall2 (fun i x => all_cur !! i = Some x) idx current_idx
    /\ Forall2 (fun i x => all_goal !! i = Some x) idx goal_idx.
Proof.
  unfold sample_positives. intros Hrun.
  apply bind_Ok_inv in Hrun as ([all_cur all_goal] & w1 & Henum & Hrun).
  apply lift_Ok_inv in Henum as [Henum ->].
  apply bind_Ok_inv in Hrun as (idx & w2 & Hidx & Hrun).
  apply bind_Ok_inv in Hrun as (cur & w3 & Hcur & Hrun).
  apply lift_Ok_inv in Hcur as [Hcur ->].
  apply bind_Ok_inv in Hrun as (goal & w4 & Hgoal & Hrun).
  apply lift_Ok_inv in Hgoal as [Hgoal ->].
  injection Hrun as <- <- <-.
  exists all_cur, all_goal, idx.
  by rewrite <- !take_rows_Ok.
Qed.

(** What the enumeration and a selection from it look like. *)
Lemma positive_pairs_structure horison_length batch_size
    (all_cur all_goal : list (nat * nat)) (idx : list nat)
    (current_idx goal_idx : list (nat * nat)) :
  get_future_goal_idxs horison_length batch_size = Ok (all_cur, all_goal) ->
  NoDup idx ->
  Forall2 (fun i x => all_cur !! i = Some x) idx current_idx ->
  Forall2 (fun i x => all_goal !! i = Some x) idx goal_idx ->
  NoDup (zip all_cur all_goal)
  /\ (forall c g : nat * nat,
        (c, g) ∈ zip all_cur all_goal <->
        c.1 <= g.1 /\ g.1 < horison_length /\ c.2 = g.2 /\ c.2 < batch_size)
  /\ NoDup (zip current_idx goal_idx)
  /\ (forall p, p ∈ zip current_idx goal_idx -> p ∈ zip all_cur all_goal)
  /\ (forall n (c g : nat * nat),
        current_idx !! n = Some c -> goal_idx !! n = Some g ->
        positive_target horison_length current_idx goal_idx !! n
          = Some ((INR g.1 - INR c.1) / INR horison_length)%R
        /\ (0 <= (INR g.1 - INR c.1) / INR horison_length <= 1)%R).
Proof.
  intros Henum Hnd Hcur Hgoal.
  destruct (get_future_goal_idxs_zip _ _ _ _ Henum) as (Hzip & Hlens & Hpos).
  assert (NoDup (zip all_cur all_goal)) as Hall
    by (rewrite Hzip; apply enumerated_pairs_NoDup).
  destruct (selected_pairs_NoDup _ _ _ _ _ Hall Hnd Hcur Hgoal) as [Hsnd Hsub].
  split; [done|]. split.
  { intros c g. rewrite Hzip. apply enumerated_pairs_elem. }
  split; [done|]. split; [done|].
  intros n c g Hc Hg.
  assert ((c, g) ∈ zip all_cur all_goal) as Hin.
  { apply Hsub. apply (list_elem_of_lookup_2 _ n).
    apply lookup_zip_with_Some. eauto. }
  rewrite Hzip in Hin. apply enumerated_pairs_elem in Hin as (Hle & Hlt & _ & _).
  split.
  - unfold positive_target. apply lookup_zip_with_Some.
    exists g, c. by rewrite time_gap_eq.
  - rewrite <- time_gap_eq. by apply time_gap_bounds.
Qed.

End PositiveSampling.

(** ** TemporalLatentDistanceReward: the negative pairs *)

Section NegativeSampling.
Import TemporalLatentDistanceReward.

Lemma for_each_Ok {A B} (P : B -> Prop) (body : A -> M B) xs w ys w' :
  (forall x w r w', body x w = (Ok r, w') -> P r) ->
  for_each xs body w = (Ok ys, w') ->
  length ys = length xs /\ Forall P ys.
Proof.
  intros Hbody. revert w ys w'.
  induction xs as [|x xs IH]; intros w ys w'; simpl.
  - intros [= <- <-]. by split.
  - intros Hrun.
    apply (bind_Ok_inv (body x)) in Hrun as (y & w1 & Hy & Hrun).
    apply (bind_Ok_inv (for_each xs body)) in Hrun as (ys' & w2 & Hys & [= <- <-]).
    destruct (IH _ _ _ Hys) as [Hlen HP].
    split; [simpl; by rewrite Hlen|].
    constructor; [by eapply Hbody | done].
Qed.

Lemma for_each_total {A B} (body : A -> M B) xs w :
  (forall x w, exists r w', body x w = (Ok r, w') /\ trace w' = trace w) ->
  exists ys w', for_each xs body w = (Ok ys, w')
                /\ trace w' = trace w /\ length ys = length xs.
Proof.
  intros Hbody. revert w.
  induction xs as [|x xs IH]; intros w; simpl.
  - by exists [], w.
  - destruct (Hbody x w) as (y & w1 & Hy & Ht1).
    destruct (IH w1) as (ys & w2 & Hys & Ht2 & Hlen).
    exists (y :: ys), w2.
    unfold Py.bind at 1. rewrite Hy.
    unfold Py.bind at 1. rewrite Hys.
    split; [done|]. split; [congruence | simpl; by rewrite Hlen].
Qed.

Lemma randint_pairs_Ok rows seq_len bs w l w' :
  Np.randint_pairs rows seq_len bs w = (Ok l, w') ->
  (0 <= rows)%Z /\ length l = Z.to_nat rows
  /\ Forall (fun p : nat * nat => p.1 < seq_len /\ p.2 < bs) l.
Proof.
  unfold Np.randint_pairs. intros Hrun.
  apply bind_Ok_inv in Hrun as (? & w1 & _ & Hrun).
  destruct (decide (rows < 0)%Z); [discriminate|].
  destruct (decide (rows = 0)%Z) as [->|].
  { injection Hrun as <- <-. split; [lia|]. by split. }
  destruct (decide (seq_len = 0 \/ bs = 0)); [discriminate|].
  apply (for_each_Ok (fun p : nat * nat => p.1 < seq_len /\ p.2 < bs)) in Hrun
    as [Hlen HP].
  - rewrite length_seq in Hlen. split; [lia|]. by split.
  - intros _ w2 r w3 Hbody.
    apply bind_Ok_inv in Hbody as (t & w4 & _ & Hbody).
    apply bind_Ok_inv in Hbody as (b & w5 & _ & [= <- <-]).
    simpl. split; apply Nat.mod_upper_bound; lia.
Qed.

Lemma randint_pairs_total rows seq_len bs w :
  (0 <= rows)%Z -> 0 < seq_len -> 0 < bs ->
  exists l w', Np.randint_pairs rows seq_len bs w = (Ok l, w')
               /\ trace w' = trace w ++ [RandomRandint rows]
               /\ length l = Z.to_nat rows.
Proof.
  intros Hrows Hseq Hbs. unfold Np.randint_pairs.
  erewrite bind_Ok_intro by reflexivity.
  destruct (decide (rows < 0)%Z); [lia|].
  destruct (decide (rows = 0)%Z) as [->|]; [by eexists _, _|].
  destruct (decide (seq_len = 0 \/ bs = 0)); [lia|].
  edestruct (for_each_total
               (fun _ : nat => t ← draw; b ← draw; mret (t mod seq_len, b mod bs))
               (seq 0 (Z.to_nat rows))) as (l & w' & Hrun & Ht & Hlen).
  - intros _ w0.
    destruct (draw_Ok w0) as (t & w1 & Ht & Htr1).
    destruct (draw_Ok w1) as (b & w2 & Hb & Htr2).
    exists (t mod seq_len, b mod bs), w2.
    rewrite (bind_Ok_intro _ _ _ _ _ Ht), (bind_Ok_intro _ _ _ _ _ Hb).
    split; [done | congruence].
  - exists l, w'. split; [exact Hrun|]. split; [done|].
    by rewrite Hlen, length_seq.
Qed.

Lemma randint_rows_canonical (l : list (nat * nat)) seq_len bs (xs : list nat) rest tr :
  length xs = length l ->
  Forall (fun p : nat * nat => p.1 < seq_len /\ p.2 < bs) l ->
  for_each xs (fun _ => t ← draw; b ← draw; mret (t mod seq_len, b mod bs))
    (World ((l ≫= fun p => [p.1; p.2]) ++ rest) tr)
  = (Ok l, World rest tr).
Proof.
  revert xs. induction l as [|[t b] l IH]; intros xs Hlen Hin.
  - by destruct xs.
  - destruct xs as [|x xs]; [done|].
    apply Forall_cons in Hin as [[Ht Hb] Hin]. simpl in Ht, Hb.
    cbn [for_each]. rewrite bind_cons. cbn [fst snd app].
    unfold Py.bind at 1.
    rewrite (bind_Ok_intro _ _ _ _ _ (draw_cons t _ tr)).
    rewrite (bind_Ok_intro _ _ _ _ _ (draw_cons b _ tr)).
    cbn [mret M_ret Py.ret]. rewrite !Nat.mod_small by done.
    unfold Py.bind at 1. rewrite IH by (simpl in Hlen; lia || done). done.
Qed.

Lemma randint_pairs_canonical rows seq_len bs (l : list (nat * nat)) tr :
  (0 <= rows)%Z -> length l = Z.to_nat rows ->
  Forall (fun p : nat * nat => p.1 < seq_len /\ p.2 < bs) l ->
  Np.randint_pairs rows seq_len bs (World (l ≫= fun p => [p.1; p.2]) tr)
  = (Ok l, World [] (tr ++ [RandomRandint rows])).
Proof.
  intros Hrows Hlen Hin. unfold Np.randint_pairs.
  erewrite bind_Ok_intro by reflexivity.
  destruct (decide (rows < 0)%Z); [lia|].
  destruct (decide (rows = 0)%Z) as [->|Hne].
  { destruct l; [done|]. simpl in Hlen. lia. }
  destruct l as [|[t b] l]; [simpl in Hlen; lia|].
  pose proof (proj1 (Forall_cons _ _ _) Hin) as [[Ht Hb] _]. simpl in Ht, Hb.
  destruct (decide (seq_len = 0 \/ bs = 0)); [lia|].
  cbn [entropy trace].
  rewrite <- (app_nil_r (_ ≫= _)).
  apply randint_rows_canonical; [|done]. by rewrite length_seq.
Qed.

(** [np.random.randint((0,0), (seq_len, bs), size=(rows, 2))] is
    uniform over the arrays of [rows] pairs of a time index below
    [seq_len] and a batch index below [bs]. *)
Lemma randint_pairs_uniform (rows : Z) (seq_len bs : nat) :
  (0 <= rows)%Z ->
  uniform_over (Np.randint_pairs rows seq_len bs) (Np.canonical_randint rows seq_len bs)
    (fun l => length l = Z.to_nat rows
              /\ Forall (fun p : nat * nat => p.1 < seq_len /\ p.2 < bs) l).
Proof.
  intros Hrows. split; [|split].
  - intros draws tr (l & -> & Hlen & Hin).
    exists l, (tr ++ [RandomRandint rows]).
    split; [by apply randint_pairs_canonical | done].
  - intros l tr [Hlen Hin].
    exists (l ≫= fun p => [p.1; p.2]), (tr ++ [RandomRandint rows]).
    split; [by exists l | by apply randint_pairs_canonical].
  - intros a draws1 draws2 tr1 tr2 tr1' tr2'
      (l1 & -> & Hlen1 & Hin1) (l2 & -> & Hlen2 & Hin2) Hrun1 Hrun2.
    rewrite randint_pairs_canonical in Hrun1, Hrun2 by done.
    congruence.
Qed.

Lemma choice1_Ok cands w x w' :
  Np.choice1 cands w = (Ok x, w') -> x ∈ cands.
Proof.
  unfold Np.choice1. intros Hrun.
  apply bind_Ok_inv in Hrun as (? & w1 & _ & Hrun).
  destruct cands as [|c0 cands]; [discriminate|].
  apply bind_Ok_inv in Hrun as (r & w2 & _ & Hret).
  apply (ret_Ok_inv (nth _ _ _)) in Hret as [-> ->].
  apply list_elem_of_In.
  apply (nth_In (c0 :: cands) c0). apply Nat.mod_upper_bound. done.
Qed.

Lemma choice1_empty w :
  Np.choice1 [] w
  = (Raise (ValueError Np.msg_empty_population),
     World (entropy w) (trace w ++ [RandomChoice1 []])).
Proof. done. Qed.

(** [np.random.choice(cands)] is uniform over a list without
    repetitions. *)
Lemma choice1_uniform (cands : list nat) :
  NoDup cands ->
  uniform_over (Np.choice1 cands) (Np.canonical_choice1 cands) (fun x => x ∈ cands).
Proof.
  intros Hnd.
  assert (forall r tr x0, r < length cands ->
            Np.choice1 cands (World [r] tr)
            = (Ok (nth r cands x0), World [] (tr ++ [RandomChoice1 cands]))) as Hrun.
  { intros r tr x0 Hr. unfold Np.choice1.
    erewrite bind_Ok_intro by reflexivity.
    destruct cands as [|c0 cands]; [simpl in Hr; lia|].
    cbn [entropy trace].
    rewrite (bind_Ok_intro _ _ _ _ _ (draw_cons r [] _)).
    rewrite Nat.mod_small by done. cbn [mret M_ret Py.ret].
    by rewrite (nth_indep _ c0 x0 Hr). }
  split; [|split].
  - intros draws tr (r & -> & Hr).
    exists (nth r cands 0), (tr ++ [RandomChoice1 cands]).
    split; [by apply Hrun|]. apply list_elem_of_In. by apply nth_In.
  - intros x tr [i Hi]%list_elem_of_lookup.
    pose proof (lookup_lt_Some _ _ _ Hi) as Hlt.
    exists [i], (tr ++ [RandomChoice1 cands]). split; [by exists i|].
    rewrite (Hrun i tr 0 Hlt). by rewrite (nth_lookup_Some _ _ _ _ Hi).
  - intros x draws1 draws2 tr1 tr2 tr1' tr2' (r1 & -> & Hr1) (r2 & -> & Hr2) Hrun1 Hrun2.
    rewrite (Hrun r1 tr1 0 Hr1) in Hrun1. rewrite (Hrun r2 tr2 0 Hr2) in Hrun2.
    injection Hrun1 as Hx1 _. injection Hrun2 as Hx2 _.
    f_equal. apply (proj1 (NoDup_alt _) Hnd r1 r2 x).
    + rewrite <- Hx1. by destruct (nth_lookup_or_length cands r1 0) as [?|?]; [|lia].
    + rewrite <- Hx2. by destruct (nth_lookup_or_length cands r2 0) as [?|?]; [|lia].
Qed.

Lemma other_episode_candidates_Ok batch_length bs c cands :
  other_episode_candidates batch_length bs c = Ok cands ->
  forall j, j ∈ cands -> j < bs /\ j / batch_length <> c / batch_length.
Proof.
  unfold other_episode_candidates.
  destruct (decide (bs = 0)).
  { intros [= <-] j Hj. by apply elem_of_nil in Hj. }
  destruct (decide (batch_length = 0)); [discriminate|].
  intros [= <-] j [Hne Hj%elem_of_seq]%list_elem_of_filter. split; [lia | done].
Qed.

Lemma resample_goals_Ok batch_length bs ixs cur_idxs goal_idxs w goal' w' :
  resample_goals batch_length bs ixs cur_idxs goal_idxs w = (Ok goal', w') ->
  NoDup ixs ->
  length goal' = length goal_idxs
  /\ (forall i, i ∈ ixs ->
        exists c g g', cur_idxs !! i = Some c /\ goal_idxs !! i = Some g
                       /\ goal' !! i = Some g' /\ g'.1 = g.1 /\ g'.2 < bs
                       /\ g'.2 / batch_length <> c.2 / batch_length)
  /\ (forall i, i ∉ ixs -> goal' !! i = goal_idxs !! i).
Proof.
  revert goal_idxs w. induction ixs as [|i ixs IH]; intros goal_idxs w; simpl.
  - intros [= <- <-] _. split; [done|]. split; [|done].
    intros i Hi. by apply elem_of_nil in Hi.
  - intros Hrun [Hi Hnd]%NoDup_cons.
    destruct (cur_idxs !! i) as [c|] eqn:Hc; [|discriminate].
    destruct (goal_idxs !! i) as [g|] eqn:Hg; [|discriminate].
    apply bind_Ok_inv in Hrun as (cands & w1 & Hcands & Hrun).
    apply lift_Ok_inv in Hcands as [Hcands ->].
    apply bind_Ok_inv in Hrun as (j & w2 & Hj & Hrun).
    apply choice1_Ok in Hj.
    destruct (other_episode_candidates_Ok _ _ _ _ Hcands j Hj) as [Hjbs Hjq].
    destruct (IH _ _ Hrun Hnd) as (Hlen & Hin & Hout).
    rewrite length_insert in Hlen.
    split; [done|]. split.
    + intros i' [->|Hi']%elem_of_cons.
      * exists c, g, (g.1, j). rewrite (Hout i Hi).
        rewrite list_lookup_insert_eq by (by eapply lookup_lt_Some). done.
      * destruct (Hin i' Hi') as (c' & g0 & g' & Hc' & Hg0 & Hg' & H1 & H2 & H3).
        assert (i <> i') as Hne by (intros ->; done).
        rewrite list_lookup_insert_ne in Hg0 by done.
        exists c', g0, g'. done.
    + intros i' Hi'%not_elem_of_cons. destruct Hi' as [Hne Hi'].
      rewrite (Hout i' Hi'). by rewrite list_lookup_insert_ne.
Qed.

Lemma neg_sampling_Ok batch_length num_negs seq_len bs w cur_idxs goal_idxs w' :
  get_future_goal_idxs_neg_sampling batch_length num_negs seq_len bs w
    = (Ok (cur_idxs, goal_idxs), w') ->
  (0 <= num_negs)%Z
  /\ length cur_idxs = Z.to_nat num_negs
  /\ length goal_idxs = Z.to_nat num_negs
  /\ (forall i (c g : nat * nat),
        cur_idxs !! i = Some c -> goal_idxs !! i = Some g ->
        c.1 < seq_len /\ c.2 < bs /\ g.1 < seq_len /\ g.2 < bs
        /\ g.2 / batch_length <> c.2 / batch_length).
Proof.
  unfold get_future_goal_idxs_neg_sampling. intros Hrun.
  apply bind_Ok_inv in Hrun as (cur & w1 & Hcur & Hrun).
  apply bind_Ok_inv in Hrun as (goal0 & w2 & Hgoal0 & Hrun).
  apply bind_Ok_inv in Hrun as (goal & w3 & Hgoal & [= <- <- <-]).
  apply randint_pairs_Ok in Hcur as (Hrows & Hlc & Hfc).
  apply randint_pairs_Ok in Hgoal0 as (_ & Hlg & Hfg).
  apply resample_goals_Ok in Hgoal as (Hlen & Hin & _); [|apply NoDup_seq].
  split; [done|]. split; [done|]. split; [congruence|].
  intros i c g Hc Hg.
  assert (i ∈ seq 0 (Z.to_nat num_negs)) as Hi.
  { apply elem_of_seq. apply lookup_lt_Some in Hc. lia. }
  destruct (Hin i Hi) as (c' & g0 & g' & Hc' & Hg0 & Hg' & H1 & H2 & H3).
  assert (c' = c) as -> by congruence.
  assert (g' = g) as -> by congruence.
  pose proof (proj1 (Forall_lookup _ _) Hfc _ _ Hc) as [? ?].
  pose proof (proj1 (Forall_lookup _ _) Hfg _ _ Hg0) as [? ?].
  repeat split; try done. lia.
Qed.

Lemma other_episode_candidates_elem batch_length bs c cands :
  other_episode_candidates batch_length bs c = Ok cands ->
  NoDup cands
  /\ forall j, j ∈ cands <-> j < bs /\ j / batch_length <> c / batch_length.
Proof.
  unfold other_episode_candidates.
  destruct (decide (bs = 0)) as [->|].
  { intros [= <-]. split; [constructor|]. intros j. split; [by intros ?%elem_of_nil | lia]. }
  destruct (decide (batch_length = 0)); [discriminate|].
  intros [= <-]. split; [apply NoDup_filter, NoDup_seq|].
  intros j. rewrite list_elem_of_filter, elem_of_seq. split; [intros [? ?] | intros [? ?]];
    (split; [lia || done | lia || done]).
Qed.

(** Every goal column comes out of a [np.random.choice] over the
    columns of the other episodes. *)
Lemma resample_goals_choices batch_length bs ixs cur_idxs goal_idxs w goal' w' :
  resample_goals batch_length bs ixs cur_idxs goal_idxs w = (Ok goal', w') ->
  NoDup ixs ->
  (forall i, i ∈ ixs ->
     exists c g g' cands u u',
       cur_idxs !! i = Some c /\ goal_idxs !! i = Some g /\ goal' !! i = Some g'
       /\ g'.1 = g.1
       /\ other_episode_candidates batch_length bs c.2 = Ok cands
       /\ Np.choice1 cands u = (Ok g'.2, u'))
  /\ (forall i, i ∉ ixs -> goal' !! i = goal_idxs !! i).
Proof.
  revert goal_idxs w. induction ixs as [|i ixs IH]; intros goal_idxs w; simpl.
  - intros [= <- <-] _. split; [|done].
    intros i Hi. by apply elem_of_nil in Hi.
  - intros Hrun [Hi Hnd]%NoDup_cons.
    destruct (cur_idxs !! i) as [c|] eqn:Hc; [|discriminate].
    destruct (goal_idxs !! i) as [g|] eqn:Hg; [|discriminate].
    apply bind_Ok_inv in Hrun as (cands & w1 & Hcands & Hrun).
    apply lift_Ok_inv in Hcands as [Hcands ->].
    apply bind_Ok_inv in Hrun as (j & w2 & Hj & Hrun).
    destruct (IH _ _ Hrun Hnd) as (Hin & Hout).
    split.
    + intros i' [->|Hi']%elem_of_cons.
      * exists c, g, (g.1, j), cands, w, w2. rewrite (Hout i Hi).
        rewrite list_lookup_insert_eq by (by eapply lookup_lt_Some). done.
      * destruct (Hin i' Hi') as (c' & g0 & g' & cands' & u & u' & Hc' & Hg0 & Hg' & H1 & H2 & H3).
        assert (i <> i') as Hne by (intros ->; done).
        rewrite list_lookup_insert_ne in Hg0 by done.
        exists c', g0, g', cands', u, u'. done.
    + intros i' Hi'%not_elem_of_cons. destruct Hi' as [Hne Hi'].
      rewrite (Hout i' Hi'). by rewrite list_lookup_insert_ne.
Qed.

Lemma neg_sampling_draws batch_length num_negs seq_len bs w cur_idxs goal_idxs w' :
  get_future_goal_idxs_neg_sampling batch_length num_negs seq_len bs w
    = (Ok (cur_idxs, goal_idxs), w') ->
  exists w1 goal0 w2,
    Np.randint_pairs num_negs seq_len bs w = (Ok cur_idxs, w1)
    /\ Np.randint_pairs num_negs seq_len bs w1 = (Ok goal0, w2)
    /\ (forall i (c g : nat * nat),
          cur_idxs !! i = Some c -> goal_idxs !! i = Some g ->
          exists g0 cands u u',
            goal0 !! i = Some g0 /\ g.1 = g0.1
            /\ other_episode_candidates batch_length bs c.2 = Ok cands
            /\ Np.choice1 cands u = (Ok g.2, u')).
Proof.
  unfold get_future_goal_idxs_neg_sampling. intros Hrun.
  apply bind_Ok_inv in Hrun as (cur & w1 & Hcur & Hrun).
  apply bind_Ok_inv in Hrun as (goal0 & w2 & Hgoal0 & Hrun).
  apply bind_Ok_inv in Hrun as (goal & w3 & Hgoal & [= <- <- <-]).
  exists w1, goal0, w2. split; [done|]. split; [done|].
  apply randint_pairs_Ok in Hcur as (Hrows & Hlc & _).
  apply resample_goals_choices in Hgoal as (Hin & _); [|apply NoDup_seq].
  intros i c g Hc Hg.
  assert (i ∈ seq 0 (Z.to_nat num_negs)) as Hi.
  { apply elem_of_seq. apply lookup_lt_Some in Hc. lia. }
  destruct (Hin i Hi) as (c' & g0 & g' & cands & u & u' & Hc' & Hg0 & Hg' & H1 & H2 & H3).
  assert (c' = c) as -> by congruence.
  assert (g' = g) as -> by congruence.
  by exists g0, cands, u, u'.
Qed.

End NegativeSampling.

(** ** TemporalLatentDistanceReward.train *)

Section TemporalTrain.
Import TemporalLatentDistanceReward.
Context {NN : Networks}.

Lemma regression_loss_run zs hs current_idx goal_idx target w :
  regression_loss zs hs current_idx goal_idx target w =
    match predicted_distance zs hs current_idx goal_idx with
    | Ok pred =>
        (Torch.mse_loss pred target,
         World (entropy w) (((trace w ++ [Forward "state2emb"])
                               ++ [Forward "state2emb"])
                               ++ [Forward "distance_estimator"]))
    | Raise e => (Raise e, w)
    end.
Proof.
  unfold regression_loss, predicted_distance.
  unfold mbind, M_bind, outcome_bind, Py.bind, Py.obind, lift.
  destruct (Torch.index2 zs current_idx); [|done].
  destruct (Torch.index2 hs current_idx); [|done].
  destruct (Torch.index2 zs goal_idx); [|done].
  destruct (Torch.index2 hs goal_idx); [|done].
  done.
Qed.

Lemma regression_loss_Ok zs hs current_idx goal_idx target w loss w' :
  regression_loss zs hs current_idx goal_idx target w = (Ok loss, w') ->
  exists pred,
    predicted_distance zs hs current_idx goal_idx = Ok pred
    /\ Torch.mse_loss pred target = Ok loss
    /\ trace w' = trace w ++ regression_events.
Proof.
  rewrite regression_loss_run.
  destruct (predicted_distance zs hs current_idx goal_idx) as [pred|e]; [|discriminate].
  intros [= Hmse <-]. exists pred. split; [done|]. split; [done|].
  simpl. by rewrite <- !app_assoc.
Qed.

Lemma num_negatives_of_inv (num_positives : nat) (neg_sampling_factor : number)
    (num_negatives : Z) :
  num_negatives_of num_positives neg_sampling_factor = Ok num_negatives ->
  exists product,
    Py.mul_int (Z.of_nat num_positives) neg_sampling_factor = Ok product
    /\ Py.to_int product = Ok num_negatives.
Proof.
  unfold num_negatives_of. cbn [mbind outcome_bind obind].
  destruct (Py.mul_int _ _) as [product|e]; [|discriminate].
  intros Hint. by exists product.
Qed.

(** The steps of a call of [train] that returns. *)
Lemma train_Ok_inv zs hs num_positives neg_sampling_factor
    horison_length batch_size batch_length w loss w' :
  train zs hs num_positives neg_sampling_factor
        horison_length batch_size batch_length w = (Ok loss, w') ->
  exists (pos_cur pos_goal : list (nat * nat)) (w1 : world) (pred_pos : list R)
         (loss_pos : Torch.scalar) (w2 : world) (num_negatives : Z)
         (neg_cur neg_goal : list (nat * nat)) (w3 : world) (pred_neg : list R)
         (loss_neg : Torch.scalar),
    sample_positives horison_length batch_size num_positives w
      = (Ok (pos_cur, pos_goal), w1)
    /\ predicted_distance zs hs pos_cur pos_goal = Ok pred_pos
    /\ Torch.mse_loss pred_pos (positive_target horison_length pos_cur pos_goal)
       = Ok loss_pos
    /\ positive_step zs hs num_positives horison_length batch_size w = (Ok loss_pos, w2)
    /\ num_negatives_of num_positives neg_sampling_factor = Ok num_negatives
    /\ get_future_goal_idxs_neg_sampling batch_length num_negatives
         horison_length batch_size w2 = (Ok (neg_cur, neg_goal), w3)
    /\ predicted_distance zs hs neg_cur neg_goal = Ok pred_neg
    /\ Torch.mse_loss pred_neg (negative_target num_negatives) = Ok loss_neg
    /\ loss = Torch.add loss_pos loss_neg.
Proof.
  intros Hrun. unfold train in Hrun.
  apply bind_Ok_inv in Hrun as (loss_pos & w2 & Hpos & Hrun).
  apply bind_Ok_inv in Hrun as (num_negatives & w2' & Hcount & Hrun).
  apply lift_Ok_inv in Hcount as [Hcount ->].
  apply bind_Ok_inv in Hrun as (loss_neg & w4 & Hneg & Hret).
  apply (ret_Ok_inv (Torch.add loss_pos loss_neg)) in Hret as [-> ->].
  pose proof Hpos as Hstep. unfold positive_step in Hpos.
  apply bind_Ok_inv in Hpos as ([pos_cur pos_goal] & w1 & Hsp & Hpos).
  apply regression_loss_Ok in Hpos as (pred_pos & Hpp & Hmp & _).
  unfold negative_step in Hneg.
  apply bind_Ok_inv in Hneg as ([neg_cur neg_goal] & w3 & Hsn & Hneg).
  apply regression_loss_Ok in Hneg as (pred_neg & Hpn & Hmn & _).
  by exists pos_cur, pos_goal, w1, pred_pos, loss_pos, w2, num_negatives,
            neg_cur, neg_goal, w3, pred_neg, loss_neg.
Qed.

(** C1. When [train] returns, it has enumerated every pair (time i,
    column b), (time j, column b) with i <= j below [horison_length] and
    b below [batch_size], each once; it has drawn [num_positives]
    positions of the enumeration with one call of
    [np.random.choice(..., replace=False)], which is uniform over the
    ordered selections of that many distinct positions; the pairs at the
    drawn positions are the positive pairs, and the loss it returns is
    the mean-squared error of the estimator's prediction for these
    pairs against their labels, plus the loss of the negative pairs.
    The label of a pair is (goal time - current time) / horison_length,
    which lies in [0, 1]; and for i <= j <= k the label of (i, k) is
    (k - i) / horison_length and is at least the label of (i, j). *)
Theorem positive_pairs_enumerated_sampled_labelled
    (zs : list (list Zrow)) (hs : list (list Hrow))
    (num_positives : nat) (neg_sampling_factor : number)
    (horison_length batch_size batch_length : nat)
    (w w' : world) (loss : Torch.scalar) :
  train zs hs num_positives neg_sampling_factor
        horison_length batch_size batch_length w = (Ok loss, w') ->
  exists (all_cur all_goal : list (nat * nat)) (idx : list nat)
         (current_idx goal_idx : list (nat * nat)) (w1 : world)
         (pred : list R) (loss_pos loss_neg : Torch.scalar),
    get_future_goal_idxs horison_length batch_size = Ok (all_cur, all_goal)
    /\ NoDup (zip all_cur all_goal)
    /\ (forall c g : nat * nat,
          (c, g) ∈ zip all_cur all_goal <->
          c.1 <= g.1 /\ g.1 < horison_length /\ c.2 = g.2 /\ c.2 < batch_size)
    /\ Np.choice_no_replace (length all_cur) num_positives w = (Ok idx, w1)
    /\ uniform_over (Np.choice_no_replace (length all_cur) num_positives)
         (Np.canonical_choice (length all_cur) num_positives)
         (fun s => length s = num_positives /\ NoDup s
                   /\ Forall (fun i => i < length all_cur) s)
    /\ length idx = num_positives /\ NoDup idx
    /\ Forall2 (fun i c => all_cur !! i = Some c) idx current_idx
    /\ Forall2 (fun i g => all_goal !! i = Some g) idx goal_idx
    /\ NoDup (zip current_idx goal_idx)
    /\ (forall p, p ∈ zip current_idx goal_idx -> p ∈ zip all_cur all_goal)
    /\ predicted_distance zs hs current_idx goal_idx = Ok pred
    /\ Torch.mse_loss pred (positive_target horison_length current_idx goal_idx)
       = Ok loss_pos
    /\ loss = Torch.add loss_pos loss_neg
    /\ (forall n (c g : nat * nat),
          current_idx !! n = Some c -> goal_idx !! n = Some g ->
          positive_target horison_length current_idx goal_idx !! n
            = Some ((INR g.1 - INR c.1) / INR horison_length)%R
          /\ (0 <= (INR g.1 - INR c.1) / INR horison_length <= 1)%R)
    /\ (forall b i j k : nat,
          i <= j -> j <= k ->
          time_gap horison_length (k, b) (i, b)
            = ((INR k - INR i) / INR horison_length)%R
          /\ (time_gap horison_length (j, b) (i, b)
              <= time_gap horison_length (k, b) (i, b))%R).
Proof.
  intros (current_idx & goal_idx & w1 & pred & loss_pos & w2 & num_negatives
          & neg_cur & neg_goal & w3 & pred_neg & loss_neg
          & Hsp & Hpred & Hmse & _ & _ & _ & _ & _ & ->)%train_Ok_inv.
  apply sample_positives_choice in Hsp as (all_cur & all_goal & idx & Henum & Hidx & Hcur & Hgoal).
  destruct (choice_no_replace_Ok _ _ _ _ _ Hidx) as (Hlen & Hnd & _).
  destruct (positive_pairs_structure _ _ _ _ _ _ _ Henum Hnd Hcur Hgoal)
    as (Hall & Helem & Hsel & Hsub & Hlabel).
  exists all_cur, all_goal, idx, current_idx, goal_idx, w1, pred, loss_pos, loss_neg.
  split; [done|]. split; [done|]. split; [done|]. split; [done|].
  split; [apply choice_no_replace_uniform|].
  split; [done|]. split; [done|]. split; [done|]. split; [done|].
  split; [done|]. split; [done|]. split; [done|]. split; [done|].
  split; [done|]. split; [done|].
  intros b i j k Hij Hjk. split.
  - by rewrite time_gap_eq.
  - by apply time_gap_monotone.
Qed.

(** C2. When [train] returns, the number of negative pairs is
    [int(num_positives * neg_sampling_factor)], the product being the
    exact one for an int factor and the rounded binary64 product for a
    float factor.  The current pairs are one uniform draw of
    [np.random.randint] over the time indices below [horison_length]
    and the batch indices below [batch_size]; the goal times are those
    of a second such draw; the goal's batch index of every pair is a
    uniform [np.random.choice] among the batch indices whose quotient by
    [batch_length] differs from that of the current's batch index.
    Every negative target is 1, and the loss returned is the
    mean-squared error over the positive pairs plus the mean-squared
    error over the negative pairs (nan when either set is empty). *)
Theorem negative_pairs_cross_episode_unit_target
    (zs : list (list Zrow)) (hs : list (list Hrow))
    (num_positives : nat) (neg_sampling_factor : number)
    (horison_length batch_size batch_length : nat)
    (w w' : world) (loss : Torch.scalar) :
  train zs hs num_positives neg_sampling_factor
        horison_length batch_size batch_length w = (Ok loss, w') ->
  exists (product : number) (num_negatives : Z)
         (pos_cur pos_goal neg_cur goal0 neg_goal : list (nat * nat))
         (w1 w2 w3 w4 : world) (pred_pos pred_neg : list R)
         (loss_pos loss_neg : Torch.scalar),
    Py.mul_int (Z.of_nat num_positives) neg_sampling_factor = Ok product
    /\ Py.to_int product = Ok num_negatives
    /\ (0 <= num_negatives)%Z
    /\ length neg_cur = Z.to_nat num_negatives
    /\ length neg_goal = Z.to_nat num_negatives
    /\ positive_step zs hs num_positives horison_length batch_size w = (Ok loss_pos, w2)
    /\ Np.randint_pairs num_negatives horison_length batch_size w2 = (Ok neg_cur, w3)
    /\ Np.randint_pairs num_negatives horison_length batch_size w3 = (Ok goal0, w4)
    /\ uniform_over (Np.randint_pairs num_negatives horison_length batch_size)
         (Np.canonical_randint num_negatives horison_length batch_size)
         (fun l => length l = Z.to_nat num_negatives
                   /\ Forall (fun p : nat * nat =>
                                p.1 < horison_length /\ p.2 < batch_size) l)
    /\ (forall i (c g : nat * nat),
          neg_cur !! i = Some c -> neg_goal !! i = Some g ->
          exists (g0 : nat * nat) (cands : list nat) (u u' : world),
            goal0 !! i = Some g0 /\ g.1 = g0.1
            /\ other_episode_candidates batch_length batch_size c.2 = Ok cands
            /\ (forall j, j ∈ cands <->
                          j < batch_size /\ j / batch_length <> c.2 / batch_length)
            /\ Np.choice1 cands u = (Ok g.2, u')
            /\ uniform_over (Np.choice1 cands) (Np.canonical_choice1 cands)
                 (fun j => j ∈ cands)
            /\ c.1 < horison_length /\ c.2 < batch_size
            /\ g.1 < horison_length /\ g.2 < batch_size
            /\ g.2 / batch_length <> c.2 / batch_length)
    /\ length (negative_target num_negatives) = length neg_cur
    /\ (forall t, t ∈ negative_target num_negatives -> t = 1%R)
    /\ sample_positives horison_length batch_size num_positives w
         = (Ok (pos_cur, pos_goal), w1)
    /\ predicted_distance zs hs pos_cur pos_goal = Ok pred_pos
    /\ Torch.mse_loss pred_pos (positive_target horison_length pos_cur pos_goal)
         = Ok loss_pos
    /\ predicted_distance zs hs neg_cur neg_goal = Ok pred_neg
    /\ Torch.mse_loss pred_neg (negative_target num_negatives) = Ok loss_neg
    /\ loss = Torch.add loss_pos loss_neg.
Proof.
  intros (pos_cur & pos_goal & w1 & pred_pos & loss_pos & w2 & num_negatives
          & neg_cur & neg_goal & w5 & pred_neg & loss_neg
          & Hsp & Hpp & Hmp & Hstep & Hcount & Hsn & Hpn & Hmn & ->)%train_Ok_inv.
  apply num_negatives_of_inv in Hcount as (product & Hmul & Hint).
  destruct (neg_sampling_Ok _ _ _ _ _ _ _ _ Hsn) as (Hnn & Hlc & Hlg & Hpairs).
  destruct (neg_sampling_draws _ _ _ _ _ _ _ _ Hsn) as (w3 & goal0 & w4 & Hcur & Hgoal0 & Hdraws).
  exists product, num_negatives, pos_cur, pos_goal, neg_cur, goal0, neg_goal,
         w1, w2, w3, w4, pred_pos, pred_neg, loss_pos, loss_neg.
  split; [done|]. split; [done|]. split; [done|]. split; [done|]. split; [done|].
  split; [done|]. split; [done|]. split; [done|].
  split; [by apply randint_pairs_uniform|].
  split.
  { intros i c g Hc Hg.
    destruct (Hdraws i c g Hc Hg) as (g0 & cands & u & u' & Hg0 & Htime & Hcands & Hchoice).
    destruct (other_episode_candidates_elem _ _ _ _ Hcands) as [Hnd Helem].
    destruct (Hpairs i c g Hc Hg) as (? & ? & ? & ? & ?).
    exists g0, cands, u, u'.
    split; [done|]. split; [done|]. split; [done|]. split; [done|]. split; [done|].
    split; [by apply choice1_uniform|]. done. }
  split; [by unfold negative_target; rewrite length_replicate|].
  split; [|done].
  intros t Ht. unfold negative_target in Ht.
  by apply elem_of_replicate in Ht as [-> _].
Qed.

End TemporalTrain.

Lemma toy_train_returns :
  exists loss w',
    TemporalLatentDistanceReward.train (NN := Toy.networks) Toy.zs22 Toy.hs22
      2 (Float Toy.double_1) 2 2 1 (World [3; 1; 0; 1; 1; 0; 5; 2; 1; 1; 0; 4] [])
    = (Ok loss, w').
Proof.
  eexists _, _. lazy -[INR IZR Rabs Rplus Rminus Rmult Rdiv Rinv Ropp]. reflexivity.
Qed.

Lemma positive_pairs_witness :
  exists loss w' (idx : list nat),
    TemporalLatentDistanceReward.train (NN := Toy.networks) Toy.zs22 Toy.hs22
      2 (Float Toy.double_1) 2 2 1 (World [3; 1; 0; 1; 1; 0; 5; 2; 1; 1; 0; 4] [])
    = (Ok loss, w')
    /\ length idx = 2 /\ NoDup idx.
Proof.
  destruct toy_train_returns as (loss & w' & Hrun).
  destruct (positive_pairs_enumerated_sampled_labelled _ _ _ _ _ _ _ _ _ _ Hrun)
    as (all_cur & all_goal & idx & _ & _ & _ & _ & _ & _ & _ & _ & _ & _ & _ & Hlen & Hnd & _).
  by exists loss, w', idx.
Defined.

(** Three positives and the float nearest to 1/3: the product rounds to
    1.0, so one negative pair is drawn. *)
Lemma toy_train_third_returns :
  exists loss w',
    TemporalLatentDistanceReward.train (NN := Toy.networks) Toy.zs22 Toy.hs22
      3 (Float Toy.double_third) 2 2 1 (World [4; 0; 1; 1; 0; 1; 1; 0] [])
    = (Ok loss, w').
Proof.
  eexists _, _. lazy -[INR IZR Rabs Rplus Rminus Rmult Rdiv Rinv Ropp]. reflexivity.
Qed.

Lemma negative_pairs_witness :
  exists loss w' (neg_cur : list (nat * nat)),
    TemporalLatentDistanceReward.train (NN := Toy.networks) Toy.zs22 Toy.hs22
      3 (Float Toy.double_third) 2 2 1 (World [4; 0; 1; 1; 0; 1; 1; 0] [])
    = (Ok loss, w')
    /\ length neg_cur = 1.
Proof.
  destruct toy_train_third_returns as (loss & w' & Hrun).
  destruct (negative_pairs_cross_episode_unit_target _ _ _ _ _ _ _ _ _ _ Hrun)
    as (product & num_negatives & _ & _ & neg_cur & _ & _ & _ & _ & _ & _ & _ & _ & _ & _
        & Hmul & Hint & _ & Hlen & _).
  exists loss, w', neg_cur. split; [exact Hrun|].
  vm_compute in Hmul. injection Hmul as <-.
  vm_compute in Hint. injection Hint as <-.
  exact Hlen.
Defined.

(** ** TemporalLatentDistanceReward.train on a single-episode batch *)

Section SingleEpisode.
Import TemporalLatentDistanceReward.
Context {NN : Networks}.

Lemma single_episode_no_candidates batch_size batch_length c :
  single_episode batch_size batch_length -> 0 < batch_length -> c < batch_size ->
  other_episode_candidates batch_length batch_size c = Ok [].
Proof.
  intros Hsingle Hbl Hc. unfold other_episode_candidates.
  destruct (decide (batch_size = 0)); [done|].
  destruct (decide (batch_length = 0)); [lia|].
  f_equal.
  destruct (filter _ _) as [|j l] eqn:Hf; [done|].
  assert (j ∈ filter (fun j => j / batch_length <> c / batch_length) (seq 0 batch_size))
    as Hj by (rewrite Hf; left).
  apply list_elem_of_filter in Hj as [Hne Hj%elem_of_seq].
  destruct Hne. apply Hsingle; lia.
Qed.

Lemma positive_step_horizon zs hs num_positives horison_length batch_size w loss w' :
  positive_step zs hs num_positives horison_length batch_size w = (Ok loss, w') ->
  0 < horison_length.
Proof.
  unfold positive_step. intros Hrun.
  apply bind_Ok_inv in Hrun as ([cur goal] & w1 & Hsp & _).
  apply sample_positives_inv in Hsp as (ac & ag & idx & Henum & _).
  by apply get_future_goal_idxs_zip in Henum as (_ & _ & Hpos).
Qed.

Lemma neg_sampling_single_episode batch_length num_negs seq_len bs w :
  single_episode bs batch_length -> 0 < batch_length -> 0 < bs -> 0 < seq_len ->
  (0 < num_negs)%Z ->
  exists w',
    get_future_goal_idxs_neg_sampling batch_length num_negs seq_len bs w
      = (Raise (ValueError Np.msg_empty_population), w')
    /\ trace w' = trace w ++ [RandomRandint num_negs; RandomRandint num_negs;
                             RandomChoice1 []].
Proof.
  intros Hsingle Hbl Hbs Hseq Hn. unfold get_future_goal_idxs_neg_sampling.
  destruct (randint_pairs_total num_negs seq_len bs w) as (cur & w1 & Hcur & Ht1 & Hl1);
    [lia | done | done |].
  destruct (randint_pairs_total num_negs seq_len bs w1) as (goal & w2 & Hgoal & Ht2 & Hl2);
    [lia | done | done |].
  rewrite (bind_Ok_intro _ _ _ _ _ Hcur), (bind_Ok_intro _ _ _ _ _ Hgoal).
  destruct (Z.to_nat num_negs) as [|n] eqn:Hnat; [lia|].
  destruct cur as [|c cur]; [discriminate|].
  destruct goal as [|g goal]; [discriminate|].
  apply randint_pairs_Ok in Hcur as (_ & _ & Hfc).
  apply Forall_cons in Hfc as [[_ Hc] _].
  exists (World (entropy w2) (trace w2 ++ [RandomChoice1 []])). split.
  - apply bind_Raise_intro. simpl.
    rewrite (single_episode_no_candidates _ _ _ Hsingle Hbl Hc).
    erewrite bind_Ok_intro by reflexivity.
    apply bind_Raise_intro. apply choice1_empty.
  - simpl. rewrite Ht2, Ht1. by rewrite <- !app_assoc.
Qed.

(** C6, as the code has it.  [train] makes no check of the episode
    structure.  On a batch whose indices all share one episode
    quotient (with positive [batch_length] and [batch_size]) the
    positive step runs first; when at least one negative pair is then
    requested, [train] raises the [ValueError] of the random choice
    over an empty candidate list, inside the negative-sampling loop and
    after both index arrays have been drawn. *)
Theorem single_episode_raises_inside_negative_sampling
    (zs : list (list Zrow)) (hs : list (list Hrow))
    (num_positives : nat) (neg_sampling_factor : number)
    (horison_length batch_size batch_length : nat)
    (w w1 : world) (loss_pos : Torch.scalar) (num_negatives : Z) :
  single_episode batch_size batch_length ->
  0 < batch_length -> 0 < batch_size ->
  positive_step zs hs num_positives horison_length batch_size w = (Ok loss_pos, w1) ->
  num_negatives_of num_positives neg_sampling_factor = Ok num_negatives ->
  (0 < num_negatives)%Z ->
  exists w',
    train zs hs num_positives neg_sampling_factor
          horison_length batch_size batch_length w
      = (Raise (ValueError Np.msg_empty_population), w')
    /\ trace w' =
         trace w1 ++ [RandomRandint num_negatives; RandomRandint num_negatives;
                      RandomChoice1 []].
Proof.
  intros Hsingle Hbl Hbs Hpos Hcount Hn.
  pose proof (positive_step_horizon _ _ _ _ _ _ _ _ Hpos) as Hseq.
  destruct (neg_sampling_single_episode batch_length _ horison_length batch_size w1
              Hsingle Hbl Hbs Hseq Hn) as (w' & Hneg & Htrace).
  exists w'. split; [|done].
  unfold train. rewrite (bind_Ok_intro _ _ _ _ _ Hpos).
  erewrite bind_Ok_intro by (unfold lift; by rewrite Hcount).
  apply bind_Raise_intro. unfold negative_step.
  by apply bind_Raise_intro.
Qed.

End SingleEpisode.

Lemma toy_single_episode : TemporalLatentDistanceReward.single_episode 2 2.
Proof.
  intros i j Hi Hj.
  assert (i = 0 \/ i = 1) as [-> | ->] by lia;
    assert (j = 0 \/ j = 1) as [-> | ->] by lia; reflexivity.
Qed.

Lemma single_episode_witness :
  exists w',
    TemporalLatentDistanceReward.train (NN := Toy.networks) Toy.zs22 Toy.hs22
      1 (Int 1) 2 2 2 (World [3; 1; 0; 1; 1] [])
    = (Raise (ValueError Np.msg_empty_population), w').
Proof.
  assert (exists loss_pos w1,
            TemporalLatentDistanceReward.positive_step (NN := Toy.networks)
              Toy.zs22 Toy.hs22 1 2 2 (World [3; 1; 0; 1; 1] []) = (Ok loss_pos, w1))
    as (loss_pos & w1 & Hpos)
    by (eexists _, _; lazy -[INR IZR Rabs Rplus Rminus Rmult Rdiv Rinv Ropp]; reflexivity).
  destruct (single_episode_raises_inside_negative_sampling
              (NN := Toy.networks) Toy.zs22 Toy.hs22 1 (Int 1) 2 2 2 _ _ _ 1%Z
              toy_single_episode ltac:(lia) ltac:(lia) Hpos eq_refl ltac:(lia))
    as (w' & Hrun & _).
  by exists w'.
Defined.

(** With no negative pair requested (int(1 * 0.5) = 0) the same
    single-episode batch is trained on without any error; the loss over
    no negative pair, and with it the loss returned, is nan. *)
Lemma single_episode_without_negatives_returns :
  exists w',
    TemporalLatentDistanceReward.train (NN := Toy.networks) Toy.zs22 Toy.hs22
      1 (Float Toy.double_half) 2 2 2 (World [3; 1; 0; 1; 1] []) = (Ok Torch.Nan, w').
Proof.
  eexists. lazy -[INR IZR Rabs Rplus Rminus Rmult Rdiv Rinv Ropp]. reflexivity.
Qed.

(** C6, as claimed, fails: on the single-episode batch below, [train]
    is not stopped ahead of the negative-sampling step; both index
    arrays have been drawn by the time it raises. *)
Lemma single_episode_not_rejected_up_front :
  ~ (TemporalLatentDistanceReward.single_episode 2 2 ->
     TemporalLatentDistanceReward.rejected_before_negative_sampling
       (TemporalLatentDistanceReward.train (NN := Toy.networks) Toy.zs22 Toy.hs22
          1 (Int 1) 2 2 2 (World [3; 1; 0; 1; 1] []))).
Proof.
  intros Hclaim. destruct (Hclaim toy_single_episode) as [_ Htrace].
  assert (TemporalLatentDistanceReward.train (NN := Toy.networks) Toy.zs22 Toy.hs22
            1 (Int 1) 2 2 2 (World [3; 1; 0; 1; 1] [])
          = (Raise (ValueError Np.msg_empty_population),
             World [] [RandomChoice 6 1; Forward "state2emb"; Forward "state2emb";
                       Forward "distance_estimator"; RandomRandint 1; RandomRandint 1;
                       RandomChoice1 []])) as Hrun
    by (lazy -[INR IZR Rabs Rplus Rminus Rmult Rdiv Rinv Ropp]; reflexivity).
  rewrite Hrun in Htrace.
  pose proof (proj1 (Forall_lookup _ _) Htrace 4 (RandomRandint 1) eq_refl) as Hbad.
  discriminate Hbad.
Qed.

(** ** torch: broadcasting tensors of equal shape, sums *)

Section TorchFacts.

Lemma broadcast1_same (f : R -> R -> R) (a b : list R) :
  length a = length b -> Torch.broadcast1 f a b = Ok (zip_with f a b).
Proof.
  intros Hlen. unfold Torch.broadcast1, Torch.broadcast.
  destruct (decide (length a = length b)); [|done].
  rewrite (omap_total _ (fun p => f p.1 p.2)) by (by apply Forall_forall).
  f_equal. clear. revert b. induction a as [|x a IH]; intros [|y b]; simpl; f_equal; auto.
Qed.

Lemma broadcast2_same (f : R -> R -> R) (a b : list (list R)) :
  Forall2 (fun x y => length x = length y) a b ->
  Torch.broadcast2 f a b = Ok (zip_with (zip_with f) a b).
Proof.
  intros Hshape. unfold Torch.broadcast2, Torch.broadcast.
  destruct (decide (length a = length b)) as [_|Hne];
    [|by apply Forall2_length in Hshape].
  apply omap_Ok.
  induction Hshape as [|x y a b Hxy _ IH]; simpl; constructor; [|done].
  simpl. by apply broadcast1_same.
Qed.

Lemma sum_cons x xs : Torch.sum (x :: xs) = (x + Torch.sum xs)%R.
Proof. done. Qed.

Lemma sum_squares_nonneg (a : list R) :
  (0 <= Torch.sum (map (fun v => v * v) a))%R.
Proof.
  induction a as [|x a IH]; [unfold Torch.sum; simpl; lra|].
  cbn [map]. rewrite sum_cons. nra.
Qed.

Lemma norm_nonneg (a : list R) : (0 <= Torch.norm a)%R.
Proof. apply sqrt_pos. Qed.

Lemma norm_square (a : list R) :
  (Torch.norm a * Torch.norm a = Torch.sum (map (fun v => v * v) a))%R.
Proof. apply sqrt_sqrt, sum_squares_nonneg. Qed.

End TorchFacts.

(** ** CosineLatentDistanceReward *)

Section Cosine.
Import CosineLatentDistanceReward.

Lemma abs_le_inv (x b : R) : (Rabs x <= b -> - b <= x <= b)%R.
Proof. unfold Rabs. destruct (Rcase_abs x); lra. Qed.

Lemma cross_term_bound (p q : R) : (0 <= p -> q * q <= p * p -> q <= p)%R.
Proof. intros Hp Hq. nra. Qed.

Lemma cauchy_schwarz (a b : list R) :
  (dot a b * dot a b
   <= Torch.sum (map (fun v => v * v) a) * Torch.sum (map (fun v => v * v) b))%R.
Proof.
  revert b. induction a as [|x a IH]; intros [|y b]; unfold dot.
  - unfold Torch.sum; simpl. lra.
  - unfold Torch.sum at 1 2 3; simpl. lra.
  - pose proof (sum_squares_nonneg (x :: a)) as Ha.
    unfold Torch.sum at 1 2 4; simpl. lra.
  - cbn [map zip_with]. rewrite !sum_cons. specialize (IH b). unfold dot in IH.
    pose proof (sum_squares_nonneg a) as HA.
    pose proof (sum_squares_nonneg b) as HB.
    set (d := Torch.sum (zip_with Rmult a b)) in *.
    set (A := Torch.sum (map (fun v => v * v)%R a)) in *.
    set (B := Torch.sum (map (fun v => v * v)%R b)) in *.
    assert (2 * (x * y) * d <= x * x * B + A * (y * y))%R as Hcross.
    { apply cross_term_bound; [nra|].
      pose proof (Rle_0_sqr (x * x * B - A * (y * y))) as Hsq1.
      pose proof (Rle_0_sqr (x * y)) as Hsq2.
      unfold Rsqr in Hsq1, Hsq2.
      assert ((x * y) * (x * y) * (d * d) <= (x * y) * (x * y) * (A * B))%R
        by (apply Rmult_le_compat_l; lra).
      nra. }
    nra.
Qed.

Lemma dot_le_norms (a b : list R) :
  (Rabs (dot a b) <= Torch.norm a * Torch.norm b)%R.
Proof.
  unfold Torch.norm. rewrite <- sqrt_mult by apply sum_squares_nonneg.
  rewrite <- sqrt_Rsqr_abs. apply sqrt_le_1.
  - apply Rle_0_sqr.
  - apply Rmult_le_pos; apply sum_squares_nonneg.
  - unfold Rsqr. apply cauchy_schwarz.
Qed.

Lemma denominator_positive (a b : list R) :
  (0 < Torch.norm a * Torch.norm b + 1e-8)%R.
Proof.
  pose proof (norm_nonneg a). pose proof (norm_nonneg b).
  assert (0 <= Torch.norm a * Torch.norm b)%R by nra. lra.
Qed.

Lemma cosine_similarity_bounds (a b : list R) :
  (-1 <= cosine_similarity a b <= 1)%R.
Proof.
  unfold cosine_similarity.
  pose proof (dot_le_norms a b) as Hcs.
  pose proof (denominator_positive a b) as Hden.
  apply abs_le_inv in Hcs. destruct Hcs as [Hlo Hhi].
  split.
  - apply (Rmult_le_reg_r (Torch.norm a * Torch.norm b + 1e-8)); [done|].
    unfold Rdiv. rewrite Rmult_assoc, Rinv_l by lra. lra.
  - apply (Rmult_le_reg_r (Torch.norm a * Torch.norm b + 1e-8)); [done|].
    unfold Rdiv. rewrite Rmult_assoc, Rinv_l by lra. lra.
Qed.

Lemma dot_self (a : list R) : dot a a = (Torch.norm a * Torch.norm a)%R.
Proof.
  rewrite norm_square. unfold dot. f_equal.
  induction a as [|x a IH]; [done | cbn [map zip_with]; by f_equal].
Qed.

Lemma cosine_similarity_self (a : list R) :
  (1 <= Torch.norm a * Torch.norm a ->
   Rabs (cosine_similarity a a - 1) <= 1e-8)%R.
Proof.
  intros Hn. unfold cosine_similarity. rewrite dot_self.
  set (n2 := (Torch.norm a * Torch.norm a)%R) in *.
  assert (n2 / (n2 + 1e-8) - 1 = - (1e-8 / (n2 + 1e-8)))%R as -> by (field; lra).
  rewrite Rabs_Ropp, Rabs_pos_eq.
  - apply (Rmult_le_reg_r (n2 + 1e-8)); [lra|].
    unfold Rdiv. rewrite Rmult_assoc, Rinv_l by lra. nra.
  - apply Rmult_le_pos; [lra|]. left. apply Rinv_0_lt_compat. lra.
Qed.

Lemma cosine_similarity_self_exact (a : list R) :
  cosine_similarity a a
  = (1 - 1e-8 / (Torch.norm a * Torch.norm a + 1e-8))%R.
Proof.
  unfold cosine_similarity. rewrite dot_self.
  pose proof (denominator_positive a a). field. lra.
Qed.

Lemma cosine_similarity_self_range (a : list R) :
  (0 <= cosine_similarity a a < 1)%R.
Proof.
  rewrite cosine_similarity_self_exact.
  pose proof (norm_nonneg a) as Hn.
  set (n2 := (Torch.norm a * Torch.norm a)%R).
  assert (0 <= n2)%R as Hn2 by (subst n2; nra).
  assert (0 < 1e-8 / (n2 + 1e-8) <= 1)%R as [Hlo Hhi].
  { split.
    - apply Rdiv_lt_0_compat; lra.
    - apply (Rmult_le_reg_r (n2 + 1e-8)); [lra|].
      unfold Rdiv. rewrite Rmult_assoc, Rinv_l by lra. lra. }
  lra.
Qed.

Lemma cosine_similarity_self_within (a : list R) (tol : R) :
  (1e-8 <= tol * (Torch.norm a * Torch.norm a) ->
   Rabs (cosine_similarity a a - 1) <= tol)%R.
Proof.
  intros Hn. rewrite cosine_similarity_self_exact.
  pose proof (norm_nonneg a) as Hnn.
  set (n2 := (Torch.norm a * Torch.norm a)%R) in *.
  assert (0 <= n2)%R as Hn2 by (subst n2; nra).
  assert (0 < tol)%R as Htol by nra.
  assert (1 - 1e-8 / (n2 + 1e-8) - 1 = - (1e-8 / (n2 + 1e-8)))%R as -> by lra.
  rewrite Rabs_Ropp, Rabs_pos_eq.
  - apply (Rmult_le_reg_r (n2 + 1e-8)); [lra|].
    unfold Rdiv. rewrite Rmult_assoc, Rinv_l by lra. nra.
  - apply Rmult_le_pos; [lra|]. left. apply Rinv_0_lt_compat. lra.
Qed.

Lemma cosine_similarity_zero_norm (a b : list R) :
  Torch.norm a = 0%R \/ Torch.norm b = 0%R -> cosine_similarity a b = 0%R.
Proof.
  intros Hz. unfold cosine_similarity.
  pose proof (dot_le_norms a b) as Hcs.
  assert (Torch.norm a * Torch.norm b = 0)%R as Hp by (destruct Hz as [-> | ->]; lra).
  rewrite Hp in Hcs.
  assert (dot a b = 0%R) as ->.
  { apply abs_le_inv in Hcs. lra. }
  unfold Rdiv. lra.
Qed.

End Cosine.

Section CosineReward.
Import CosineLatentDistanceReward.
Context {WM : WorldModel}.

Lemma cosine_rows (z g : list (list R)) :
  Forall2 (fun a b => length a = length b) z g ->
  zip_with Rdiv
    (Torch.sum_dim1 (zip_with (zip_with Rmult) z g))
    (add_scalar 1e-8 (zip_with Rmult (Torch.norm_dim1 z) (Torch.norm_dim1 g)))
  = zip_with cosine_similarity z g.
Proof.
  induction 1 as [|a b z g _ _ IH]; [done|].
  cbn [zip_with Torch.sum_dim1 Torch.norm_dim1 add_scalar map] in *.
  f_equal. exact IH.
Qed.

Lemma compute_reward_same_shape {Hs : Type} (h_dim : nat)
    (z : list (list R)) (h : Hs) (goal_emb : GoalEmb) :
  Forall2 (fun a b => length a = length b) z (decoded_goal h_dim (length z) goal_emb) ->
  compute_reward h_dim z h goal_emb
  = Ok (zip_with cosine_similarity z (decoded_goal h_dim (length z) goal_emb)).
Proof.
  intros Hshape. unfold compute_reward.
  set (g := decoded_goal h_dim (length z) goal_emb) in *.
  pose proof (Forall2_length _ _ _ Hshape) as Hlen.
  rewrite broadcast1_same
    by (unfold Torch.norm_dim1; by rewrite !length_map).
  cbn [mbind outcome_bind obind].
  rewrite (broadcast2_same _ _ _ Hshape).
  cbn [mbind outcome_bind obind].
  rewrite broadcast1_same.
  - by rewrite (cosine_rows _ _ Hshape).
  - unfold Torch.sum_dim1, add_scalar, Torch.norm_dim1.
    rewrite !length_map, !length_zip_with, !length_map. done.
Qed.

(** C7, as the code has it.  [compute_reward] decodes the goal
    embedding through the posterior from an all-zero recurrent state of
    shape (batch, h_dim) and, on inputs of matching shape, returns for
    every batch row dot(a, b) / (norm a * norm b + 1e-8); every such
    value lies in [-1, 1]; the denominator is positive whatever the
    vectors, so a zero-norm row is no error (its reward is 0).  Where
    the current vector a equals the decoded goal the reward is
    1 - 1e-8 / (norm a ^ 2 + 1e-8): always below 1, never negative,
    within a tolerance tol of 1 once norm a ^ 2 is at least 1e-8 / tol
    (so within 1e-8 of 1 once the squared norm is at least 1), and not
    near 1 for a vector of small norm. *)
Theorem cosine_reward_formula_and_bounds {Hs : Type} (h_dim : nat)
    (z : list (list R)) (h : Hs) (goal_emb : GoalEmb) :
  let goal_state := decoded_goal h_dim (length z) goal_emb in
  Forall2 (fun a b => length a = length b) z goal_state ->
  goal_state
    = flatten <$> posterior_mean (replicate (length z) (replicate h_dim 0%R)) goal_emb
  /\ compute_reward h_dim z h goal_emb = Ok (zip_with cosine_similarity z goal_state)
  /\ (forall r, r ∈ zip_with cosine_similarity z goal_state -> (-1 <= r <= 1)%R)
  /\ (forall a b : list R,
        (0 < Torch.norm a * Torch.norm b + 1e-8)%R
        /\ (Torch.norm a = 0%R \/ Torch.norm b = 0%R -> cosine_similarity a b = 0%R))
  /\ (forall i (a : list R),
        z !! i = Some a -> goal_state !! i = Some a ->
        zip_with cosine_similarity z goal_state !! i = Some (cosine_similarity a a)
        /\ cosine_similarity a a
           = (1 - 1e-8 / (Torch.norm a * Torch.norm a + 1e-8))%R
        /\ (0 <= cosine_similarity a a < 1)%R
        /\ (forall tol : R,
              (1e-8 <= tol * (Torch.norm a * Torch.norm a))%R ->
              (Rabs (cosine_similarity a a - 1) <= tol)%R)
        /\ ((1 <= Torch.norm a * Torch.norm a)%R ->
            (Rabs (cosine_similarity a a - 1) <= 1e-8)%R)).
Proof.
  intros goal_state Hshape.
  split; [done|].
  split; [by apply compute_reward_same_shape|].
  split.
  { intros r Hr. apply elem_of_lookup_zip_with in Hr as (i & a & b & -> & _ & _).
    apply cosine_similarity_bounds. }
  split.
  { intros a b. split; [apply denominator_positive | apply cosine_similarity_zero_norm]. }
  intros i a Hz Hg. split; [|split; [|split; [|split]]].
  - apply lookup_zip_with_Some. eauto.
  - apply cosine_similarity_self_exact.
  - apply cosine_similarity_self_range.
  - apply cosine_similarity_self_within.
  - apply cosine_similarity_self.
Qed.

(** C10. The reward does not depend on the [h] argument, whatever its
    type or shape: the current state is [z] alone and the posterior is
    fed a fresh all-zero recurrent state. *)
Theorem cosine_reward_ignores_h {Hs1 Hs2 : Type} (h_dim : nat)
    (z : list (list R)) (h1 : Hs1) (h2 : Hs2) (goal_emb : GoalEmb) :
  compute_reward h_dim z h1 goal_emb = compute_reward h_dim z h2 goal_emb
  /\ compute_reward h_dim z h1 goal_emb
     = (let goal_state :=
          flatten <$> posterior_mean (zeros (length z) h_dim) goal_emb in
        norm ← Torch.broadcast1 Rmult (Torch.norm_dim1 z) (Torch.norm_dim1 goal_state);
        prod ← Torch.broadcast2 Rmult z goal_state;
        Torch.broadcast1 Rdiv (Torch.sum_dim1 prod) (add_scalar 1e-8 norm)).
Proof. split; reflexivity. Qed.

(** C9. [train] returns 0 for every argument list; it draws nothing,
    calls nothing and changes nothing. *)
Theorem cosine_train_returns_zero {A : Type} (args : list A) (w : world) :
  train args w = (Ok 0%Z, w).
Proof. reflexivity. Qed.

End CosineReward.

Lemma norm_small : Torch.norm [1e-4]%R = 1e-4%R.
Proof.
  unfold Torch.norm, Torch.sum. cbn [map foldr].
  replace (1e-4 * 1e-4 + 0)%R with (Rsqr 1e-4) by (unfold Rsqr; lra).
  apply sqrt_Rsqr. lra.
Qed.

Lemma cosine_similarity_small :
  CosineLatentDistanceReward.cosine_similarity [1e-4]%R [1e-4]%R = (1 / 2)%R.
Proof. rewrite cosine_similarity_self_exact, norm_small. lra. Qed.

Lemma toy_decoded_small :
  CosineLatentDistanceReward.decoded_goal (WM := Toy.worldmodel) 3 1 [[1e-4]]%R
  = [[1e-4]]%R.
Proof.
  unfold CosineLatentDistanceReward.decoded_goal, CosineLatentDistanceReward.zeros.
  cbn. do 2 f_equal. unfold Torch.sum. cbn. lra.
Qed.

Lemma cosine_reward_witness :
  CosineLatentDistanceReward.compute_reward (WM := Toy.worldmodel) 3
    [[1; 0]; [0; 0]]%R tt [[1; 0]; [0; 1]]%R
  = Ok (zip_with CosineLatentDistanceReward.cosine_similarity
          [[1; 0]; [0; 0]]%R
          (CosineLatentDistanceReward.decoded_goal (WM := Toy.worldmodel) 3 2
             [[1; 0]; [0; 1]]%R)).
Proof.
  apply (cosine_reward_formula_and_bounds (WM := Toy.worldmodel) 3
           [[1; 0]; [0; 0]]%R tt [[1; 0]; [0; 1]]%R).
  repeat constructor.
Defined.

(** C7, as claimed, fails.  The current vector below equals the
    decoded goal and its norm is 1e-4, not zero; the reward is 1/2, which
    is not 1 within any floating tolerance. *)
Lemma cosine_reward_of_equal_vectors_not_one :
  ~ (CosineLatentDistanceReward.decoded_goal (WM := Toy.worldmodel) 3 1 [[1e-4]]%R
       = [[1e-4]]%R ->
     Torch.norm [1e-4]%R <> 0%R ->
     forall reward,
       CosineLatentDistanceReward.compute_reward (WM := Toy.worldmodel) 3
         [[1e-4]]%R tt [[1e-4]]%R = Ok reward ->
       Forall (fun r => Rabs (r - 1) <= 1e-3)%R reward).
Proof.
  intros Hclaim.
  pose proof toy_decoded_small as Hgoal.
  pose proof norm_small as Hnorm.
  assert (CosineLatentDistanceReward.compute_reward (WM := Toy.worldmodel) 3
            [[1e-4]]%R tt [[1e-4]]%R
          = Ok [CosineLatentDistanceReward.cosine_similarity [1e-4]%R [1e-4]%R])
    as Hrun.
  { rewrite (compute_reward_same_shape (WM := Toy.worldmodel)).
    - cbn [length]. by rewrite Hgoal.
    - cbn [length]. rewrite Hgoal. repeat constructor. }
  specialize (Hclaim Hgoal ltac:(rewrite Hnorm; lra) _ Hrun).
  apply Forall_cons in Hclaim as [Hnear _].
  rewrite cosine_similarity_small in Hnear.
  revert Hnear. unfold Rabs. destruct (Rcase_abs _); lra.
Qed.

(** ** TemporalLatentDistanceReward: the sign of the reward *)

Section TemporalReward.
Import TemporalLatentDistanceReward.
Context {NN : Networks}.

Lemma negated_nonpositive (ds : list R) :
  Forall (fun d => 0 <= d)%R ds -> Forall (fun r => r <= 0)%R (map Ropp ds).
Proof.
  induction 1 as [|d ds Hd _ IH]; simpl; constructor; [lra | done].
Qed.

Lemma negated_lookup (ds : list R) i d :
  ds !! i = Some d -> map Ropp ds !! i = Some (- d)%R.
Proof.
  revert i. induction ds as [|x ds IH]; intros [|i]; simpl; try done.
  - by intros [= ->].
  - apply IH.
Qed.

(** C8. Both reward methods return the negation of what the distance
    estimator predicts, entry by entry: [compute_reward] on the
    embedding of (z, h) and the given goal embedding,
    [imagine_compute_reward] on the embeddings of the two latent
    states.  Where the estimator's distances are non-negative, the
    rewards are at most 0. *)
Theorem temporal_reward_negates_distance
    (z : list Zrow) (h : list Hrow) (goal_emb : list Emb)
    (current_z : list Zrow) (current_h : list Hrow)
    (goal_z : list Zrow) (goal_h : list Hrow) :
  let distance := distance_estimator (dist_mean (state2emb z h)) goal_emb in
  let imagined_distance :=
    distance_estimator (dist_mean (state2emb current_z current_h))
                       (dist_mean (state2emb goal_z goal_h)) in
  compute_reward z h goal_emb = map Ropp distance
  /\ imagine_compute_reward current_z current_h goal_z goal_h
     = map Ropp imagined_distance
  /\ length (compute_reward z h goal_emb) = length distance
  /\ (forall i d, distance !! i = Some d ->
                  compute_reward z h goal_emb !! i = Some (- d)%R)
  /\ (forall i d, imagined_distance !! i = Some d ->
                  imagine_compute_reward current_z current_h goal_z goal_h !! i
                  = Some (- d)%R)
  /\ (Forall (fun d => 0 <= d)%R distance ->
      Forall (fun r => r <= 0)%R (compute_reward z h goal_emb))
  /\ (Forall (fun d => 0 <= d)%R imagined_distance ->
      Forall (fun r => r <= 0)%R
        (imagine_compute_reward current_z current_h goal_z goal_h)).
Proof.
  intros distance imagined_distance.
  split; [done|]. split; [done|].
  split; [unfold compute_reward; by rewrite length_map|].
  split; [intros i d; apply negated_lookup|].
  split; [intros i d; apply negated_lookup|].
  split; apply negated_nonpositive.
Qed.

End TemporalReward.

Lemma temporal_reward_witness :
  Forall (fun r => r <= 0)%R
    (TemporalLatentDistanceReward.compute_reward (NN := Toy.networks)
       [1; 2] [0; 3] [4; 2]%R).
Proof.
  destruct (temporal_reward_negates_distance (NN := Toy.networks)
              [1; 2] [0; 3] [4; 2]%R [] [] [] []) as (_ & _ & _ & _ & _ & Hsign & _).
  apply Hsign. cbn.
  repeat (apply Forall_cons; split; [apply Rabs_pos|]). by apply Forall_nil.
Defined.

(** ** Explorer: the imagination rollout *)

Section Rollout.
Import Explorer.
Context {MD : Modules}.

Lemma assign_slot_shape {A} (buf : list (list A)) t v buf' n b :
  assign_slot buf t v = Ok buf' ->
  length buf = n /\ Forall (fun x => length x = b) buf ->
  length buf' = n /\ Forall (fun x => length x = b) buf'.
Proof.
  unfold assign_slot. intros Hrun [Hlen Hall].
  destruct (buf !! t) as [slot|] eqn:Hslot; [|discriminate].
  assert (length slot = b) as Hb by exact (proj1 (Forall_lookup _ _) Hall _ _ Hslot).
  destruct (decide (length v = length slot)) as [Hv|Hv].
  - injection Hrun as <-. rewrite length_insert. split; [done|].
    apply Forall_insert; [done | congruence].
  - destruct v as [|x [|? ?]]; try discriminate.
    injection Hrun as <-. rewrite length_insert. split; [done|].
    apply Forall_insert; [done|]. rewrite length_replicate. done.
Qed.

Lemma assign_slot_other {A} (buf : list (list A)) t v buf' t' :
  assign_slot buf t v = Ok buf' -> t' <> t -> buf' !! t' = buf !! t'.
Proof.
  unfold assign_slot. intros Hrun Hne.
  destruct (buf !! t) as [slot|]; [|discriminate].
  destruct (decide (length v = length slot)).
  - injection Hrun as <-. by rewrite list_lookup_insert_ne.
  - destruct v as [|x [|? ?]]; try discriminate.
    injection Hrun as <-. by rewrite list_lookup_insert_ne.
Qed.

Lemma assign_slot_same {A} (buf : list (list A)) t v buf' b :
  assign_slot buf t v = Ok buf' ->
  Forall (fun x => length x = b) buf -> length v = b ->
  buf' !! t = Some v.
Proof.
  unfold assign_slot. intros Hrun Hall Hv.
  destruct (buf !! t) as [slot|] eqn:Hslot; [|discriminate].
  assert (length slot = b) as Hb by exact (proj1 (Forall_lookup _ _) Hall _ _ Hslot).
  destruct (decide (length v = length slot)) as [_|Hne]; [|congruence].
  injection Hrun as <-. apply list_lookup_insert_eq. by eapply lookup_lt_Some.
Qed.

Lemma rollout_step_Ok st t w st' w' :
  rollout_step st t w = (Ok st', w') ->
  exists actions lp ent w_a,
    actor (zs st) (hs st) w = (Ok (actions, lp, ent), w_a)
    /\ imagine actions (zs st) (hs st) w_a = (Ok (hs st', zs st'), w')
    /\ assign_slot (imagined_hs st) t (hs st') = Ok (imagined_hs st')
    /\ assign_slot (imagined_zs st) t (zs st') = Ok (imagined_zs st')
    /\ assign_slot (imagined_action_log_probs st) t lp
       = Ok (imagined_action_log_probs st')
    /\ assign_slot (imagined_action_entropys st) t ent
       = Ok (imagined_action_entropys st').
Proof.
  unfold rollout_step. intros Hrun.
  apply bind_Ok_inv in Hrun as ([[actions lp] ent] & w_a & Hactor & Hrun).
  apply bind_Ok_inv in Hrun as ([hs' zs'] & w_i & Himagine & Hrun).
  apply bind_Ok_inv in Hrun as (ihs & w1 & Hihs & Hrun).
  apply lift_Ok_inv in Hihs as [Hihs ->].
  apply bind_Ok_inv in Hrun as (izs & w2 & Hizs & Hrun).
  apply lift_Ok_inv in Hizs as [Hizs ->].
  apply bind_Ok_inv in Hrun as (ilp & w3 & Hilp & Hrun).
  apply lift_Ok_inv in Hilp as [Hilp ->].
  apply bind_Ok_inv in Hrun as (ient & w4 & Hient & Hrun).
  apply lift_Ok_inv in Hient as [Hient ->].
  apply ret_Ok_inv in Hrun as [-> ->]. simpl.
  exists actions, lp, ent, w_a. done.
Qed.

Lemma rollout_loop_app ts1 ts2 st w :
  rollout_loop (ts1 ++ ts2) st w
  = match rollout_loop ts1 st w with
    | (Ok st1, w1) => rollout_loop ts2 st1 w1
    | (Raise e, w1) => (Raise e, w1)
    end.
Proof.
  revert st w. induction ts1 as [|t ts1 IH]; intros st w; [done|].
  cbn [rollout_loop app]. unfold mbind, M_bind, Py.bind.
  destruct (rollout_step st t w) as [[st1|e] w1]; [apply IH | done].
Qed.

Lemma rollout_loop_cons t ts st w st' w' :
  rollout_loop (t :: ts) st w = (Ok st', w') ->
  exists st1 w1, rollout_step st t w = (Ok st1, w1)
                 /\ rollout_loop ts st1 w1 = (Ok st', w').
Proof. cbn [rollout_loop]. apply bind_Ok_inv. Qed.

Lemma rollout_step_shape st t w st' w' n bz bh :
  rollout_step st t w = (Ok st', w') ->
  recorded_shape n bz bh st -> recorded_shape n bz bh st'.
Proof.
  intros Hstep (Hz & Hh & Hlp & Hent).
  apply rollout_step_Ok in Hstep
    as (actions & lp & ent & w_a & _ & _ & Hihs & Hizs & Hilp & Hient).
  repeat split; eapply assign_slot_shape; eauto.
Qed.

Lemma rollout_loop_shape ts st w st' w' n bz bh :
  rollout_loop ts st w = (Ok st', w') ->
  recorded_shape n bz bh st -> recorded_shape n bz bh st'.
Proof.
  revert st w. induction ts as [|t ts IH]; intros st w.
  - by intros [= <- <-].
  - intros (st1 & w1 & Hstep & Hloop)%rollout_loop_cons Hshape.
    eapply IH; [done|]. by eapply rollout_step_shape.
Qed.

Lemma rollout_loop_untouched ts st w st' w' t :
  rollout_loop ts st w = (Ok st', w') -> t ∉ ts ->
  imagined_zs st' !! t = imagined_zs st !! t
  /\ imagined_hs st' !! t = imagined_hs st !! t
  /\ imagined_action_log_probs st' !! t = imagined_action_log_probs st !! t
  /\ imagined_action_entropys st' !! t = imagined_action_entropys st !! t.
Proof.
  revert st w. induction ts as [|t0 ts IH]; intros st w.
  - by intros [= <- <-].
  - intros (st1 & w1 & Hstep & Hloop)%rollout_loop_cons [Hne Hnot]%not_elem_of_cons.
    destruct (IH _ _ Hloop Hnot) as (-> & -> & -> & ->).
    apply rollout_step_Ok in Hstep
      as (actions & lp & ent & w_a & _ & _ & Hihs & Hizs & Hilp & Hient).
    repeat split; by eapply assign_slot_other.
Qed.

Lemma rollout_loop_batch ts st w st' w' :
  actor_batchwise -> imagine_batchwise ->
  rollout_loop ts st w = (Ok st', w') ->
  length (zs st') = length (zs st) /\ length (hs st') = length (hs st).
Proof.
  intros Hactor Himagine. revert st w.
  induction ts as [|t ts IH]; intros st w.
  - by intros [= <- <-].
  - intros (st1 & w1 & Hstep & Hloop)%rollout_loop_cons.
    destruct (IH _ _ Hloop) as [-> ->].
    apply rollout_step_Ok in Hstep as (actions & lp & ent & w_a & _ & Him & _).
    apply Himagine in Him as [? ?]. done.
Qed.

Lemma rollout_init_shape init_zs init_hs horison_length :
  recorded_shape horison_length (length init_zs) (length init_hs)
    (rollout_init init_zs init_hs horison_length).
Proof.
  unfold recorded_shape, rollout_init, empty. simpl.
  rewrite !length_replicate.
  repeat split; try done; apply Forall_replicate; try done;
    by rewrite length_replicate.
Qed.

Lemma imagine_rollout_shape init_zs init_hs horison_length w st w' :
  imagine_rollout init_zs init_hs horison_length w = (Ok st, w') ->
  recorded_shape horison_length (length init_zs) (length init_hs) st.
Proof.
  unfold imagine_rollout. intros Hrun.
  eapply rollout_loop_shape; [exact Hrun | apply rollout_init_shape].
Qed.

End Rollout.

Section RolloutRecords.
Import Explorer.
Context {MD : Modules}.

(** C3. The rollout over horizon H from a batch of B states records
    tensors of leading shape (H, B); for every step t below H, the
    latent state stored at index t is the (z, h) returned by the
    dynamics model's [imagine] at step t, the log-probability and
    entropy stored at index t are those the actor returned on the state
    the step started from, and that returned state is the one step
    t + 1 starts from. *)
Theorem rollout_stores_post_state_and_pre_policy
    (init_zs : list Zrow) (init_hs : list Hrow) (horison_length : nat)
    (w w' : world) (st : rollout) :
  actor_batchwise -> imagine_batchwise ->
  imagine_rollout init_zs init_hs horison_length w = (Ok st, w') ->
  recorded_shape horison_length (length init_zs) (length init_hs) st
  /\ (forall t, t < horison_length ->
        exists (pre next : rollout) (w_t w_a w_i : world)
               (actions : list Arow) (lp ent : list R),
          rollout_loop (seq 0 t) (rollout_init init_zs init_hs horison_length) w
            = (Ok pre, w_t)
          /\ (t = 0 -> zs pre = init_zs /\ hs pre = init_hs)
          /\ actor (zs pre) (hs pre) w_t = (Ok (actions, lp, ent), w_a)
          /\ imagine actions (zs pre) (hs pre) w_a = (Ok (hs next, zs next), w_i)
          /\ rollout_loop (seq 0 (S t)) (rollout_init init_zs init_hs horison_length) w
               = (Ok next, w_i)
          /\ imagined_zs st !! t = Some (zs next)
          /\ imagined_hs st !! t = Some (hs next)
          /\ imagined_action_log_probs st !! t = Some lp
          /\ imagined_action_entropys st !! t = Some ent).
Proof.
  intros Hactor Himagine Hrun. unfold imagine_rollout in Hrun.
  set (st0 := rollout_init init_zs init_hs horison_length) in *.
  pose proof (rollout_init_shape init_zs init_hs horison_length) as Hshape0.
  fold st0 in Hshape0.
  split; [by apply (imagine_rollout_shape _ _ _ w _ w')|].
  intros t Ht.
  assert (seq 0 horison_length = seq 0 t ++ t :: seq (S t) (horison_length - S t)) as Hseq.
  { replace horison_length with (t + S (horison_length - S t)) at 1 by lia.
    by rewrite seq_app. }
  rewrite Hseq, rollout_loop_app in Hrun.
  destruct (rollout_loop (seq 0 t) st0 w) as [[pre|e] w_t] eqn:Hpre; [|discriminate].
  apply rollout_loop_cons in Hrun as (next & w_i & Hstep & Hrest).
  pose proof (rollout_loop_shape _ _ _ _ _ _ _ _ Hpre Hshape0) as Hshape_pre.
  destruct (rollout_loop_batch _ _ _ _ _ Hactor Himagine Hpre) as [Hbz Hbh].
  pose proof Hstep as Hstep'.
  apply rollout_step_Ok in Hstep'
    as (actions & lp & ent & w_a & Hact & Him & Hihs & Hizs & Hilp & Hient).
  destruct (Hactor _ _ _ _ _ _ _ Hact) as [Hlp Hent].
  destruct (Himagine _ _ _ _ _ _ _ Him) as [Hh' Hz'].
  destruct Hshape_pre as ((_ & Hfz) & (_ & Hfh) & (_ & Hflp) & (_ & Hfent)).
  assert (t ∉ seq (S t) (horison_length - S t)) as Hnot
    by (rewrite elem_of_seq; lia).
  destruct (rollout_loop_untouched _ _ _ _ _ t Hrest Hnot) as (-> & -> & -> & ->).
  exists pre, next, w_t, w_a, w_i, actions, lp, ent.
  split; [done|]. split.
  { intros ->. by injection Hpre as <- _. }
  split; [done|]. split; [done|]. split.
  { replace (seq 0 (S t)) with (seq 0 t ++ [t]) by (by rewrite seq_S).
    rewrite rollout_loop_app, Hpre. cbn [rollout_loop].
    by rewrite (bind_Ok_intro _ _ _ _ _ Hstep). }
  split; [eapply assign_slot_same; eauto; simpl in *; congruence|].
  split; [eapply assign_slot_same; eauto; simpl in *; congruence|].
  split; eapply assign_slot_same; eauto; simpl in *; congruence.
Qed.

End RolloutRecords.

Lemma toy_actor_batchwise : Explorer.actor_batchwise (MD := Toy.modules).
Proof.
  intros z h w actions lp ent w' Hrun. simpl in Hrun.
  apply bind_Ok_inv in Hrun as (r & w1 & _ & Hret).
  apply ret_Ok_inv in Hret as [[= _ -> ->] _].
  by rewrite !length_map.
Qed.

Lemma toy_imagine_batchwise : Explorer.imagine_batchwise (MD := Toy.modules).
Proof.
  intros actions z h w h' z' w' Hrun. simpl in Hrun.
  apply ret_Ok_inv in Hrun as [[= -> ->] _].
  rewrite length_map, length_zip_with, length_app.
  split; [done | apply Nat.min_l, Nat.le_add_l].
Qed.

Lemma rollout_witness :
  exists st w',
    Explorer.imagine_rollout (MD := Toy.modules) [1; 2] [0; 0] 3 (World [4; 1] [])
      = (Ok st, w')
    /\ Explorer.recorded_shape 3 2 2 st.
Proof.
  assert (exists st w',
            Explorer.imagine_rollout (MD := Toy.modules) [1; 2] [0; 0] 3 (World [4; 1] [])
            = (Ok st, w')) as (st & w' & Hrun)
    by (eexists _, _; lazy -[INR IZR Rabs Rplus Rminus Rmult Rdiv Rinv Ropp]; reflexivity).
  exists st, w'. split; [exact Hrun|].
  exact (proj1 (rollout_stores_post_state_and_pre_policy (MD := Toy.modules)
                  [1; 2] [0; 0] 3 _ _ _
                  toy_actor_batchwise toy_imagine_batchwise Hrun)).
Defined.

(** ** Explorer: the actor loss *)

Section Matrices.

(** A matrix of shape (rows, cols), entry by entry. *)
Lemma list_tabulate {A} (l : list A) (d : A) :
  l = map (fun i => nth i l d) (seq 0 (length l)).
Proof.
  induction l as [|x l IH]; [done|].
  cbn [length seq map nth]. f_equal.
  rewrite <- seq_shift, map_map. exact IH.
Qed.

Lemma matrix_tabulate (m : list (list R)) rows cols :
  length m = rows -> Forall (fun r => length r = cols) m ->
  m = map (fun t => map (fun b => Explorer.at2 m t b) (seq 0 cols)) (seq 0 rows).
Proof.
  intros Hrows Hcols.
  rewrite (list_tabulate m []) at 1. rewrite Hrows.
  apply map_ext_in. intros t Ht%in_seq.
  assert (length (nth t m []) = cols) as Hlen.
  { assert (is_Some (m !! t)) as [r Hr] by (apply lookup_lt_is_Some; lia).
    rewrite (nth_lookup_Some _ _ _ _ Hr).
    exact (proj1 (Forall_lookup _ _) Hcols _ _ Hr). }
  rewrite (list_tabulate (nth t m []) 0%R) at 1. by rewrite Hlen.
Qed.

Lemma zip_with_map_same {A B C D} (g : B -> C -> D) (F : A -> B) (G : A -> C) l :
  zip_with g (map F l) (map G l) = map (fun x => g (F x) (G x)) l.
Proof. induction l as [|x l IH]; [done|]. cbn [map zip_with]. by f_equal. Qed.

Lemma zip_with_tabulated (g : R -> R -> R) (F G : nat -> nat -> R) (ts bs : list nat) :
  zip_with (zip_with g)
    (map (fun t => map (F t) bs) ts) (map (fun t => map (G t) bs) ts)
  = map (fun t => map (fun b => g (F t b) (G t b)) bs) ts.
Proof.
  rewrite zip_with_map_same. apply map_ext. intros t. apply zip_with_map_same.
Qed.

Lemma sum_map_plus {A} (f g : A -> R) (l : list A) :
  Torch.sum (map (fun x => f x + g x)%R l)
  = (Torch.sum (map f l) + Torch.sum (map g l))%R.
Proof.
  induction l as [|x l IH]; cbn [map]; [unfold Torch.sum; simpl; lra|].
  rewrite !sum_cons, IH. lra.
Qed.

Lemma sum_map_zero {A} (l : list A) : Torch.sum (map (fun _ => 0%R) l) = 0%R.
Proof.
  induction l as [|x l IH]; cbn [map]; [done|]. rewrite sum_cons, IH. lra.
Qed.

Lemma sum_map_div {A} (f : A -> R) (c : R) (l : list A) :
  Torch.sum (map (fun x => f x / c)%R l) = (Torch.sum (map f l) / c)%R.
Proof.
  induction l as [|x l IH]; cbn [map].
  - unfold Torch.sum; simpl. unfold Rdiv. lra.
  - rewrite !sum_cons, IH. unfold Rdiv. lra.
Qed.

(** Summing over time then batch equals summing over batch then time. *)
Lemma sum_exchange (f : nat -> nat -> R) (ts bs : list nat) :
  Torch.sum (map (fun t => Torch.sum (map (fun b => f t b) bs)) ts)
  = Torch.sum (map (fun b => Torch.sum (map (fun t => f t b) ts)) bs).
Proof.
  induction ts as [|t ts IH]; cbn [map].
  - change (Torch.sum []) with 0%R. by rewrite sum_map_zero.
  - rewrite sum_cons, IH.
    rewrite <- sum_map_plus. f_equal.
Qed.

End Matrices.

Section ActorLoss.
Import Explorer.
Context {MD : Modules}.

Lemma tabulated_same_shape (F G : nat -> nat -> R) (ts bs : list nat) :
  Forall2 (fun x y : list R => length x = length y)
    (map (fun t => map (F t) bs) ts) (map (fun t => map (G t) bs) ts).
Proof.
  induction ts as [|t ts IH]; cbn [map]; constructor; [|done].
  by rewrite !length_map.
Qed.

Lemma sum_scalars_values (xs : list R) :
  Torch.sum_scalars (map Torch.Value xs) = Torch.Value (Torch.sum xs).
Proof.
  induction xs as [|x xs IH]; [done|].
  cbn [map]. unfold Torch.sum_scalars in *. cbn [foldr]. rewrite IH.
  by rewrite sum_cons.
Qed.

Lemma mean_dim1_values {A} (f : A -> list R) (l : list A) :
  Forall (fun x => f x <> []) l ->
  Torch.mean_dim1 (map f l) = map Torch.Value (map (fun x => Torch.mean (f x)) l).
Proof.
  unfold Torch.mean_dim1. induction 1 as [|x l Hx _ IH]; [done|].
  cbn [map]. rewrite IH. f_equal. unfold Torch.mean_or_nan.
  by destruct (f x).
Qed.

Lemma actor_loss_tabulated (scale : R) (LP ENT LT TV : nat -> nat -> R)
    (horizon batch : nat) :
  0 < batch ->
  actor_loss_of scale
    (map (fun t => map (LP t) (seq 0 batch)) (seq 0 horizon))
    (map (fun t => map (ENT t) (seq 0 batch)) (seq 0 horizon))
    (map (fun t => map (LT t) (seq 0 batch)) (seq 0 horizon))
    (map (fun t => map (TV t) (seq 0 batch)) (seq 0 horizon))
  = Ok (Torch.Value
          (- Torch.mean
               (map (fun b =>
                       Torch.sum
                         (map (fun t => LP t b * (LT t b - TV t b) + scale * ENT t b)
                            (seq 0 horizon)))
                  (seq 0 batch)))%R).
Proof.
  intros Hbatch. unfold actor_loss_of.
  rewrite broadcast2_same by apply tabulated_same_shape.
  cbn [mbind outcome_bind obind]. rewrite zip_with_tabulated.
  rewrite (broadcast2_same Rmult) by apply tabulated_same_shape.
  cbn [mbind outcome_bind obind]. rewrite zip_with_tabulated.
  assert (map (map (Rmult scale))
            (map (fun t => map (ENT t) (seq 0 batch)) (seq 0 horizon))
          = map (fun t => map (fun b => scale * ENT t b)%R (seq 0 batch))
              (seq 0 horizon)) as ->.
  { rewrite map_map. apply map_ext. intros t. by rewrite map_map. }
  rewrite (broadcast2_same Rplus) by apply tabulated_same_shape.
  cbn [mbind outcome_bind obind mret outcome_ret]. rewrite zip_with_tabulated.
  rewrite mean_dim1_values
    by (apply Forall_forall; intros t _; destruct batch; [lia | done]).
  rewrite sum_scalars_values. cbn [Torch.neg]. do 3 f_equal.
  unfold Torch.mean.
  rewrite (map_ext _
             (fun t => Torch.sum
                         (map (fun b => LP t b * (LT t b - TV t b) + scale * ENT t b)
                            (seq 0 batch))
                       / INR batch)%R)
    by (intros t; by rewrite length_map, length_seq).
  rewrite (sum_map_div
             (fun t => Torch.sum
                         (map (fun b => LP t b * (LT t b - TV t b) + scale * ENT t b)%R
                            (seq 0 batch)))).
  rewrite length_map, length_seq. f_equal.
  apply (sum_exchange
           (fun t b => LP t b * (LT t b - TV t b) + scale * ENT t b)%R).
Qed.

(** The loss of lines 110-111 is the negated batch mean of the
    per-trajectory sums. *)
Lemma actor_loss_code_is_spec (scale : R)
    (log_probs entropys lambda_target target_values : list (list R))
    (horizon batch : nat) :
  length log_probs = horizon /\ Forall (fun r => length r = batch) log_probs ->
  length entropys = horizon /\ Forall (fun r => length r = batch) entropys ->
  length lambda_target = horizon /\ Forall (fun r => length r = batch) lambda_target ->
  length target_values = horizon /\ Forall (fun r => length r = batch) target_values ->
  0 < batch ->
  actor_loss_of scale log_probs entropys lambda_target target_values
  = Ok (Torch.Value (spec_actor_loss horizon batch scale
                       log_probs entropys lambda_target target_values)).
Proof.
  intros [Hlp1 Hlp2] [He1 He2] [Hlt1 Hlt2] [Htv1 Htv2] Hbatch.
  unfold spec_actor_loss.
  rewrite <- (actor_loss_tabulated scale (at2 log_probs) (at2 entropys)
                (at2 lambda_target) (at2 target_values) horizon batch Hbatch).
  f_equal; by apply matrix_tabulate.
Qed.

Lemma length_concat_shape {A} (m : list (list A)) rows cols :
  length m = rows -> Forall (fun r => length r = cols) m ->
  length (concat m) = rows * cols.
Proof.
  intros <- Hcols. induction Hcols as [|r m Hr _ IH]; [done|].
  cbn [concat length]. rewrite length_app, IH, Hr. lia.
Qed.

Lemma chunks_shape {A} count size (x : list A) :
  length x = count * size ->
  length (chunks count size x) = count
  /\ Forall (fun r => length r = size) (chunks count size x).
Proof.
  revert x. induction count as [|count IH]; intros x Hlen; cbn [chunks].
  - split; [done | constructor].
  - destruct (IH (drop size x)) as [Hl Hf].
    { rewrite length_drop. lia. }
    split; [simpl; by rewrite Hl|].
    constructor; [|done]. rewrite length_take. lia.
Qed.

Lemma view_rows_shape rows cols (x : list R) m :
  view_rows rows x = Ok m -> length x = rows * cols ->
  length m = rows /\ Forall (fun r => length r = cols) m.
Proof.
  unfold view_rows. intros Hview Hlen.
  destruct (decide (rows = 0)); [discriminate|].
  destruct (decide (length x mod rows = 0)); [|discriminate].
  injection Hview as <-.
  assert (length x / rows = cols) as ->.
  { rewrite Hlen, Nat.mul_comm. apply Nat.div_mul. done. }
  by apply chunks_shape.
Qed.

Lemma same_shape_as (a b : list (list R)) rows cols :
  Forall2 (fun x y => length x = length y) a b ->
  length b = rows /\ Forall (fun r => length r = cols) b ->
  length a = rows /\ Forall (fun r => length r = cols) a.
Proof.
  intros Hab [Hrows Hcols]. split.
  - by rewrite (Forall2_length _ _ _ Hab).
  - clear Hrows. induction Hab as [|x y a b Hxy _ IH]; [constructor|].
    apply Forall_cons in Hcols as [Hy Hcols].
    constructor; [congruence | by apply IH].
Qed.

(** C4. On a non-empty batch (over an empty one torch's mean is nan)
    the actor loss [train] returns is a number,
    the negated mean over the batch of the sum over timesteps of
    log-probability times advantage
    plus [actor_entropy_scale] times entropy, where the advantage is
    the lambda-return target minus the target critic's value and the
    target is what the external utility returns on (rewards, discount,
    target-critic values, lambda). *)
Theorem actor_loss_is_negated_batch_mean
    (self self' : explorer) (init_zs : list Zrow) (init_hs : list Hrow)
    (horison_length : nat) (w w' : world) (actor_loss critic_loss : Torch.scalar) :
  actor_batchwise -> imagine_batchwise ->
  reward_batchwise -> critic_batchwise -> lambda_target_shaped ->
  0 < length init_zs ->
  train self init_zs init_hs horison_length w
    = (Ok ((actor_loss, critic_loss), self'), w') ->
  exists (st : rollout) (rewards target_values : list (list R)),
    imagine_rollout init_zs init_hs horison_length w = (Ok st, w')
    /\ view_rows horison_length
         (instrinsic_reward (concat (imagined_zs st)) (concat (imagined_hs st)))
       = Ok rewards
    /\ view_rows horison_length
         (critic_forward (target_critic self)
            (concat (imagined_zs st)) (concat (imagined_hs st)))
       = Ok target_values
    /\ actor_loss
       = Torch.Value
           (spec_actor_loss horison_length (length init_zs) (actor_entropy_scale self)
              (imagined_action_log_probs st) (imagined_action_entropys st)
              (compute_lambda_target rewards (discount self) target_values
                 (lambda_ self))
              target_values).
Proof.
  intros Hactor Himagine Hreward Hcritic Hlambda Hbatch Hrun.
  unfold train in Hrun.
  apply bind_Ok_inv in Hrun as (st & w1 & Hroll & Hrun).
  apply bind_Ok_inv in Hrun as (rewards & w2 & Hrew & Hrun).
  apply lift_Ok_inv in Hrew as [Hrew ->].
  apply bind_Ok_inv in Hrun as (target_values & w3 & Htv & Hrun).
  apply lift_Ok_inv in Htv as [Htv ->].
  apply bind_Ok_inv in Hrun as (al & w4 & Hal & Hrun).
  apply lift_Ok_inv in Hal as [Hal ->].
  apply bind_Ok_inv in Hrun as (vm & w5 & Hvm & Hrun).
  apply lift_Ok_inv in Hvm as [Hvm ->].
  apply bind_Ok_inv in Hrun as (cl & w6 & Hcl & Hrun).
  apply lift_Ok_inv in Hcl as [Hcl ->].
  apply ret_Ok_inv in Hrun as [[= -> -> ->] ->].
  destruct (imagine_rollout_shape _ _ _ _ _ _ Hroll) as (Hz & Hh & Hlp & Hent).
  pose proof (length_concat_shape _ _ _ (proj1 Hz) (proj2 Hz)) as Hflat.
  assert (length rewards = horison_length
          /\ Forall (fun r => length r = length init_zs) rewards) as Hrs.
  { eapply view_rows_shape; [exact Hrew|]. by rewrite Hreward. }
  assert (length target_values = horison_length
          /\ Forall (fun r => length r = length init_zs) target_values) as Htvs.
  { eapply view_rows_shape; [exact Htv|]. by rewrite Hcritic. }
  pose proof (same_shape_as _ _ _ _
                (Hlambda rewards (discount self) target_values (lambda_ self)) Hrs)
    as Hlts.
  exists st, rewards, target_values.
  split; [done|]. split; [done|]. split; [done|].
  rewrite (actor_loss_code_is_spec _ _ _ _ _ horison_length (length init_zs))
    in Hal by done.
  by injection Hal.
Qed.

End ActorLoss.

Lemma toy_reward_batchwise : Explorer.reward_batchwise (MD := Toy.modules).
Proof. intros z h. simpl. by rewrite length_map. Qed.

Lemma toy_critic_batchwise : Explorer.critic_batchwise (MD := Toy.modules).
Proof. intros params z h. simpl. by rewrite length_map. Qed.

Lemma toy_lambda_target_shaped : Explorer.lambda_target_shaped (MD := Toy.modules).
Proof.
  intros rewards discount values lam. simpl.
  induction rewards as [|r rewards IH]; cbn [map]; constructor; [|done].
  by rewrite length_map.
Qed.

Lemma actor_loss_witness :
  exists actor_loss critic_loss self' w' st,
    Explorer.train (MD := Toy.modules) Toy.explorer0 [1; 2] [0; 0] 3 (World [4; 1] [])
      = (Ok ((actor_loss, critic_loss), self'), w')
    /\ Explorer.imagine_rollout (MD := Toy.modules) [1; 2] [0; 0] 3 (World [4; 1] [])
       = (Ok st, w').
Proof.
  assert (exists actor_loss critic_loss self' w',
            Explorer.train (MD := Toy.modules) Toy.explorer0 [1; 2] [0; 0] 3
              (World [4; 1] [])
            = (Ok ((actor_loss, critic_loss), self'), w'))
    as (actor_loss & critic_loss & self' & w' & Hrun)
    by (eexists _, _, _, _;
        lazy -[INR IZR Rabs Rplus Rminus Rmult Rdiv Rinv Ropp ln sqrt PI]; reflexivity).
  destruct (actor_loss_is_negated_batch_mean (MD := Toy.modules)
              Toy.explorer0 self' [1; 2] [0; 0] 3 _ w' actor_loss critic_loss
              toy_actor_batchwise toy_imagine_batchwise toy_reward_batchwise
              toy_critic_batchwise toy_lambda_target_shaped ltac:(simpl; lia) Hrun)
    as (st & rewards & target_values & Hroll & _).
  by exists actor_loss, critic_loss, self', w', st.
Defined.

(** ** Explorer: the target critic *)

Section TargetCritic.
Import Explorer.
Context {MD : Modules}.

Lemma input_for_same_shape (p q : tensor) :
  shape p = shape q -> input_for p q = Some q.
Proof.
  unfold input_for. intros ->. by destruct (shape q) as [|[|?] [|??]].
Qed.

Lemma load_state_dict_same (own sd : gmap string tensor) :
  same_architecture own sd -> load_state_dict own sd = Ok sd.
Proof.
  intros [Hdom Hshape]. unfold load_state_dict.
  assert (forall k p, own !! k = Some p -> exists q, sd !! k = Some q /\ shape p = shape q)
    as Hboth.
  { intros k p Hp.
    assert (k ∈ dom sd) as [q Hq]%elem_of_dom
      by (rewrite <- Hdom; apply elem_of_dom; eauto).
    exists q. split; [done | by eapply Hshape]. }
  destruct (decide (map_Forall _ own)) as [_|Hno].
  - destruct (decide (_ /\ _)) as [_|Hno].
    + f_equal. apply map_eq. intros k. rewrite map_lookup_imap.
      destruct (own !! k) as [p|] eqn:Hp; simpl.
      * destruct (Hboth k p Hp) as (q & Hq & Hpq).
        unfold copy_entry. rewrite Hq. simpl.
        rewrite (input_for_same_shape _ _ Hpq). simpl.
        destruct q as [sq dq]. simpl in Hpq. by rewrite Hpq.
      * symmetry. apply not_elem_of_dom. rewrite <- Hdom. by apply not_elem_of_dom.
    + destruct Hno. split; [done|]. apply map_Forall_lookup. intros k p Hp.
      destruct (Hboth k p Hp) as (q & Hq & Hpq). unfold fits. rewrite Hq. simpl.
      rewrite (input_for_same_shape _ _ Hpq). by apply bool_decide_eq_true.
  - destruct Hno. apply map_Forall_lookup. intros k p Hp.
    destruct (Hboth k p Hp) as (q & Hq & Hpq). unfold lacks_element. rewrite Hq.
    by rewrite (input_for_same_shape _ _ Hpq).
Qed.

Lemma train_keeps_self self init_zs init_hs horison_length w losses self' w' :
  train self init_zs init_hs horison_length w = (Ok (losses, self'), w') ->
  self' = self.
Proof.
  unfold train. intros Hrun.
  apply bind_Ok_inv in Hrun as (st & w1 & _ & Hrun).
  apply bind_Ok_inv in Hrun as (rewards & w2 & _ & Hrun).
  apply bind_Ok_inv in Hrun as (target_values & w3 & _ & Hrun).
  apply bind_Ok_inv in Hrun as (al & w4 & _ & Hrun).
  apply bind_Ok_inv in Hrun as (vm & w5 & _ & Hrun).
  apply bind_Ok_inv in Hrun as (cl & w6 & _ & Hrun).
  by apply ret_Ok_inv in Hrun as [[= _ ->] _].
Qed.

Lemma train_calls_keep_self self calls w losses self' w' :
  train_calls self calls w = (Ok (losses, self'), w') -> self' = self.
Proof.
  revert self w losses self' w'. induction calls as [|[[zs0 hs0] n] calls IH];
    intros self w losses self' w'; cbn [train_calls].
  - by intros [[= _ ->] _]%ret_Ok_inv.
  - intros Hrun.
    apply bind_Ok_inv in Hrun as ([l1 self1] & w1 & Htrain & Hrun).
    apply bind_Ok_inv in Hrun as ([rest self2] & w2 & Hrest & Hrun).
    apply ret_Ok_inv in Hrun as [[= _ ->] _].
    apply train_keeps_self in Htrain as ->. by eapply IH.
Qed.

(** C5. [update_critic] overwrites the target critic with the online
    critic's parameters as they are at the call, key by key and value
    by value, and leaves the online critic alone; [train] returns its
    losses and the object unchanged, so after any number of [train]
    calls the target critic still equals that copy. *)
Theorem update_critic_copies_train_preserves (self : explorer) :
  same_architecture (target_critic self) (critic self) ->
  exists self',
    update_critic self = Ok (tt, self')
    /\ target_critic self' = critic self
    /\ critic self' = critic self
    /\ (forall init_zs init_hs horison_length w losses self'' w',
          train self' init_zs init_hs horison_length w = (Ok (losses, self''), w') ->
          self'' = self')
    /\ (forall calls w losses self'' w',
          train_calls self' calls w = (Ok (losses, self''), w') ->
          target_critic self'' = critic self /\ critic self'' = critic self).
Proof.
  intros Harch. unfold update_critic.
  rewrite (load_state_dict_same _ _ Harch).
  eexists. split; [reflexivity|]. simpl.
  split; [done|]. split; [done|]. split.
  - intros * Hrun. by apply train_keeps_self in Hrun.
  - intros * Hrun. by apply train_calls_keep_self in Hrun as ->.
Qed.

End TargetCritic.

Lemma toy_same_architecture :
  Explorer.same_architecture
    (Explorer.target_critic Toy.explorer0) (Explorer.critic Toy.explorer0).
Proof.
  unfold Explorer.same_architecture, Toy.explorer0, Toy.critic_params. simpl.
  split; [by rewrite !dom_singleton_L|].
  intros k p q [_ <-]%lookup_singleton_Some [_ <-]%lookup_singleton_Some. done.
Qed.

Lemma update_critic_witness :
  exists self',
    Explorer.update_critic Toy.explorer0 = Ok (tt, self')
    /\ Explorer.target_critic self' = Toy.critic_params 2.
Proof.
  destruct (update_critic_copies_train_preserves (MD := Toy.modules)
              Toy.explorer0 toy_same_architecture)
    as (self' & Hrun & Htarget & _).
  exists self'. split; [exact Hrun | exact Htarget].
Defined.

(** * Further properties of the code *)

(** ** get_future_goal_idxs: the size of the enumeration *)

Section EnumerationSize.
Import TemporalLatentDistanceReward.

Lemma length_bind_singleton {A B} (h : A -> B) (l : list A) :
  length (l ≫= (fun x => [h x])) = length l.
Proof. induction l as [|x l IH]; [done|]. rewrite bind_cons. simpl. by rewrite IH. Qed.

Lemma triangle_iterations (n a m : nat) :
  m = a + n ->
  length (seq a n ≫= (fun cur => seq cur (m - cur) ≫= (fun goal => [(cur, goal)]))) * 2
  = n * (n + 1).
Proof.
  revert a. induction n as [|n IH]; intros a Hm; [done|].
  rewrite <- cons_seq, bind_cons, length_app, length_bind_singleton, length_seq.
  rewrite Nat.mul_add_distr_r, (IH (S a)) by lia.
  replace (m - a) with (S n) by lia. lia.
Qed.

Lemma length_loop_iterations (seq_len : nat) :
  length (loop_iterations seq_len) = seq_len * (seq_len + 1) / 2.
Proof.
  unfold loop_iterations.
  rewrite <- (triangle_iterations seq_len 0 seq_len) by done.
  by rewrite Nat.div_mul.
Qed.

Lemma length_concat_blocks {A} (f : A -> nat) (l : list A) bs :
  length (concat ((fun it => block (f it) bs) <$> l)) = bs * length l.
Proof.
  induction l as [|it l IH]; [simpl; lia|].
  rewrite fmap_cons, concat_cons, length_app, length_block, IH. simpl. lia.
Qed.

Lemma get_future_goal_idxs_length seq_len bs all_cur all_goal :
  get_future_goal_idxs seq_len bs = Ok (all_cur, all_goal) ->
  length all_cur = bs * (seq_len * (seq_len + 1) / 2)
  /\ length all_goal = bs * (seq_len * (seq_len + 1) / 2).
Proof.
  unfold get_future_goal_idxs.
  destruct (_ <$> loop_iterations seq_len) eqn:E; [discriminate|].
  rewrite <- E. intros [= <- <-].
  by rewrite (length_concat_blocks fst), (length_concat_blocks snd),
    length_loop_iterations.
Qed.

(** X1. For a positive [seq_len], [get_future_goal_idxs] returns two
    index arrays of bs * seq_len * (seq_len + 1) / 2 rows each; for
    [seq_len = 0] there is nothing to concatenate and it raises the
    [ValueError] of [np.concatenate]. *)
Theorem get_future_goal_idxs_size (seq_len bs : nat) :
  (seq_len = 0 ->
   get_future_goal_idxs seq_len bs = Raise (ValueError Np.msg_concat_empty))
  /\ (0 < seq_len ->
      exists all_cur all_goal,
        get_future_goal_idxs seq_len bs = Ok (all_cur, all_goal)
        /\ length all_cur = bs * (seq_len * (seq_len + 1) / 2)
        /\ length all_goal = bs * (seq_len * (seq_len + 1) / 2)).
Proof.
  split.
  - by intros ->.
  - intros Hpos.
    destruct (get_future_goal_idxs_total seq_len bs Hpos) as (ac & ag & Henum).
    exists ac, ag. split; [done|]. by apply get_future_goal_idxs_length.
Qed.

Lemma get_future_goal_idxs_size_witness :
  exists all_cur all_goal,
    get_future_goal_idxs 3 2 = Ok (all_cur, all_goal) /\ length all_cur = 12.
Proof.
  destruct (proj2 (get_future_goal_idxs_size 3 2) ltac:(lia))
    as (ac & ag & Henum & Hlen & _).
  exists ac, ag. split; [exact Henum | exact Hlen].
Defined.

End EnumerationSize.

(** ** train: when the positive sampling succeeds *)

Section PositiveSamplingOutcome.
Import TemporalLatentDistanceReward.

Lemma NoDup_below_length (idx : list nat) n :
  NoDup idx -> Forall (fun i => i < n) idx -> length idx <= n.
Proof.
  intros Hnd Hlt. rewrite <- (length_seq n 0).
  apply submseteq_length, NoDup_submseteq; [done|].
  intros x Hx. apply elem_of_seq.
  assert (x < n) by exact (proj1 (Forall_forall _ _) Hlt x Hx). lia.
Qed.

Lemma sample_positives_oversized horison_length batch_size num_positives w
    all_cur all_goal :
  get_future_goal_idxs horison_length batch_size = Ok (all_cur, all_goal) ->
  length all_cur < num_positives ->
  sample_positives horison_length batch_size num_positives w
  = (Raise (ValueError (if decide (length all_cur = 0)
                        then Np.msg_empty_population else Np.msg_larger_sample)),
     World (entropy w) (trace w ++ [RandomChoice (length all_cur) num_positives])).
Proof.
  intros Henum Hlt. unfold sample_positives.
  erewrite bind_Ok_intro by (unfold lift; by rewrite Henum).
  cbn beta iota. apply bind_Raise_intro.
  unfold Np.choice_no_replace.
  erewrite bind_Ok_intro by reflexivity.
  destruct (decide (length all_cur = 0 /\ num_positives <> 0)) as [[H0 _]|Hno].
  - by rewrite decide_True.
  - assert (length all_cur <> 0) as Hne by (intros H0; apply Hno; split; [done | lia]).
    rewrite (decide_False (P := length all_cur = 0)) by done.
    destruct (decide (length all_cur < num_positives)); [done | lia].
Qed.

(** X2. The positive sampling succeeds exactly when the horizon is
    positive and no more pairs are asked for than the
    bs * H * (H + 1) / 2 enumerated; with a zero horizon it raises the
    [ValueError] of the empty concatenation before drawing anything, and
    with too many pairs asked the [ValueError] of [np.random.choice]. *)
Theorem sample_positives_succeeds_iff
    (horison_length batch_size num_positives : nat) (w : world) :
  let available := batch_size * (horison_length * (horison_length + 1) / 2) in
  ((exists current_idx goal_idx w',
       sample_positives horison_length batch_size num_positives w
       = (Ok (current_idx, goal_idx), w'))
   <-> 0 < horison_length /\ num_positives <= available)
  /\ (horison_length = 0 ->
      sample_positives horison_length batch_size num_positives w
      = (Raise (ValueError Np.msg_concat_empty), w))
  /\ (0 < horison_length -> available < num_positives ->
      sample_positives horison_length batch_size num_positives w
      = (Raise (ValueError (if decide (available = 0)
                            then Np.msg_empty_population else Np.msg_larger_sample)),
         World (entropy w) (trace w ++ [RandomChoice available num_positives]))).
Proof.
  intros available. split; [split|split].
  - intros (cur & goal & w' & Hrun).
    apply sample_positives_inv in Hrun
      as (ac & ag & idx & Henum & Hlen & Hnd & Hcur & _).
    destruct (get_future_goal_idxs_zip _ _ _ _ Henum) as (_ & _ & Hpos).
    destruct (get_future_goal_idxs_length _ _ _ _ Henum) as [Hac _].
    split; [done|]. subst available. rewrite <- Hac, <- Hlen.
    apply NoDup_below_length; [done|].
    apply Forall_forall. intros i Hi.
    apply list_elem_of_lookup in Hi as [n Hn].
    destruct (Forall2_lookup_l _ _ _ _ _ Hcur Hn) as (x & _ & Hx).
    by eapply lookup_lt_Some.
  - intros [Hpos Hk]. apply sample_positives_total; [done|].
    intros ac ag Henum.
    destruct (get_future_goal_idxs_length _ _ _ _ Henum) as [-> _]. done.
  - by intros ->.
  - intros Hpos Hk.
    destruct (get_future_goal_idxs_total horison_length batch_size Hpos)
      as (ac & ag & Henum).
    destruct (get_future_goal_idxs_length _ _ _ _ Henum) as [Hac _].
    rewrite (sample_positives_oversized _ _ _ _ _ _ Henum) by (rewrite Hac; exact Hk).
    by rewrite Hac.
Qed.

Lemma sample_positives_succeeds_witness :
  sample_positives 2 2 7 (World [5] [])
  = (Raise (ValueError Np.msg_larger_sample), World [5] [RandomChoice 6 7]).
Proof.
  exact (proj2 (proj2 (sample_positives_succeeds_iff 2 2 7 (World [5] [])))
           ltac:(lia) ltac:(simpl; lia)).
Defined.

End PositiveSamplingOutcome.

(** ** get_future_goal_idxs_neg_sampling: when it succeeds *)

Section NegativeSamplingOutcome.
Import TemporalLatentDistanceReward.

Lemma candidates_nonempty batch_length bs c :
  0 < batch_length -> batch_length < bs -> c < bs ->
  exists j cands, other_episode_candidates batch_length bs c = Ok (j :: cands).
Proof.
  intros Hbl Hbs Hc. unfold other_episode_candidates.
  rewrite decide_False by lia. rewrite decide_False by lia.
  set (other := if decide (c / batch_length = 0) then bs - 1 else 0).
  assert (other ∈ filter (fun j => j / batch_length <> c / batch_length) (seq 0 bs))
    as Hin.
  { apply list_elem_of_filter. subst other. split.
    - destruct (decide (c / batch_length = 0)) as [Hq|Hq].
      + rewrite Hq. apply Nat.neq_0_lt_0, Nat.div_str_pos. lia.
      + rewrite Nat.Div0.div_0_l. done.
    - apply elem_of_seq. destruct (decide (c / batch_length = 0)); lia. }
  destruct (filter _ _) as [|j cands]; [by apply elem_of_nil in Hin | eauto].
Qed.

Lemma choice1_total (x0 : nat) (cands : list nat) w :
  exists x w', Np.choice1 (x0 :: cands) w = (Ok x, w')
               /\ trace w' = trace w ++ [RandomChoice1 (x0 :: cands)].
Proof.
  unfold Np.choice1. erewrite bind_Ok_intro by reflexivity.
  destruct (draw_Ok (World (entropy w) (trace w ++ [RandomChoice1 (x0 :: cands)])))
    as (r & w1 & Hd & Ht).
  rewrite (bind_Ok_intro _ _ _ _ _ Hd). eexists _, w1. split; [reflexivity | done].
Qed.

Lemma resample_goals_total batch_length bs ixs cur_idxs goal_idxs w :
  0 < batch_length -> batch_length < bs ->
  Forall (fun c : nat * nat => c.2 < bs) cur_idxs ->
  Forall (fun i => i < length cur_idxs /\ i < length goal_idxs) ixs ->
  exists goal' w', resample_goals batch_length bs ixs cur_idxs goal_idxs w = (Ok goal', w').
Proof.
  intros Hbl Hbs Hcur. revert goal_idxs w.
  induction ixs as [|i ixs IH]; intros goal_idxs w Hix; cbn [resample_goals].
  - by eexists _, _.
  - apply Forall_cons in Hix as [[Hic Hig] Hix].
    destruct (lookup_lt_is_Some_2 _ _ Hic) as [c Hc].
    destruct (lookup_lt_is_Some_2 _ _ Hig) as [g Hg].
    rewrite Hc, Hg.
    assert (c.2 < bs) as Hcb by exact (proj1 (Forall_lookup _ _) Hcur _ _ Hc).
    destruct (candidates_nonempty _ _ _ Hbl Hbs Hcb) as (j0 & cands & Hcands).
    erewrite bind_Ok_intro by (unfold lift; by rewrite Hcands).
    destruct (choice1_total j0 cands w) as (j & w1 & Hj & _).
    rewrite (bind_Ok_intro _ _ _ _ _ Hj).
    apply IH. eapply Forall_impl; [exact Hix|].
    intros i' [? ?]. by rewrite length_insert.
Qed.

Lemma neg_sampling_total batch_length num_negs seq_len bs w :
  0 < batch_length -> batch_length < bs -> 0 < seq_len -> (0 <= num_negs)%Z ->
  exists cur_idxs goal_idxs w',
    get_future_goal_idxs_neg_sampling batch_length num_negs seq_len bs w
    = (Ok (cur_idxs, goal_idxs), w').
Proof.
  intros Hbl Hbs Hseq Hn. unfold get_future_goal_idxs_neg_sampling.
  destruct (randint_pairs_total num_negs seq_len bs w) as (cur & w1 & Hcur & _ & Hl1);
    [done | done | lia |].
  destruct (randint_pairs_total num_negs seq_len bs w1) as (goal & w2 & Hgoal & _ & Hl2);
    [done | done | lia |].
  rewrite (bind_Ok_intro _ _ _ _ _ Hcur), (bind_Ok_intro _ _ _ _ _ Hgoal).
  apply randint_pairs_Ok in Hcur as (_ & _ & Hfc).
  destruct (resample_goals_total batch_length bs (seq 0 (Z.to_nat num_negs)) cur goal w2)
    as (goal' & w3 & Hres); [done | done | | |].
  - eapply Forall_impl; [exact Hfc|]. by intros p [_ ?].
  - apply Forall_forall. intros i Hi%elem_of_seq. lia.
  - rewrite (bind_Ok_intro _ _ _ _ _ Hres). by eexists _, _, _.
Qed.

(** X3. With a positive [batch_length], a positive horizon and at least
    one negative pair asked for, the negative sampling succeeds exactly
    when [batch_size] exceeds [batch_length], that is when the batch
    holds a second episode; whether it succeeds does not depend on what
    is drawn. *)
Theorem neg_sampling_succeeds_iff
    (batch_length : nat) (num_negs : Z) (seq_len bs : nat) (w : world) :
  0 < batch_length -> 0 < seq_len -> (0 < num_negs)%Z ->
  ((exists cur_idxs goal_idxs w',
       get_future_goal_idxs_neg_sampling batch_length num_negs seq_len bs w
       = (Ok (cur_idxs, goal_idxs), w'))
   <-> batch_length < bs).
Proof.
  intros Hbl Hseq Hn. split.
  - intros (cur & goal & w' & Hrun).
    apply neg_sampling_Ok in Hrun as (_ & Hlc & Hlg & Hpairs).
    destruct (lookup_lt_is_Some_2 cur 0) as [c Hc]; [lia|].
    destruct (lookup_lt_is_Some_2 goal 0) as [g Hg]; [lia|].
    destruct (Hpairs 0 c g Hc Hg) as (_ & Hcb & _ & Hgb & Hne).
    destruct (decide (batch_length < bs)) as [|Hsmall]; [done|].
    destruct Hne. rewrite !Nat.div_small by lia. done.
  - intros Hbs. apply neg_sampling_total; [done | done | done | lia].
Qed.

Lemma neg_sampling_succeeds_witness :
  exists cur_idxs goal_idxs w',
    get_future_goal_idxs_neg_sampling 2 3 5 4 (World [7; 1; 2] [])
    = (Ok (cur_idxs, goal_idxs), w').
Proof.
  apply (neg_sampling_succeeds_iff 2 3 5 4 (World [7; 1; 2] []));
    [lia | lia | lia | lia].
Defined.

End NegativeSamplingOutcome.

(** ** TemporalLatentDistanceReward.train: the other ways it fails *)

Section TemporalTrainErrors.
Import TemporalLatentDistanceReward.
Context {NN : Networks}.

Lemma neg_sampling_zero_batch_length num_negs seq_len bs w :
  0 < bs -> 0 < seq_len -> (0 < num_negs)%Z ->
  exists w',
    get_future_goal_idxs_neg_sampling 0 num_negs seq_len bs w
      = (Raise ZeroDivisionError, w')
    /\ trace w' = trace w ++ [RandomRandint num_negs; RandomRandint num_negs].
Proof.
  intros Hbs Hseq Hn. unfold get_future_goal_idxs_neg_sampling.
  destruct (randint_pairs_total num_negs seq_len bs w) as (cur & w1 & Hcur & Ht1 & Hl1);
    [lia | done | done |].
  destruct (randint_pairs_total num_negs seq_len bs w1) as (goal & w2 & Hgoal & Ht2 & Hl2);
    [lia | done | done |].
  rewrite (bind_Ok_intro _ _ _ _ _ Hcur), (bind_Ok_intro _ _ _ _ _ Hgoal).
  destruct (Z.to_nat num_negs) as [|n] eqn:Hnat; [lia|].
  destruct cur as [|c cur]; [discriminate|].
  destruct goal as [|g goal]; [discriminate|].
  exists w2. split.
  - apply bind_Raise_intro. simpl. apply bind_Raise_intro.
    unfold lift, other_episode_candidates.
    rewrite decide_False by lia. by rewrite decide_True.
  - rewrite Ht2, Ht1. by rewrite <- app_assoc.
Qed.

(** X4. With [batch_length = 0] and at least one negative pair asked
    for, [train] runs the positive step, draws both negative index
    arrays and then raises [ZeroDivisionError] from the episode quotient
    of the first candidate. *)
Theorem train_zero_batch_length_divides_by_zero
    (zs : list (list Zrow)) (hs : list (list Hrow))
    (num_positives : nat) (neg_sampling_factor : number) (num_negatives : Z)
    (horison_length batch_size : nat) (w w1 : world) (loss_pos : Torch.scalar) :
  0 < batch_size ->
  positive_step zs hs num_positives horison_length batch_size w = (Ok loss_pos, w1) ->
  num_negatives_of num_positives neg_sampling_factor = Ok num_negatives ->
  (0 < num_negatives)%Z ->
  exists w',
    train zs hs num_positives neg_sampling_factor horison_length batch_size 0 w
      = (Raise ZeroDivisionError, w')
    /\ trace w' =
         trace w1 ++ [RandomRandint num_negatives; RandomRandint num_negatives].
Proof.
  intros Hbs Hpos Hcount Hn.
  pose proof (positive_step_horizon _ _ _ _ _ _ _ _ Hpos) as Hseq.
  destruct (neg_sampling_zero_batch_length _ horison_length batch_size w1 Hbs Hseq Hn)
    as (w' & Hneg & Htrace).
  exists w'. split; [|done].
  unfold train. rewrite (bind_Ok_intro _ _ _ _ _ Hpos).
  erewrite bind_Ok_intro by (unfold lift; by rewrite Hcount).
  apply bind_Raise_intro. unfold negative_step. by apply bind_Raise_intro.
Qed.

(** X5. When [num_positives * neg_sampling_factor] truncates to a
    negative count, [train] runs the positive step and then raises the
    [ValueError] of [np.random.randint] for a negative size, having drawn
    no negative index. *)
Theorem train_negative_count_refused
    (zs : list (list Zrow)) (hs : list (list Hrow))
    (num_positives : nat) (neg_sampling_factor : number) (num_negatives : Z)
    (horison_length batch_size batch_length : nat) (w w1 : world)
    (loss_pos : Torch.scalar) :
  positive_step zs hs num_positives horison_length batch_size w = (Ok loss_pos, w1) ->
  num_negatives_of num_positives neg_sampling_factor = Ok num_negatives ->
  (num_negatives < 0)%Z ->
  train zs hs num_positives neg_sampling_factor horison_length batch_size batch_length w
  = (Raise (ValueError Np.msg_negative_dim),
     World (entropy w1) (trace w1 ++ [RandomRandint num_negatives])).
Proof.
  intros Hpos Hcount Hn. unfold train. rewrite (bind_Ok_intro _ _ _ _ _ Hpos).
  erewrite bind_Ok_intro by (unfold lift; by rewrite Hcount).
  apply bind_Raise_intro. unfold negative_step. apply bind_Raise_intro.
  unfold get_future_goal_idxs_neg_sampling. apply bind_Raise_intro.
  unfold Np.randint_pairs. erewrite bind_Ok_intro by reflexivity.
  by rewrite decide_True.
Qed.

End TemporalTrainErrors.

Lemma toy_positive_step :
  exists loss_pos w1,
    TemporalLatentDistanceReward.positive_step (NN := Toy.networks)
      Toy.zs22 Toy.hs22 1 2 2 (World [3; 1; 0; 1; 1] []) = (Ok loss_pos, w1).
Proof.
  eexists _, _. lazy -[INR IZR Rabs Rplus Rminus Rmult Rdiv Rinv Ropp]. reflexivity.
Qed.

Lemma train_zero_batch_length_witness :
  exists w',
    TemporalLatentDistanceReward.train (NN := Toy.networks) Toy.zs22 Toy.hs22
      1 (Float Toy.double_1) 2 2 0 (World [3; 1; 0; 1; 1] [])
    = (Raise ZeroDivisionError, w').
Proof.
  destruct toy_positive_step as (loss_pos & w1 & Hpos).
  destruct (train_zero_batch_length_divides_by_zero (NN := Toy.networks)
              Toy.zs22 Toy.hs22 1 (Float Toy.double_1) 1 2 2 _ _ _ ltac:(lia) Hpos
              ltac:(reflexivity) ltac:(lia))
    as (w' & Hrun & _).
  by exists w'.
Defined.

Lemma train_negative_count_witness :
  exists w',
    TemporalLatentDistanceReward.train (NN := Toy.networks) Toy.zs22 Toy.hs22
      1 (Float Toy.double_minus_1_5) 2 2 1 (World [3; 1; 0; 1; 1] [])
    = (Raise (ValueError Np.msg_negative_dim), w').
Proof.
  destruct toy_positive_step as (loss_pos & w1 & Hpos).
  eexists.
  exact (train_negative_count_refused (NN := Toy.networks)
           Toy.zs22 Toy.hs22 1 (Float Toy.double_minus_1_5) (-1) 2 2 1 _ _ _ Hpos
           ltac:(reflexivity) ltac:(lia)).
Defined.

(** ** TemporalLatentDistanceReward.train: labels, success, the loss *)

Section TemporalTrainSuccess.
Import TemporalLatentDistanceReward TemporalContract.
Context {NN : Networks}.

Lemma sampled_positive_pairs horison_length batch_size num_positives w w'
    current_idx goal_idx :
  sample_positives horison_length batch_size num_positives w
    = (Ok (current_idx, goal_idx), w') ->
  length current_idx = num_positives /\ length goal_idx = num_positives
  /\ forall n (c g : nat * nat),
       current_idx !! n = Some c -> goal_idx !! n = Some g ->
       c.1 <= g.1 /\ g.1 < horison_length /\ c.2 = g.2 /\ c.2 < batch_size.
Proof.
  intros Hrun.
  apply sample_positives_inv in Hrun
    as (all_cur & all_goal & idx & Henum & Hlen & Hnd & Hcur & Hgoal).
  destruct (get_future_goal_idxs_zip _ _ _ _ Henum) as (Hzip & _ & _).
  split; [by rewrite <- (Forall2_length _ _ _ Hcur)|].
  split; [by rewrite <- (Forall2_length _ _ _ Hgoal)|].
  intros n c g Hc Hg.
  destruct (Forall2_lookup_r _ _ _ _ _ Hcur Hc) as (i & Hi & Hci).
  destruct (Forall2_lookup_r _ _ _ _ _ Hgoal Hg) as (i' & Hi' & Hgi).
  assert (i' = i) as -> by congruence.
  apply enumerated_pairs_elem. rewrite <- Hzip.
  apply (list_elem_of_lookup_2 _ i), lookup_zip_with_Some. eauto.
Qed.

(** X6. No positive pair is labelled like a negative one: the target
    of every sampled positive pair is at most (H - 1) / H, hence
    strictly below the negative target 1, and it is 0 exactly when the
    goal is the current timestep. *)
Theorem positive_targets_below_negative_target
    (horison_length batch_size num_positives : nat) (w w' : world)
    (current_idx goal_idx : list (nat * nat)) :
  sample_positives horison_length batch_size num_positives w
    = (Ok (current_idx, goal_idx), w') ->
  length (positive_target horison_length current_idx goal_idx) = num_positives
  /\ forall n (c g : nat * nat),
       current_idx !! n = Some c -> goal_idx !! n = Some g ->
       positive_target horison_length current_idx goal_idx !! n
         = Some (time_gap horison_length g c)
       /\ (time_gap horison_length g c
           <= (INR horison_length - 1) / INR horison_length)%R
       /\ (time_gap horison_length g c < 1)%R
       /\ (time_gap horison_length g c = 0%R <-> g.1 = c.1).
Proof.
  intros Hrun.
  destruct (sampled_positive_pairs _ _ _ _ _ _ _ Hrun) as (Hlc & Hlg & Hrange).
  split.
  { unfold positive_target. rewrite length_zip_with. lia. }
  intros n c g Hc Hg.
  destruct (Hrange n c g Hc Hg) as (Hle & Hlt & _ & _).
  assert (0 < INR horison_length)%R as Hh by (apply lt_0_INR; lia).
  assert (INR c.1 <= INR g.1)%R as Hcg by (by apply le_INR).
  assert (INR g.1 + 1 <= INR horison_length)%R as Hgh.
  { rewrite <- S_INR. apply le_INR. lia. }
  assert (0 <= INR c.1)%R as Hc0 by apply pos_INR.
  assert (time_gap horison_length g c
          <= (INR horison_length - 1) / INR horison_length)%R as Hmax.
  { rewrite time_gap_eq. unfold Rdiv. apply Rmult_le_compat_r; [|lra].
    left. by apply Rinv_0_lt_compat. }
  split; [unfold positive_target; apply lookup_zip_with_Some; eauto|].
  split; [done|]. split.
  - eapply Rle_lt_trans; [exact Hmax|].
    apply (Rmult_lt_reg_r (INR horison_length)); [done|].
    unfold Rdiv. rewrite Rmult_assoc, Rinv_l by lra. lra.
  - rewrite time_gap_eq. split.
    + intros Hz.
      assert (INR g.1 - INR c.1 = 0)%R as Hd.
      { apply (Rmult_eq_reg_r (/ INR horison_length)).
        - unfold Rdiv in Hz. lra.
        - apply Rinv_neq_0_compat. lra. }
      apply INR_eq. lra.
    + intros ->. unfold Rdiv. lra.
Qed.

Lemma index2_total {A} (x : list (list A)) horison_length batch_size
    (idx : list (nat * nat)) :
  covers x horison_length batch_size ->
  Forall (fun p : nat * nat => p.1 < horison_length /\ p.2 < batch_size) idx ->
  exists rows, Torch.index2 x idx = Ok rows /\ length rows = length idx.
Proof.
  intros Hcov Hidx. induction Hidx as [|p idx [Ht Hb] _ (rows & Hrows & Hlen)].
  - by exists [].
  - destruct (Hcov _ _ Ht Hb) as (row & v & Hrow & Hv).
    exists (v :: rows). split; [|simpl; by rewrite Hlen].
    unfold Torch.index2 in *. cbn [omap]. rewrite Hrow, Hv. cbn [obind].
    by rewrite Hrows.
Qed.

Lemma predicted_distance_total zs hs horison_length batch_size
    (current_idx goal_idx : list (nat * nat)) :
  encoder_batchwise -> estimator_batchwise ->
  covers zs horison_length batch_size -> covers hs horison_length batch_size ->
  Forall (fun p : nat * nat => p.1 < horison_length /\ p.2 < batch_size) current_idx ->
  Forall (fun p : nat * nat => p.1 < horison_length /\ p.2 < batch_size) goal_idx ->
  length current_idx = length goal_idx ->
  exists pred, predicted_distance zs hs current_idx goal_idx = Ok pred
               /\ length pred = length current_idx.
Proof.
  intros Henc Hest Hzs Hhs Hcur Hgoal Hlen.
  destruct (index2_total zs _ _ _ Hzs Hcur) as (czs & Hczs & Hl1).
  destruct (index2_total hs _ _ _ Hhs Hcur) as (chs & Hchs & Hl2).
  destruct (index2_total zs _ _ _ Hzs Hgoal) as (gzs & Hgzs & Hl3).
  destruct (index2_total hs _ _ _ Hhs Hgoal) as (ghs & Hghs & Hl4).
  eexists. unfold predicted_distance.
  rewrite Hczs, Hchs, Hgzs, Hghs. split; [reflexivity|].
  rewrite Hest; rewrite !Henc; congruence.
Qed.

Lemma mse_loss_same_length (pred target : list R) :
  length pred = length target ->
  Torch.mse_loss pred target
  = Ok (Torch.mean_or_nan (zip_with (fun p t => (p - t) * (p - t))%R pred target)).
Proof.
  intros Hlen. unfold Torch.mse_loss. by rewrite broadcast1_same.
Qed.

Lemma sum_nonneg (xs : list R) : Forall (fun x => 0 <= x)%R xs -> (0 <= Torch.sum xs)%R.
Proof.
  induction 1 as [|x xs Hx _ IH]; [unfold Torch.sum; simpl; lra|].
  rewrite sum_cons. lra.
Qed.

Lemma mean_squares_nonneg (pred target : list R) :
  (0 <= Torch.mean (zip_with (fun p t => (p - t) * (p - t))%R pred target))%R.
Proof.
  unfold Torch.mean. apply Rmult_le_pos.
  - apply sum_nonneg. apply Forall_forall.
    intros x (i & p & t & -> & _ & _)%elem_of_lookup_zip_with.
    apply Rle_0_sqr.
  - destruct (length _) as [|n]; [simpl; rewrite Rinv_0; lra|].
    left. apply Rinv_0_lt_compat, lt_0_INR. lia.
Qed.

Lemma regression_loss_total zs hs horison_length batch_size
    (current_idx goal_idx : list (nat * nat)) (target : list R) w :
  encoder_batchwise -> estimator_batchwise ->
  covers zs horison_length batch_size -> covers hs horison_length batch_size ->
  Forall (fun p : nat * nat => p.1 < horison_length /\ p.2 < batch_size) current_idx ->
  Forall (fun p : nat * nat => p.1 < horison_length /\ p.2 < batch_size) goal_idx ->
  length current_idx = length goal_idx -> length target = length current_idx ->
  exists pred,
    predicted_distance zs hs current_idx goal_idx = Ok pred
    /\ length pred = length target
    /\ regression_loss zs hs current_idx goal_idx target w
       = (Ok (Torch.mean_or_nan
                (zip_with (fun p t => (p - t) * (p - t))%R pred target)),
          World (entropy w) (trace w ++ regression_events)).
Proof.
  intros Henc Hest Hzs Hhs Hcur Hgoal Hlen Htarget.
  destruct (predicted_distance_total zs hs _ _ _ _ Henc Hest Hzs Hhs Hcur Hgoal Hlen)
    as (pred & Hpred & Hlp).
  exists pred. split; [done|]. split; [congruence|].
  rewrite regression_loss_run, Hpred, mse_loss_same_length by congruence.
  by rewrite <- !app_assoc.
Qed.

Lemma pairs_in_range horison_length batch_size (cur goal : list (nat * nat)) :
  length cur = length goal ->
  (forall n (c g : nat * nat), cur !! n = Some c -> goal !! n = Some g ->
     c.1 < horison_length /\ c.2 < batch_size
     /\ g.1 < horison_length /\ g.2 < batch_size) ->
  Forall (fun p : nat * nat => p.1 < horison_length /\ p.2 < batch_size) cur
  /\ Forall (fun p : nat * nat => p.1 < horison_length /\ p.2 < batch_size) goal.
Proof.
  intros Hlen Hpairs. split; apply Forall_lookup; intros n p Hp.
  - destruct (lookup_lt_is_Some_2 goal n) as [g Hg];
      [rewrite <- Hlen; by eapply lookup_lt_Some|].
    destruct (Hpairs n p g Hp Hg) as (? & ? & _). done.
  - destruct (lookup_lt_is_Some_2 cur n) as [c Hc];
      [rewrite Hlen; by eapply lookup_lt_Some|].
    destruct (Hpairs n c p Hc Hp) as (_ & _ & ? & ?). done.
Qed.

Lemma mean_or_nan_nonempty (xs : list R) :
  0 < length xs -> Torch.mean_or_nan xs = Torch.Value (Torch.mean xs).
Proof. destruct xs; [simpl; lia | done]. Qed.

Lemma mean_or_nan_empty (xs : list R) :
  length xs = 0 -> Torch.mean_or_nan xs = Torch.Nan.
Proof. by destruct xs. Qed.

(** X7. [train] returns, whatever is drawn, once its inputs meet what
    the code needs: a positive horizon, no more positive pairs than
    enumerated, a batch of more than [batch_length] > 0 columns, a
    product [num_positives * neg_sampling_factor] that truncates to a
    non-negative count, latent tensors covering the (horizon, batch)
    grid, and collaborators that keep the batch dimension.  The positive
    pairs are those [sample_positives] draws, the negative pairs those
    [get_future_goal_idxs_neg_sampling] draws after the positive step,
    and the loss is the sum of the two [F.mse_loss] values: that of the
    predicted distances of the positive pairs against their labels and
    that of the predicted distances of the negative pairs against 1.
    With at least one pair of each kind the loss is a number, the sum of
    the two means of squared errors, and is not negative; with no
    positive pair or no negative pair it is nan. *)
Theorem train_returns_loss_of_sampled_pairs
    (zs : list (list Zrow)) (hs : list (list Hrow))
    (num_positives : nat) (neg_sampling_factor : number) (num_negatives : Z)
    (horison_length batch_size batch_length : nat) (w : world) :
  encoder_batchwise -> estimator_batchwise ->
  covers zs horison_length batch_size -> covers hs horison_length batch_size ->
  0 < horison_length ->
  num_positives <= batch_size * (horison_length * (horison_length + 1) / 2) ->
  0 < batch_length -> batch_length < batch_size ->
  num_negatives_of num_positives neg_sampling_factor = Ok num_negatives ->
  (0 <= num_negatives)%Z ->
  exists (pos_cur pos_goal neg_cur neg_goal : list (nat * nat))
         (pred_pos pred_neg : list R) (w1 w3 : world) (loss : Torch.scalar),
    let w2 := World (entropy w1) (trace w1 ++ regression_events) in
    let w' := World (entropy w3) (trace w3 ++ regression_events) in
    let sq_pos := zip_with (fun p t => (p - t) * (p - t))%R pred_pos
                    (positive_target horison_length pos_cur pos_goal) in
    let sq_neg := zip_with (fun p t => (p - t) * (p - t))%R pred_neg
                    (negative_target num_negatives) in
    train zs hs num_positives neg_sampling_factor
          horison_length batch_size batch_length w = (Ok loss, w')
    /\ sample_positives horison_length batch_size num_positives w
       = (Ok (pos_cur, pos_goal), w1)
    /\ get_future_goal_idxs_neg_sampling batch_length num_negatives
         horison_length batch_size w2 = (Ok (neg_cur, neg_goal), w3)
    /\ predicted_distance zs hs pos_cur pos_goal = Ok pred_pos
    /\ predicted_distance zs hs neg_cur neg_goal = Ok pred_neg
    /\ length sq_pos = num_positives
    /\ length sq_neg = Z.to_nat num_negatives
    /\ Torch.mse_loss pred_pos (positive_target horison_length pos_cur pos_goal)
       = Ok (Torch.mean_or_nan sq_pos)
    /\ Torch.mse_loss pred_neg (negative_target num_negatives)
       = Ok (Torch.mean_or_nan sq_neg)
    /\ loss = Torch.add (Torch.mean_or_nan sq_pos) (Torch.mean_or_nan sq_neg)
    /\ (0 < num_positives -> (0 < num_negatives)%Z ->
        loss = Torch.Value (Torch.mean sq_pos + Torch.mean sq_neg)%R
        /\ (0 <= Torch.mean sq_pos + Torch.mean sq_neg)%R)
    /\ (num_positives = 0 \/ num_negatives = 0%Z -> loss = Torch.Nan).
Proof.
  intros Henc Hest Hzs Hhs Hh Hk Hbl Hbs Hcount Hn.
  set (n := num_negatives) in *.
  destruct (sample_positives_total horison_length batch_size num_positives w Hh)
    as (pc & pg & w1 & Hsp).
  { intros ac ag Henum.
    destruct (get_future_goal_idxs_length _ _ _ _ Henum) as [-> _]. done. }
  destruct (sampled_positive_pairs _ _ _ _ _ _ _ Hsp) as (Hlpc & Hlpg & Hprange).
  destruct (pairs_in_range horison_length batch_size pc pg) as [Hpcr Hpgr];
    [congruence | |].
  { intros i c g Hc Hg. destruct (Hprange i c g Hc Hg) as (? & ? & ? & ?).
    repeat split; [lia | done | done | congruence]. }
  destruct (regression_loss_total zs hs _ _ pc pg
              (positive_target horison_length pc pg) w1
              Henc Hest Hzs Hhs Hpcr Hpgr)
    as (pred_pos & Hpp & Hlpp & Hrp); [congruence | |].
  { unfold positive_target. rewrite length_zip_with. lia. }
  set (w2 := World (entropy w1) (trace w1 ++ regression_events)) in *.
  destruct (neg_sampling_total batch_length n horison_length batch_size w2
              Hbl Hbs Hh Hn) as (nc & ng & w3 & Hsn).
  destruct (neg_sampling_Ok _ _ _ _ _ _ _ _ Hsn) as (_ & Hlnc & Hlng & Hnrange).
  destruct (pairs_in_range horison_length batch_size nc ng) as [Hncr Hngr];
    [congruence | |].
  { intros i c g Hc Hg. destruct (Hnrange i c g Hc Hg) as (? & ? & ? & ? & _). done. }
  destruct (regression_loss_total zs hs _ _ nc ng (negative_target n) w3
              Henc Hest Hzs Hhs Hncr Hngr)
    as (pred_neg & Hpn & Hlpn & Hrn); [congruence | |].
  { unfold negative_target. rewrite length_replicate. done. }
  set (sq_pos := zip_with (fun p t => (p - t) * (p - t))%R pred_pos
                   (positive_target horison_length pc pg)) in *.
  set (sq_neg := zip_with (fun p t => (p - t) * (p - t))%R pred_neg
                   (negative_target n)) in *.
  assert (positive_step zs hs num_positives horison_length batch_size w
          = (Ok (Torch.mean_or_nan sq_pos), w2)) as Hps.
  { unfold positive_step. rewrite (bind_Ok_intro _ _ _ _ _ Hsp). exact Hrp. }
  assert (negative_step zs hs n horison_length batch_size batch_length w2
          = (Ok (Torch.mean_or_nan sq_neg),
             World (entropy w3) (trace w3 ++ regression_events))) as Hns.
  { unfold negative_step. rewrite (bind_Ok_intro _ _ _ _ _ Hsn). exact Hrn. }
  assert (length sq_pos = num_positives) as Hlsp.
  { subst sq_pos. rewrite length_zip_with, Hlpp. unfold positive_target.
    rewrite length_zip_with. lia. }
  assert (length sq_neg = Z.to_nat n) as Hlsn.
  { subst sq_neg. rewrite length_zip_with, Hlpn. unfold negative_target.
    rewrite length_replicate. lia. }
  exists pc, pg, nc, ng, pred_pos, pred_neg, w1, w3,
    (Torch.add (Torch.mean_or_nan sq_pos) (Torch.mean_or_nan sq_neg)).
  cbv zeta. fold w2 sq_pos sq_neg.
  split.
  { unfold train. rewrite (bind_Ok_intro _ _ _ _ _ Hps).
    erewrite bind_Ok_intro by (unfold lift; by rewrite Hcount).
    rewrite (bind_Ok_intro _ _ _ _ _ Hns). reflexivity. }
  split; [done|]. split; [done|]. split; [done|]. split; [done|].
  split; [done|]. split; [done|].
  split; [apply mse_loss_same_length; congruence|].
  split; [apply mse_loss_same_length; congruence|].
  split; [done|]. split.
  - intros Hp Hnn.
    rewrite !mean_or_nan_nonempty by lia. split; [done|].
    assert (0 <= Torch.mean sq_pos)%R by apply mean_squares_nonneg.
    assert (0 <= Torch.mean sq_neg)%R by apply mean_squares_nonneg.
    lra.
  - intros [Hz | Hz].
    + by rewrite (mean_or_nan_empty sq_pos) by lia.
    + rewrite (mean_or_nan_empty sq_neg) by lia. by destruct (Torch.mean_or_nan sq_pos).
Qed.

End TemporalTrainSuccess.

Lemma toy_encoder_batchwise : TemporalContract.encoder_batchwise (NN := Toy.networks).
Proof.
  intros z h Hlen. simpl. rewrite length_zip_with.
  apply Nat.min_l, Nat.eq_le_incl, Hlen.
Qed.

Lemma toy_estimator_batchwise : TemporalContract.estimator_batchwise (NN := Toy.networks).
Proof.
  intros a b Hlen. simpl. rewrite length_zip_with.
  apply Nat.min_l, Nat.eq_le_incl, Hlen.
Qed.

Lemma toy_covers {A} (a b c d : A) : TemporalContract.covers [[a; b]; [c; d]] 2 2.
Proof.
  intros t b0 Ht Hb.
  assert (t = 0 \/ t = 1) as [-> | ->] by lia;
    assert (b0 = 0 \/ b0 = 1) as [-> | ->] by lia; simpl; eauto.
Qed.

Lemma positive_targets_witness :
  length (TemporalLatentDistanceReward.positive_target 2
            [(1, 0); (0, 0); (0, 0)] [(1, 0); (0, 0); (1, 0)]) = 3.
Proof.
  assert (TemporalLatentDistanceReward.sample_positives 2 2 3 (World [4; 0; 1] [])
          = (Ok ([(1, 0); (0, 0); (0, 0)], [(1, 0); (0, 0); (1, 0)]),
             World [] [RandomChoice 6 3])) as Hrun by reflexivity.
  exact (proj1 (positive_targets_below_negative_target _ _ _ _ _ _ _ Hrun)).
Defined.

Lemma train_returns_witness :
  exists loss w',
    TemporalLatentDistanceReward.train (NN := Toy.networks) Toy.zs22 Toy.hs22
      2 (Float Toy.double_1) 2 2 1 (World [3; 1; 0; 1; 1; 0; 5; 2; 1; 1; 0; 4] [])
    = (Ok loss, w').
Proof.
  destruct (train_returns_loss_of_sampled_pairs (NN := Toy.networks) Toy.zs22 Toy.hs22
              2 (Float Toy.double_1) 2 2 2 1
              (World [3; 1; 0; 1; 1; 0; 5; 2; 1; 1; 0; 4] [])
              toy_encoder_batchwise toy_estimator_batchwise
              (toy_covers _ _ _ _) (toy_covers _ _ _ _)
              ltac:(lia) ltac:(simpl; lia) ltac:(lia) ltac:(lia)
              ltac:(reflexivity) ltac:(lia))
    as (pos_cur & pos_goal & neg_cur & neg_goal & pred_pos & pred_neg & w1 & w3
        & loss & Hrun & _).
  by eexists _, _.
Defined.

(** ** CosineLatentDistanceReward.compute_reward: shapes *)

Section CosineShapes.
Import CosineLatentDistanceReward.
Context {WM : WorldModel}.

Lemma broadcast_mismatch {A B C} (f : A -> B -> outcome C) (a : list A) (b : list B) :
  length a <> length b -> length a <> 1 -> length b <> 1 ->
  Torch.broadcast f a b = Raise (RuntimeError Torch.msg_broadcast).
Proof.
  intros Hab Ha Hb. unfold Torch.broadcast.
  rewrite decide_False by done.
  destruct a as [|x [|x' a]]; destruct b as [|y [|y' b]]; simpl in *; done.
Qed.

Lemma broadcast_right_singleton {A B C} (f : A -> B -> outcome C) (a : list A) (y : B) :
  length a <> 1 -> Torch.broadcast f a [y] = omap (fun x => f x y) a.
Proof.
  intros Ha. unfold Torch.broadcast.
  rewrite decide_False by done.
  destruct a as [|x [|x' a]]; simpl in *; done.
Qed.

Lemma broadcast1_mismatch (f : R -> R -> R) (a b : list R) :
  length a <> length b -> length a <> 1 -> length b <> 1 ->
  Torch.broadcast1 f a b = Raise (RuntimeError Torch.msg_broadcast).
Proof. apply broadcast_mismatch. Qed.

Lemma omap_Ok_map {A B} (f : A -> outcome B) (g : A -> B) (xs : list A) :
  (forall x, x ∈ xs -> f x = Ok (g x)) -> omap f xs = Ok (map g xs).
Proof.
  induction xs as [|x xs IH]; intros Hf; [done|].
  cbn [omap map]. rewrite (Hf x) by left. cbn [obind].
  rewrite IH by (intros y Hy; apply Hf; by right). done.
Qed.

Lemma broadcast1_right_singleton (f : R -> R -> R) (a : list R) (y : R) :
  length a <> 1 -> Torch.broadcast1 f a [y] = Ok (map (fun x => f x y) a).
Proof.
  intros Ha. unfold Torch.broadcast1.
  rewrite broadcast_right_singleton by done. by apply omap_Ok_map.
Qed.

Lemma broadcast2_right_singleton (f : R -> R -> R) (a : list (list R)) (y : list R) :
  length a <> 1 -> Forall (fun x => length x = length y) a ->
  Torch.broadcast2 f a [y] = Ok (map (fun x => zip_with f x y) a).
Proof.
  intros Ha Hrows. unfold Torch.broadcast2.
  rewrite broadcast_right_singleton by done. apply omap_Ok_map.
  intros x Hx. apply broadcast1_same.
  exact (proj1 (Forall_forall _ _) Hrows x Hx).
Qed.

(** X8. [compute_reward] raises the [RuntimeError] of a failed
    broadcast when the decoded goal has another batch size than [z] and
    neither size is 1 (at the product of the norms), and when the batch
    sizes agree but the first rows have different lengths, neither of
    them 1 (at the element-wise product). *)
Theorem cosine_reward_shape_mismatch {Hs : Type} (h_dim : nat)
    (z : list (list R)) (h : Hs) (goal_emb : GoalEmb) :
  let goal_state := decoded_goal h_dim (length z) goal_emb in
  (length z <> length goal_state -> length z <> 1 -> length goal_state <> 1 ->
   compute_reward h_dim z h goal_emb = Raise (RuntimeError Torch.msg_broadcast))
  /\ (forall a z' b g',
        z = a :: z' -> goal_state = b :: g' -> length z' = length g' ->
        length a <> length b -> length a <> 1 -> length b <> 1 ->
        compute_reward h_dim z h goal_emb = Raise (RuntimeError Torch.msg_broadcast)).
Proof.
  intros goal_state. split.
  - intros Hne Hz Hg. unfold compute_reward. fold goal_state.
    rewrite broadcast1_mismatch; [done | | |];
      unfold Torch.norm_dim1; by rewrite !length_map.
  - intros a z' b g' Hzeq Hgeq Hlen Hab Ha Hb.
    unfold compute_reward. fold goal_state. rewrite Hgeq, Hzeq.
    rewrite broadcast1_same
      by (unfold Torch.norm_dim1; rewrite !length_map; simpl; by rewrite Hlen).
    cbn [mbind outcome_bind obind].
    unfold Torch.broadcast2, Torch.broadcast.
    rewrite decide_True by (simpl; by rewrite Hlen).
    cbn [zip zip_with omap fst snd].
    by rewrite broadcast1_mismatch.
Qed.

Lemma cosine_rows_shared (z : list (list R)) (g0 : list R) :
  zip_with Rdiv
    (Torch.sum_dim1 (map (fun a => zip_with Rmult a g0) z))
    (add_scalar 1e-8 (map (fun n => n * Torch.norm g0)%R (Torch.norm_dim1 z)))
  = map (fun a => cosine_similarity a g0) z.
Proof.
  induction z as [|a z IH]; [done|].
  cbn [map Torch.sum_dim1 Torch.norm_dim1 add_scalar zip_with] in *.
  f_equal. exact IH.
Qed.

(** X9. When the goal decodes to a single row, that row is shared by
    the whole batch: the reward of every row of [z] is its cosine
    similarity with the one decoded goal vector. *)
Theorem cosine_reward_shared_goal {Hs : Type} (h_dim : nat)
    (z : list (list R)) (h : Hs) (goal_emb : GoalEmb) (g0 : list R) :
  decoded_goal h_dim (length z) goal_emb = [g0] ->
  Forall (fun a => length a = length g0) z ->
  compute_reward h_dim z h goal_emb = Ok (map (fun a => cosine_similarity a g0) z).
Proof.
  intros Hg Hrows.
  destruct (decide (length z = 1)) as [Hone|Hmany].
  - destruct z as [|a [|a' z]]; try discriminate.
    rewrite compute_reward_same_shape; rewrite Hg; [done|].
    apply Forall_cons in Hrows as [Ha _]. by repeat constructor.
  - unfold compute_reward. rewrite Hg.
    cbn [Torch.norm_dim1 map].
    rewrite broadcast1_right_singleton
      by (unfold Torch.norm_dim1; by rewrite length_map).
    cbn [mbind outcome_bind obind].
    rewrite broadcast2_right_singleton by done.
    cbn [mbind outcome_bind obind].
    rewrite broadcast1_same.
    + by rewrite cosine_rows_shared.
    + unfold Torch.sum_dim1, add_scalar, Torch.norm_dim1. by rewrite !length_map.
Qed.

End CosineShapes.

Lemma cosine_reward_shape_mismatch_witness :
  CosineLatentDistanceReward.compute_reward (WM := Toy.worldmodel) 1
    [[1; 0]; [0; 1]; [1; 1]]%R tt [[1; 0]; [0; 1]]%R
  = Raise (RuntimeError Torch.msg_broadcast).
Proof.
  apply (proj1 (cosine_reward_shape_mismatch (WM := Toy.worldmodel) 1
                  [[1; 0]; [0; 1]; [1; 1]]%R tt [[1; 0]; [0; 1]]%R));
    simpl; lia.
Defined.

Lemma cosine_reward_shared_goal_witness :
  exists g0,
    CosineLatentDistanceReward.compute_reward (WM := Toy.worldmodel) 1
      [[1; 0]; [0; 1]; [1; 1]]%R tt [[1; 0]]%R
    = Ok (map (fun a => CosineLatentDistanceReward.cosine_similarity a g0)
            [[1; 0]; [0; 1]; [1; 1]]%R).
Proof.
  eexists.
  apply (cosine_reward_shared_goal (WM := Toy.worldmodel) 1
           [[1; 0]; [0; 1]; [1; 1]]%R tt [[1; 0]]%R).
  - reflexivity.
  - repeat (apply Forall_cons; split; [reflexivity|]). by apply Forall_nil.
Defined.

(** ** Explorer.train: when it returns *)

Section ExplorerTrainOutcome.
Import Explorer ExplorerContract.
Context {MD : Modules}.

Lemma assign_slot_total {A} (buf : list (list A)) t v b :
  t < length buf -> Forall (fun x => length x = b) buf -> length v = b ->
  assign_slot buf t v = Ok (<[t := v]> buf).
Proof.
  intros Ht Hall Hv. unfold assign_slot.
  destruct (lookup_lt_is_Some_2 buf t Ht) as [slot Hslot]. rewrite Hslot.
  assert (length slot = b) as Hb by exact (proj1 (Forall_lookup _ _) Hall _ _ Hslot).
  rewrite decide_True by congruence. done.
Qed.

Lemma rollout_step_total st t w n bz bh :
  actor_total -> imagine_total -> actor_batchwise -> imagine_batchwise ->
  recorded_shape n bz bh st -> length (zs st) = bz -> length (hs st) = bh -> t < n ->
  exists st' w', rollout_step st t w = (Ok st', w')
                 /\ length (zs st') = bz /\ length (hs st') = bh.
Proof.
  intros Hat Hit Hab Hib ((Hz1 & Hz2) & (Hh1 & Hh2) & (Hl1 & Hl2) & (He1 & He2))
    Hzs Hhs Ht.
  destruct (Hat (zs st) (hs st) w) as ([[actions lp] ent] & w1 & Hact).
  destruct (Hit actions (zs st) (hs st) w1) as ([hs' zs'] & w2 & Him).
  destruct (Hab _ _ _ _ _ _ _ Hact) as [Hlp Hent].
  destruct (Hib _ _ _ _ _ _ _ Him) as [Hh' Hz'].
  eexists _, w2. unfold rollout_step.
  rewrite (bind_Ok_intro _ _ _ _ _ Hact). cbn beta iota.
  rewrite (bind_Ok_intro _ _ _ _ _ Him). cbn beta iota.
  erewrite bind_Ok_intro
    by (unfold lift; erewrite (assign_slot_total _ _ _ bh); [done | lia | done | congruence]).
  erewrite bind_Ok_intro
    by (unfold lift; erewrite (assign_slot_total _ _ _ bz); [done | lia | done | congruence]).
  erewrite bind_Ok_intro
    by (unfold lift; erewrite (assign_slot_total _ _ _ bz); [done | lia | done | congruence]).
  erewrite bind_Ok_intro
    by (unfold lift; erewrite (assign_slot_total _ _ _ bz); [done | lia | done | congruence]).
  split; [reflexivity|]. simpl. split; congruence.
Qed.

Lemma rollout_loop_total ts st w n bz bh :
  actor_total -> imagine_total -> actor_batchwise -> imagine_batchwise ->
  recorded_shape n bz bh st -> length (zs st) = bz -> length (hs st) = bh ->
  Forall (fun t => t < n) ts ->
  exists st' w', rollout_loop ts st w = (Ok st', w').
Proof.
  intros Hat Hit Hab Hib. revert st w.
  induction ts as [|t ts IH]; intros st w Hshape Hzs Hhs Hts.
  - by eexists _, _.
  - apply Forall_cons in Hts as [Ht Hts].
    destruct (rollout_step_total st t w n bz bh Hat Hit Hab Hib Hshape Hzs Hhs Ht)
      as (st1 & w1 & Hstep & Hz1 & Hh1).
    cbn [rollout_loop]. rewrite (bind_Ok_intro _ _ _ _ _ Hstep).
    apply IH; [|done|done|done].
    by eapply rollout_step_shape.
Qed.

Lemma imagine_rollout_total init_zs init_hs horison_length w :
  actor_total -> imagine_total -> actor_batchwise -> imagine_batchwise ->
  exists st w', imagine_rollout init_zs init_hs horison_length w = (Ok st, w').
Proof.
  intros Hat Hit Hab Hib. unfold imagine_rollout.
  apply (rollout_loop_total _ _ _ horison_length (length init_zs) (length init_hs));
    try done.
  - apply rollout_init_shape.
  - apply Forall_forall. intros t Ht%elem_of_seq. lia.
Qed.

Lemma view_rows_total rows cols (x : list R) :
  0 < rows -> length x = rows * cols ->
  exists m, view_rows rows x = Ok m.
Proof.
  intros Hrows Hlen. unfold view_rows.
  rewrite decide_False by lia.
  rewrite decide_True; [eauto|].
  rewrite Hlen, Nat.mul_comm. apply Nat.Div0.mod_mul.
Qed.

Lemma shaped_alike (a b : list (list R)) rows cols :
  length a = rows /\ Forall (fun r => length r = cols) a ->
  length b = rows /\ Forall (fun r => length r = cols) b ->
  Forall2 (fun x y => length x = length y) a b.
Proof.
  intros [Ha1 Ha2] [Hb1 Hb2].
  apply Forall2_same_length_lookup. split; [congruence|].
  intros i x y Hx Hy.
  rewrite (proj1 (Forall_lookup _ _) Ha2 _ _ Hx).
  by rewrite (proj1 (Forall_lookup _ _) Hb2 _ _ Hy).
Qed.

Lemma zip_with_shape (f : R -> R -> R) (a b : list (list R)) rows cols :
  length a = rows /\ Forall (fun r => length r = cols) a ->
  length b = rows /\ Forall (fun r => length r = cols) b ->
  length (zip_with (zip_with f) a b) = rows
  /\ Forall (fun r => length r = cols) (zip_with (zip_with f) a b).
Proof.
  intros [Ha1 Ha2] [Hb1 Hb2]. split; [rewrite length_zip_with; lia|].
  apply Forall_forall. intros r (i & x & y & -> & Hx & Hy)%elem_of_lookup_zip_with.
  pose proof (proj1 (Forall_lookup _ _) Ha2 _ _ Hx) as Hlx.
  pose proof (proj1 (Forall_lookup _ _) Hb2 _ _ Hy) as Hly.
  simpl in Hlx, Hly. rewrite length_zip_with. lia.
Qed.

Lemma actor_loss_of_total (scale : R)
    (log_probs entropys lambda_target target_values : list (list R)) rows cols :
  length log_probs = rows /\ Forall (fun r => length r = cols) log_probs ->
  length entropys = rows /\ Forall (fun r => length r = cols) entropys ->
  length lambda_target = rows /\ Forall (fun r => length r = cols) lambda_target ->
  length target_values = rows /\ Forall (fun r => length r = cols) target_values ->
  exists loss,
    actor_loss_of scale log_probs entropys lambda_target target_values = Ok loss.
Proof.
  intros Hlp Hent Hlt Htv. unfold actor_loss_of.
  rewrite (broadcast2_same _ _ _ (shaped_alike _ _ _ _ Hlt Htv)).
  cbn [mbind outcome_bind obind].
  pose proof (zip_with_shape Rminus _ _ _ _ Hlt Htv) as Hadv.
  rewrite (broadcast2_same _ _ _ (shaped_alike _ _ _ _ Hlp Hadv)).
  cbn [mbind outcome_bind obind].
  pose proof (zip_with_shape Rmult _ _ _ _ Hlp Hadv) as Hobj.
  assert (length (map (map (Rmult scale)) entropys) = rows
          /\ Forall (fun r => length r = cols) (map (map (Rmult scale)) entropys))
    as Hscaled.
  { destruct Hent as [He1 He2]. split; [by rewrite length_map|].
    apply Forall_forall. intros r (row & -> & Hin)%list_elem_of_fmap.
    rewrite length_map. exact (proj1 (Forall_forall _ _) He2 _ Hin). }
  rewrite (broadcast2_same _ _ _ (shaped_alike _ _ _ _ Hobj Hscaled)).
  by eexists.
Qed.

(** X10. With collaborators that return and keep the batch dimension,
    [train] returns its two losses exactly when the horizon is
    positive, whatever the initial batch and whatever is drawn; with a
    horizon of 0 it raises the [RuntimeError] of [view(0, -1)] without
    having called the actor or the dynamics model. *)
Theorem explorer_train_returns_iff
    (self : explorer) (init_zs : list Zrow) (init_hs : list Hrow)
    (horison_length : nat) (w : world) :
  actor_total -> imagine_total -> actor_batchwise -> imagine_batchwise ->
  reward_batchwise -> critic_batchwise -> lambda_target_shaped ->
  ((exists actor_loss critic_loss w',
       train self init_zs init_hs horison_length w
       = (Ok ((actor_loss, critic_loss), self), w'))
   <-> 0 < horison_length)
  /\ (horison_length = 0 ->
      train self init_zs init_hs horison_length w
      = (Raise (RuntimeError Torch.msg_view), w)).
Proof.
  intros Hat Hit Hab Hib Hrb Hcb Hls. split; [split|].
  - intros (al & cl & w' & Hrun).
    destruct horison_length; [discriminate | lia].
  - intros Hpos.
    destruct (imagine_rollout_total init_zs init_hs horison_length w Hat Hit Hab Hib)
      as (st & w' & Hroll).
    destruct (imagine_rollout_shape _ _ _ _ _ _ Hroll) as (Hz & Hh & Hlp & Hent).
    pose proof (length_concat_shape _ _ _ (proj1 Hz) (proj2 Hz)) as Hflat.
    destruct (view_rows_total horison_length (length init_zs)
                (instrinsic_reward (concat (imagined_zs st)) (concat (imagined_hs st))))
      as (rewards & Hrew); [done | by rewrite Hrb|].
    destruct (view_rows_total horison_length (length init_zs)
                (critic_forward (target_critic self)
                   (concat (imagined_zs st)) (concat (imagined_hs st))))
      as (tv & Htv); [done | by rewrite Hcb|].
    destruct (view_rows_total horison_length (length init_zs)
                (critic_forward (critic self)
                   (concat (imagined_zs st)) (concat (imagined_hs st))))
      as (vm & Hvm); [done | by rewrite Hcb|].
    assert (length rewards = horison_length
            /\ Forall (fun r => length r = length init_zs) rewards) as Hrs
      by (eapply view_rows_shape; [exact Hrew | by rewrite Hrb]).
    assert (length tv = horison_length
            /\ Forall (fun r => length r = length init_zs) tv) as Htvs
      by (eapply view_rows_shape; [exact Htv | by rewrite Hcb]).
    assert (length vm = horison_length
            /\ Forall (fun r => length r = length init_zs) vm) as Hvms
      by (eapply view_rows_shape; [exact Hvm | by rewrite Hcb]).
    pose proof (same_shape_as _ _ _ _
                  (Hls rewards (discount self) tv (lambda_ self)) Hrs) as Hlts.
    destruct (actor_loss_of_total (actor_entropy_scale self) _ _ _ _ _ _
                Hlp Hent Hlts Htvs) as (al & Hal).
    eexists _, _, w'. unfold train.
    rewrite (bind_Ok_intro _ _ _ _ _ Hroll).
    erewrite bind_Ok_intro by (unfold lift; by rewrite Hrew).
    erewrite bind_Ok_intro by (unfold lift; by rewrite Htv).
    erewrite bind_Ok_intro by (unfold lift; by rewrite Hal).
    erewrite bind_Ok_intro by (unfold lift; by rewrite Hvm).
    erewrite bind_Ok_intro
      by (unfold lift, critic_loss_of;
          rewrite (broadcast2_same _ _ _ (shaped_alike _ _ _ _ Hlts Hvms));
          reflexivity).
    reflexivity.
  - by intros ->.
Qed.

End ExplorerTrainOutcome.

Lemma toy_actor_total : ExplorerContract.actor_total (MD := Toy.modules).
Proof.
  intros z h w. simpl.
  destruct (draw_Ok w) as (r & w1 & Hd & _).
  rewrite (bind_Ok_intro _ _ _ _ _ Hd). by eexists _, _.
Qed.

Lemma toy_imagine_total : ExplorerContract.imagine_total (MD := Toy.modules).
Proof. intros actions z h w. simpl. by eexists _, _. Qed.

Lemma explorer_train_returns_witness :
  exists actor_loss critic_loss w',
    Explorer.train (MD := Toy.modules) Toy.explorer0 [1; 2] [0; 0] 3 (World [4; 1] [])
    = (Ok ((actor_loss, critic_loss), Toy.explorer0), w').
Proof.
  apply (proj1 (explorer_train_returns_iff (MD := Toy.modules)
                  Toy.explorer0 [1; 2] [0; 0] 3 (World [4; 1] [])
                  toy_actor_total toy_imagine_total
                  toy_actor_batchwise toy_imagine_batchwise toy_reward_batchwise
                  toy_critic_batchwise toy_lambda_target_shaped)).
  lia.
Defined.

(** ** Explorer.train: the critic loss *)

Section CriticLoss.
Import Explorer.

Lemma sum_le_const (xs : list R) (k : R) :
  Forall (fun v => v <= k)%R xs -> (Torch.sum xs <= INR (length xs) * k)%R.
Proof.
  induction 1 as [|x xs Hx _ IH].
  - unfold Torch.sum; simpl. lra.
  - rewrite sum_cons. cbn [length]. rewrite S_INR. lra.
Qed.

Lemma sum_eq_const (xs : list R) (k : R) :
  Forall (fun v => v = k) xs -> Torch.sum xs = (INR (length xs) * k)%R.
Proof.
  induction 1 as [|x xs Hx _ IH].
  - unfold Torch.sum; simpl. lra.
  - rewrite sum_cons. cbn [length]. rewrite S_INR, IH, Hx. lra.
Qed.

Lemma mean_le_const (xs : list R) (k : R) :
  0 < length xs -> Forall (fun v => v <= k)%R xs -> (Torch.mean xs <= k)%R.
Proof.
  intros Hlen Hall. unfold Torch.mean.
  assert (0 < INR (length xs))%R as Hn by (apply lt_0_INR; lia).
  apply (Rmult_le_reg_r (INR (length xs))); [done|].
  unfold Rdiv. rewrite Rmult_assoc, Rinv_l by lra.
  pose proof (sum_le_const xs k Hall). lra.
Qed.

Lemma mean_eq_const (xs : list R) (k : R) :
  0 < length xs -> Forall (fun v => v = k) xs -> Torch.mean xs = k.
Proof.
  intros Hlen Hall. unfold Torch.mean.
  assert (0 < INR (length xs))%R as Hn by (apply lt_0_INR; lia).
  rewrite (sum_eq_const xs k Hall). field. lra.
Qed.

Lemma normal_log_prob_le (mu x : R) :
  (normal_log_prob mu x <= - ln (sqrt (2 * PI)))%R.
Proof.
  unfold normal_log_prob. rewrite ln_1.
  pose proof (Rle_0_sqr (x - mu)) as Hsq. unfold Rsqr in Hsq. lra.
Qed.

Lemma normal_log_prob_at_mean (mu : R) :
  normal_log_prob mu mu = (- ln (sqrt (2 * PI)))%R.
Proof. unfold normal_log_prob. rewrite ln_1. lra. Qed.

Lemma ln_sqrt_2pi_positive : (0 < ln (sqrt (2 * PI)))%R.
Proof.
  rewrite <- ln_1. apply ln_increasing; [lra|].
  rewrite <- sqrt_1 at 1. apply sqrt_lt_1; [lra | |]; pose proof PI2_1; lra.
Qed.

(** X11. On (H, B) tensors with H > 0 the critic loss is defined and is
    at least B * ln (sqrt (2 pi)); it takes that value when the critic's
    values equal the lambda-return targets.  With a non-empty batch the
    loss is therefore positive, however good the critic is. *)
Theorem critic_loss_lower_bound
    (value_mean lambda_target : list (list R)) (horizon batch : nat) :
  0 < horizon ->
  length value_mean = horizon /\ Forall (fun r => length r = batch) value_mean ->
  length lambda_target = horizon /\ Forall (fun r => length r = batch) lambda_target ->
  exists loss,
    critic_loss_of value_mean lambda_target = Ok (Torch.Value loss)
    /\ (INR batch * ln (sqrt (2 * PI)) <= loss)%R
    /\ (value_mean = lambda_target -> loss = INR batch * ln (sqrt (2 * PI)))%R
    /\ (0 < batch -> (0 < loss)%R).
Proof.
  intros Hpos Hvm Hlt.
  pose proof (shaped_alike _ _ _ _ Hlt Hvm) as Hshape.
  unfold critic_loss_of. rewrite (broadcast2_same _ _ _ Hshape).
  cbn [mbind outcome_bind obind mret outcome_ret].
  set (rows := zip_with (zip_with (fun x mu => normal_log_prob mu x))
                 lambda_target value_mean).
  assert (length rows = horizon) as Hrows.
  { subst rows. rewrite length_zip_with. destruct Hvm, Hlt. lia. }
  rewrite mean_or_nan_nonempty
    by (unfold Torch.sum_dim1; rewrite length_map; lia).
  cbn [Torch.neg]. eexists. split; [reflexivity|].
  assert (forall row, row ∈ rows ->
            length row = batch
            /\ Forall (fun v => v <= - ln (sqrt (2 * PI)))%R row) as Hrow.
  { intros row (i & x & mu & -> & Hx & Hmu)%elem_of_lookup_zip_with.
    pose proof (proj1 (Forall_lookup _ _) (proj2 Hlt) _ _ Hx) as Hlx.
    pose proof (proj1 (Forall_lookup _ _) (proj2 Hvm) _ _ Hmu) as Hlm.
    simpl in Hlx, Hlm. split.
    - rewrite length_zip_with. lia.
    - apply Forall_forall.
      intros v (j & a & b & -> & _ & _)%elem_of_lookup_zip_with.
      apply normal_log_prob_le. }
  assert (- Torch.mean (Torch.sum_dim1 rows) >= INR batch * ln (sqrt (2 * PI)))%R
    as Hbound; [|split; [lra|split]].
  - assert (Torch.mean (Torch.sum_dim1 rows)
            <= - (INR batch * ln (sqrt (2 * PI))))%R; [|lra].
    apply mean_le_const.
    + unfold Torch.sum_dim1. rewrite length_map. lia.
    + unfold Torch.sum_dim1. apply Forall_forall.
      intros s (row & <- & Hin)%list_elem_of_In%in_map_iff.
      apply list_elem_of_In in Hin. destruct (Hrow row Hin) as [Hlen Hle].
      pose proof (sum_le_const row _ Hle) as Hs. rewrite Hlen in Hs. lra.
  - intros Heq.
    assert (Torch.mean (Torch.sum_dim1 rows)
            = - (INR batch * ln (sqrt (2 * PI))))%R as ->; [|lra].
    apply mean_eq_const.
    + unfold Torch.sum_dim1. rewrite length_map. lia.
    + unfold Torch.sum_dim1. apply Forall_forall.
      intros s (row & <- & Hin)%list_elem_of_In%in_map_iff.
      apply list_elem_of_In in Hin.
      destruct (Hrow row Hin) as [Hlen _].
      assert (Forall (fun v => v = - ln (sqrt (2 * PI)))%R row) as Hconst.
      { subst rows. rewrite Heq in Hin.
        apply elem_of_lookup_zip_with in Hin as (i & x & mu & -> & Hx & Hmu).
        assert (mu = x) as -> by congruence.
        apply Forall_forall.
        intros v (j & a & b & -> & Ha & Hb)%elem_of_lookup_zip_with.
        assert (b = a) as -> by congruence.
        apply normal_log_prob_at_mean. }
      rewrite (sum_eq_const row _ Hconst), Hlen. lra.
  - intros Hbatch.
    assert (0 < INR batch)%R as Hb by (apply lt_0_INR; lia).
    pose proof (Rmult_lt_0_compat _ _ Hb ln_sqrt_2pi_positive). lra.
Qed.

Lemma critic_loss_lower_bound_witness :
  exists loss,
    critic_loss_of [[1; 2]; [3; 4]]%R [[1; 2]; [3; 4]]%R = Ok (Torch.Value loss)
    /\ loss = (INR 2 * ln (sqrt (2 * PI)))%R.
Proof.
  destruct (critic_loss_lower_bound [[1; 2]; [3; 4]]%R [[1; 2]; [3; 4]]%R 2 2)
    as (loss & Hrun & _ & Heq & _).
  - lia.
  - split; [reflexivity|]. repeat (apply Forall_cons; split; [reflexivity|]).
    by apply Forall_nil.
  - split; [reflexivity|]. repeat (apply Forall_cons; split; [reflexivity|]).
    by apply Forall_nil.
  - exists loss. split; [exact Hrun | exact (Heq eq_refl)].
Defined.

End CriticLoss.

(** ** Explorer: load_state_dict and update_critic *)

Section StateDict.
Import Explorer.

Lemma input_for_None (p q : tensor) :
  input_for p q = None <-> shape p = [] /\ shape q = [0].
Proof.
  unfold input_for.
  destruct (shape p) as [|a sp]; [|by split; [|intros [? _]]].
  destruct (shape q) as [|[|n] [|b sq]]; split; try done; by intros [_ ?].
Qed.

Lemma input_for_shape (p p' q : tensor) :
  shape p = shape p' -> input_for p q = input_for p' q.
Proof. unfold input_for. by intros ->. Qed.

Lemma input_for_loadable (p q : tensor) :
  loadable_entry p q <->
  exists q', input_for p q = Some q' /\ shape q' = shape p.
Proof.
  unfold loadable_entry, input_for.
  destruct (shape p) as [|a sp] eqn:Hp.
  - destruct (shape q) as [|[|n] [|b sq]] eqn:Hq.
    + split; [eauto | by left].
    + split; [by intros [? | [_ [? ?]]] | by intros (? & ? & ?)].
    + split; [by intros [? | [_ [? ?]]] |].
      intros (q' & [= <-] & Hs). congruence.
    + split; [eauto | intros _; right; eauto].
    + split; [by intros [? | [_ [? ?]]] |].
      intros (q' & [= <-] & Hs). congruence.
  - split.
    + intros [? | [? _]]; [|done]. eauto.
    + intros (q' & [= <-] & ?). by left.
Qed.

Lemma fits_loadable_entry (p q : tensor) :
  fits p (Some q) = true <-> loadable_entry p q.
Proof.
  rewrite input_for_loadable. unfold fits. simpl.
  destruct (input_for p q) as [q'|].
  - rewrite bool_decide_eq_true. split; [eauto|]. by intros (? & [= <-] & ?).
  - split; [done|]. by intros (? & ? & ?).
Qed.

Lemma loadable_lookup (own sd : gmap string tensor) k p :
  loadable own sd -> own !! k = Some p ->
  exists q q', sd !! k = Some q /\ input_for p q = Some q' /\ shape q' = shape p
               /\ copy_entry sd k p = Some (Tensor (shape p) (data q')).
Proof.
  intros [Hdom Hentries] Hp.
  assert (k ∈ dom sd) as [q Hq]%elem_of_dom
    by (rewrite <- Hdom; apply elem_of_dom; eauto).
  destruct (proj1 (input_for_loadable p q) (Hentries k p q Hp Hq)) as (q' & Hq' & Hs).
  exists q, q'. unfold copy_entry. rewrite Hq. simpl. by rewrite Hq'.
Qed.

Lemma load_state_dict_Ok (own sd r : gmap string tensor) :
  load_state_dict own sd = Ok r
  <-> loadable own sd /\ r = map_imap (copy_entry sd) own.
Proof.
  unfold load_state_dict. split.
  - intros Hrun.
    destruct (decide (map_Forall _ own)) as [_|]; [|discriminate].
    destruct (decide (_ /\ _)) as [[Hdom Hall]|]; [|discriminate].
    split; [|congruence]. split; [done|]. intros k p q Hp Hq.
    pose proof (proj1 (map_Forall_lookup _ _) Hall k p Hp) as Hk.
    simpl in Hk. rewrite Hq in Hk. by apply fits_loadable_entry.
  - intros [Hload ->].
    destruct (decide (map_Forall _ own)) as [_|Hno].
    + destruct (decide (_ /\ _)) as [_|Hno]; [done|].
      destruct Hno. split; [apply Hload|].
      apply map_Forall_lookup. intros k p Hp.
      destruct (loadable_lookup _ _ _ _ Hload Hp) as (q & q' & Hq & _).
      rewrite Hq. apply fits_loadable_entry. destruct Hload as [_ Hentries]. eauto.
    + destruct Hno. apply map_Forall_lookup. intros k p Hp.
      destruct (loadable_lookup _ _ _ _ Hload Hp) as (q & q' & Hq & Hq' & _).
      unfold lacks_element. by rewrite Hq, Hq'.
Qed.

Lemma load_state_dict_IndexError (own sd : gmap string tensor) :
  (exists k p q, own !! k = Some p /\ sd !! k = Some q
                 /\ shape p = [] /\ shape q = [0]) ->
  load_state_dict own sd = Raise IndexError.
Proof.
  intros (k & p & q & Hp & Hq & Hsp & Hsq). unfold load_state_dict.
  rewrite decide_False; [done|]. intros Hall.
  pose proof (proj1 (map_Forall_lookup _ _) Hall k p Hp) as Hk.
  simpl in Hk. rewrite Hq in Hk. unfold lacks_element in Hk.
  by rewrite (proj2 (input_for_None p q) (conj Hsp Hsq)) in Hk.
Qed.

Lemma load_state_dict_RuntimeError (own sd : gmap string tensor) :
  (forall k p q, own !! k = Some p -> sd !! k = Some q ->
     ~ (shape p = [] /\ shape q = [0])) ->
  ~ loadable own sd ->
  load_state_dict own sd = Raise (RuntimeError msg_load).
Proof.
  intros Hnone Hno.
  destruct (load_state_dict own sd) as [r|e] eqn:Hrun.
  - by apply load_state_dict_Ok in Hrun as [? _].
  - revert Hrun. unfold load_state_dict.
    destruct (decide (map_Forall _ own)) as [_|Hlack].
    + by destruct (decide (_ /\ _)).
    + destruct Hlack. apply map_Forall_lookup. intros k p Hp. unfold lacks_element.
      destruct (sd !! k) as [q|] eqn:Hq; [|done].
      destruct (input_for p q) eqn:Hin; [done|].
      apply input_for_None in Hin. by destruct (Hnone k p q Hp Hq).
Qed.

Lemma update_critic_Ok (self self1 : explorer) :
  update_critic self = Ok (tt, self1) ->
  loadable (target_critic self) (critic self)
  /\ critic self1 = critic self
  /\ target_critic self1 = map_imap (copy_entry (critic self)) (target_critic self)
  /\ discount self1 = discount self /\ lambda_ self1 = lambda_ self
  /\ actor_entropy_scale self1 = actor_entropy_scale self.
Proof.
  unfold update_critic. intros Hrun.
  destruct (load_state_dict _ _) as [r|e] eqn:Hload; [|discriminate].
  apply load_state_dict_Ok in Hload as [Hload ->].
  by injection Hrun as <-.
Qed.

(** X12. [update_critic] returns exactly when the keys of the critic
    and of the target critic are the same and every entry of the critic
    has the shape of the target critic's parameter under its key, or is
    a non-empty 1-d entry where that parameter is 0-d.  It then leaves
    the critic as it is; every parameter of the target critic keeps its
    shape and takes the values of the critic's entry (of its element 0
    where a 1-d entry meets a 0-d parameter), so that with the same
    shapes throughout the target critic becomes equal to the critic.
    An empty 1-d entry under the key of a 0-d parameter raises
    [IndexError]; without such an entry, every other failure is the one
    [RuntimeError] of [load_state_dict]. *)
Theorem update_critic_outcomes (self : explorer) :
  ((exists self', update_critic self = Ok (tt, self'))
   <-> loadable (target_critic self) (critic self))
  /\ (forall self', update_critic self = Ok (tt, self') ->
        critic self' = critic self
        /\ dom (target_critic self') = dom (target_critic self)
        /\ (forall k p q,
              target_critic self !! k = Some p -> critic self !! k = Some q ->
              exists q', input_for p q = Some q'
                         /\ target_critic self' !! k
                            = Some (Tensor (shape p) (data q')))
        /\ (same_architecture (target_critic self) (critic self) ->
            target_critic self' = critic self))
  /\ ((exists k p q, target_critic self !! k = Some p /\ critic self !! k = Some q
                     /\ shape p = [] /\ shape q = [0]) ->
      update_critic self = Raise IndexError)
  /\ ((forall k p q, target_critic self !! k = Some p -> critic self !! k = Some q ->
         ~ (shape p = [] /\ shape q = [0])) ->
      ~ loadable (target_critic self) (critic self) ->
      update_critic self = Raise (RuntimeError msg_load)).
Proof.
  split; [split|split; [|split]].
  - intros [self' Hrun]. by apply update_critic_Ok in Hrun as [? _].
  - intros Hload. unfold update_critic.
    rewrite (proj2 (load_state_dict_Ok _ _ _) (conj Hload eq_refl)). by eexists.
  - intros self' Hrun.
    pose proof Hrun as (Hload & Hcritic & Htarget & _)%update_critic_Ok.
    split; [done|]. split; [|split].
    + rewrite Htarget. apply set_eq. intros k.
      rewrite !elem_of_dom, map_lookup_imap. split.
      * intros [t Ht]. destruct (target_critic self !! k); [eauto | done].
      * intros [p Hp]. rewrite Hp. simpl.
        destruct (loadable_lookup _ _ _ _ Hload Hp) as (q & q' & _ & _ & _ & ->).
        eauto.
    + intros k p q Hp Hq.
      destruct (loadable_lookup _ _ _ _ Hload Hp) as (q0 & q' & Hq0 & Hq' & _ & Hcopy).
      assert (q0 = q) as -> by congruence.
      exists q'. split; [done|].
      by rewrite Htarget, map_lookup_imap, Hp.
    + intros Harch. unfold update_critic in Hrun.
      rewrite (load_state_dict_same _ _ Harch) in Hrun. by injection Hrun as <-.
  - intros Hentry. unfold update_critic.
    by rewrite (load_state_dict_IndexError _ _ Hentry).
  - intros Hnone Hno. unfold update_critic.
    by rewrite (load_state_dict_RuntimeError _ _ Hnone Hno).
Qed.

(** X13. [update_critic] is idempotent: once it has succeeded, the
    critic is as before, and calling it again succeeds and changes
    nothing.  With the same shapes throughout, the target critic and
    the critic then hold the same state dict. *)
Theorem update_critic_idempotent (self self1 : explorer) :
  update_critic self = Ok (tt, self1) ->
  critic self1 = critic self
  /\ update_critic self1 = Ok (tt, self1)
  /\ (same_architecture (target_critic self) (critic self) ->
      target_critic self1 = critic self1).
Proof.
  intros Hrun.
  pose proof Hrun as (Hload & Hcritic & Htarget & Hd & Hl & Ha)%update_critic_Ok.
  split; [done|]. split.
  - assert (forall k t, target_critic self1 !! k = Some t ->
              exists p, target_critic self !! k = Some p /\ shape t = shape p
                        /\ copy_entry (critic self) k t = Some t) as Hentries.
    { intros k t. rewrite Htarget, map_lookup_imap.
      destruct (target_critic self !! k) as [p|] eqn:Hp; [|done]. simpl.
      destruct (loadable_lookup _ _ _ _ Hload Hp) as (q & q' & Hq & Hq' & _ & Hcopy).
      rewrite Hcopy. intros [= <-]. exists p. split; [done|]. split; [done|].
      unfold copy_entry. rewrite Hq. cbn [mbind option_bind].
      by rewrite (input_for_shape (Tensor (shape p) (data q')) p q eq_refl), Hq'. }
    assert (dom (target_critic self1) = dom (target_critic self)) as Hdom.
    { apply set_eq. intros k. rewrite !elem_of_dom. split.
      - intros [t (p & Hp & _)%Hentries]. eauto.
      - intros [p Hp]. rewrite Htarget, map_lookup_imap, Hp. simpl.
        destruct (loadable_lookup _ _ _ _ Hload Hp) as (q & q' & _ & _ & _ & ->).
        eauto. }
    assert (load_state_dict (target_critic self1) (critic self1)
            = Ok (target_critic self1)) as Hagain.
    { apply load_state_dict_Ok. split.
      - split; [rewrite Hdom, Hcritic; apply Hload|].
        intros k t q (p & Hp & Hs & _)%Hentries Hq. rewrite Hcritic in Hq.
        destruct Hload as [_ Hall]. specialize (Hall k p q Hp Hq).
        unfold loadable_entry in *. by rewrite Hs.
      - apply map_eq. intros k. rewrite map_lookup_imap, Hcritic.
        destruct (target_critic self1 !! k) as [t|] eqn:Ht; [|done]. simpl.
        by destruct (Hentries k t Ht) as (_ & _ & _ & ->). }
    unfold update_critic. rewrite Hagain. simpl.
    destruct self1. simpl in *. by subst.
  - intros Harch. unfold update_critic in Hrun.
    rewrite (load_state_dict_same _ _ Harch) in Hrun. by injection Hrun as <-.
Qed.

End StateDict.

Lemma toy_scalar_loadable :
  Explorer.loadable (Explorer.target_critic Toy.explorer_scalar)
                    (Explorer.critic Toy.explorer_scalar).
Proof.
  unfold Explorer.loadable, Toy.explorer_scalar. simpl.
  split; [by rewrite !dom_singleton_L|].
  intros k p q [_ <-]%lookup_singleton_Some [_ <-]%lookup_singleton_Some.
  right. simpl. eauto.
Qed.

Lemma toy_scalar_update_critic :
  exists self1, Explorer.update_critic Toy.explorer_scalar = Ok (tt, self1).
Proof.
  unfold Explorer.update_critic.
  rewrite (proj2 (load_state_dict_Ok _ _ _) (conj toy_scalar_loadable eq_refl)).
  by eexists.
Qed.

Lemma update_critic_outcomes_witness :
  (exists self', Explorer.update_critic Toy.explorer0 = Ok (tt, self'))
  /\ (exists self', Explorer.update_critic Toy.explorer_scalar = Ok (tt, self'))
  /\ Explorer.update_critic Toy.explorer_empty
     = Raise (RuntimeError Explorer.msg_load).
Proof.
  split; [|split].
  - apply (proj1 (update_critic_outcomes Toy.explorer0)).
    destruct toy_same_architecture as [Hdom Hshape].
    split; [done|]. intros k p q Hp Hq. left. symmetry. by eapply Hshape.
  - exact (proj2 (proj1 (update_critic_outcomes Toy.explorer_scalar))
             toy_scalar_loadable).
  - apply (proj2 (proj2 (proj2 (update_critic_outcomes Toy.explorer_empty)))).
    + intros k p q _ Hq. unfold Toy.explorer_empty in Hq.
      cbn [Explorer.critic] in Hq. by rewrite lookup_empty in Hq.
    + intros [Hdom _]. revert Hdom. unfold Toy.explorer_empty, Toy.critic_params.
      cbn [Explorer.target_critic Explorer.critic].
      rewrite dom_singleton_L, dom_empty_L.
      intros Heq. apply (not_elem_of_empty (C := gset string) "w").
      rewrite <- Heq. by apply elem_of_singleton.
Defined.

Lemma update_critic_idempotent_witness :
  exists self1,
    Explorer.update_critic Toy.explorer_scalar = Ok (tt, self1)
    /\ Explorer.update_critic self1 = Ok (tt, self1).
Proof.
  destruct toy_scalar_update_critic as [self1 Hrun].
  exists self1. split; [exact Hrun|].
  exact (proj1 (proj2 (update_critic_idempotent _ _ Hrun))).
Defined.

(** ** Explorer.train: what the actor loss depends on *)

Section ActorLossDependence.
Import Explorer.
Context {MD : Modules}.

(** X14. The actor loss is computed from the target critic alone: two
    Explorers that agree on the target critic and on the three scalars
    [discount], [lambda_] and [actor_entropy_scale] return, on the same
    inputs and the same random draws, the same actor loss, however their
    online critics differ. *)
Theorem actor_loss_ignores_online_critic
    (self1 self2 : explorer) (init_zs : list Zrow) (init_hs : list Hrow)
    (horison_length : nat) (w w1 w2 : world)
    (actor_loss1 critic_loss1 actor_loss2 critic_loss2 : Torch.scalar)
    (self1' self2' : explorer) :
  target_critic self1 = target_critic self2 ->
  discount self1 = discount self2 ->
  lambda_ self1 = lambda_ self2 ->
  actor_entropy_scale self1 = actor_entropy_scale self2 ->
  train self1 init_zs init_hs horison_length w
    = (Ok ((actor_loss1, critic_loss1), self1'), w1) ->
  train self2 init_zs init_hs horison_length w
    = (Ok ((actor_loss2, critic_loss2), self2'), w2) ->
  actor_loss1 = actor_loss2 /\ w1 = w2.
Proof.
  intros Htc Hd Hl Hs Hrun1 Hrun2. unfold train in Hrun1, Hrun2.
  apply bind_Ok_inv in Hrun1 as (st1 & u1 & Hroll1 & Hrun1).
  apply bind_Ok_inv in Hrun2 as (st2 & u2 & Hroll2 & Hrun2).
  assert (st2 = st1 /\ u2 = u1) as [-> ->] by (split; congruence).
  apply bind_Ok_inv in Hrun1 as (rew1 & ? & [Hrew1 ->]%lift_Ok_inv & Hrun1).
  apply bind_Ok_inv in Hrun2 as (rew2 & ? & [Hrew2 ->]%lift_Ok_inv & Hrun2).
  assert (rew2 = rew1) as -> by congruence.
  apply bind_Ok_inv in Hrun1 as (tv1 & ? & [Htv1 ->]%lift_Ok_inv & Hrun1).
  apply bind_Ok_inv in Hrun2 as (tv2 & ? & [Htv2 ->]%lift_Ok_inv & Hrun2).
  rewrite <- Htc in Htv2.
  assert (tv2 = tv1) as -> by congruence.
  apply bind_Ok_inv in Hrun1 as (al1 & ? & [Hal1 ->]%lift_Ok_inv & Hrun1).
  apply bind_Ok_inv in Hrun2 as (al2 & ? & [Hal2 ->]%lift_Ok_inv & Hrun2).
  rewrite <- Hd, <- Hl, <- Hs in Hal2.
  assert (al2 = al1) as -> by congruence.
  apply bind_Ok_inv in Hrun1 as (vm1 & ? & [_ ->]%lift_Ok_inv & Hrun1).
  apply bind_Ok_inv in Hrun2 as (vm2 & ? & [_ ->]%lift_Ok_inv & Hrun2).
  apply bind_Ok_inv in Hrun1 as (cl1 & ? & [_ ->]%lift_Ok_inv & Hrun1).
  apply bind_Ok_inv in Hrun2 as (cl2 & ? & [_ ->]%lift_Ok_inv & Hrun2).
  apply ret_Ok_inv in Hrun1 as [[= -> _ _] ->].
  apply ret_Ok_inv in Hrun2 as [[= -> _ _] ->].
  done.
Qed.

End ActorLossDependence.
Lemma actor_loss_ignores_online_critic_witness :
  exists actor_loss critic_loss1 critic_loss2 self1' self2' w',
    Explorer.train (MD := Toy.modules) Toy.explorer0 [1; 2] [0; 0] 3 (World [4; 1] [])
      = (Ok ((actor_loss, critic_loss1), self1'), w')
    /\ Explorer.train (MD := Toy.modules)
         {| Explorer.critic := Toy.critic_params 7;
            Explorer.target_critic := Toy.critic_params 5;
            Explorer.discount := 1;
            Explorer.lambda_ := 1;
            Explorer.actor_entropy_scale := 3 |}
         [1; 2] [0; 0] 3 (World [4; 1] [])
      = (Ok ((actor_loss, critic_loss2), self2'), w').
Proof.
  assert (exists actor_loss critic_loss self' w',
            Explorer.train (MD := Toy.modules) Toy.explorer0 [1; 2] [0; 0] 3
              (World [4; 1] [])
            = (Ok ((actor_loss, critic_loss), self'), w'))
    as (actor_loss1 & critic_loss1 & self1' & w1 & Hrun1)
    by (eexists _, _, _, _;
        lazy -[INR IZR Rabs Rplus Rminus Rmult Rdiv Rinv Ropp ln sqrt PI]; reflexivity).
  assert (exists actor_loss critic_loss self' w',
            Explorer.train (MD := Toy.modules)
              {| Explorer.critic := Toy.critic_params 7;
                 Explorer.target_critic := Toy.critic_params 5;
                 Explorer.discount := 1;
                 Explorer.lambda_ := 1;
                 Explorer.actor_entropy_scale := 3 |}
              [1; 2] [0; 0] 3 (World [4; 1] [])
            = (Ok ((actor_loss, critic_loss), self'), w'))
    as (actor_loss2 & critic_loss2 & self2' & w2 & Hrun2)
    by (eexists _, _, _, _;
        lazy -[INR IZR Rabs Rplus Rminus Rmult Rdiv Rinv Ropp ln sqrt PI]; reflexivity).
  destruct (actor_loss_ignores_online_critic (MD := Toy.modules)
              Toy.explorer0
              {| Explorer.critic := Toy.critic_params 7;
                 Explorer.target_critic := Toy.critic_params 5;
                 Explorer.discount := 1;
                 Explorer.lambda_ := 1;
                 Explorer.actor_entropy_scale := 3 |}
              _ _ _ _ _ _ _ _ _ _ _ _
              eq_refl eq_refl eq_refl eq_refl Hrun1 Hrun2) as [Hal Hw].
  exists actor_loss1, critic_loss1, critic_loss2, self1', self2', w1.
  split; [exact Hrun1|]. rewrite Hal, Hw. exact Hrun2.
Defined.


(** ** train.py: the training script *)

Section ScriptFacts.
Import Main.
Context {C : Collaborators}.
Local Open Scope Z_scope.

Lemma script_bind_inv {A B} (m : M A) (k : A -> M B) r evs :
  (m ≫= k) = (r, evs) ->
  (exists a evs1 evs2, m = (Returned a, evs1) /\ k a = (r, evs2) /\ evs = evs1 ++ evs2)
  \/ (exists e, m = (Raised e, evs) /\ r = Raised e).
Proof.
  unfold mbind, M_bind, bind. destruct m as [[a|e] evs1].
  - destruct (k a) as [r' evs2] eqn:Hk. intros [= <- <-]. left. by exists a, evs1, evs2.
  - intros [= <- <-]. right. by exists e.
Qed.

Lemma script_bind_Returned {A B} (m : M A) (k : A -> M B) b evs :
  (m ≫= k) = (Returned b, evs) ->
  exists a evs1 evs2, m = (Returned a, evs1) /\ k a = (Returned b, evs2) /\ evs = evs1 ++ evs2.
Proof.
  intros [H|(e & _ & [=])]%script_bind_inv. exact H.
Qed.

Lemma calls_app (p : event -> bool) (xs ys : list event) :
  calls p (xs ++ ys) = (calls p xs + calls p ys)%nat.
Proof. unfold calls. by rewrite filter_app, length_app. Qed.

Lemma calls_none (p : event -> bool) (evs : list event) :
  Forall (fun e => p e = false) evs -> calls p evs = 0%nat.
Proof.
  unfold calls. induction 1 as [|e evs He _ IH]; [done|].
  rewrite filter_cons_False; [done|]. by rewrite He.
Qed.

Lemma interact_run (cfg : config) (st : locals) :
  interact cfg st =
    if decide (expl_episode_freq cfg = 0) then (Raised (Builtin ZeroDivisionError), [])
    else (Returned tt,
          [Agent (if decide (episodes st mod expl_episode_freq cfg = 0)
                  then explorer else achiever) (goal st) None;
           EnvStep; Push]).
Proof. unfold interact, py_mod. by destruct (decide (expl_episode_freq cfg = 0)). Qed.

Lemma updates_run (cfg : config) (step : Z) (st : locals) :
  update_freq cfg <> 0 ->
  explorer_slow_critic_update cfg <> 0 ->
  achiever_slow_critic_update cfg <> 0 ->
  updates cfg step st =
    (Returned (if decide ((step + 1) mod update_freq cfg = 0) then st
               else Locals (episodes st) (best_score st) (goal st)
                      (Some (train_metrics step))),
     (if decide ((step + 1) mod update_freq cfg = 0) then [] else [Sample; Train])
     ++ (if decide ((step + 1) mod explorer_slow_critic_update cfg = 0) then []
         else [ExplorerUpdateCritic])
     ++ (if decide ((step + 1) mod achiever_slow_critic_update cfg = 0) then []
         else [AchieverUpdateCritic])).
Proof.
  intros Hu He Ha. unfold updates, py_mod.
  rewrite !decide_False by done.
  cbn [mbind mret M_bind M_ret bind ret].
  destruct (decide ((step + 1) mod update_freq cfg = 0));
    cbn [mbind mret M_bind M_ret bind ret emit];
    destruct (decide ((step + 1) mod explorer_slow_critic_update cfg = 0));
    cbn [mbind mret M_bind M_ret bind ret emit];
    destruct (decide ((step + 1) mod achiever_slow_critic_update cfg = 0));
    reflexivity.
Qed.

Lemma updates_raises (cfg : config) (step : Z) (st : locals) :
  update_freq cfg = 0 \/ explorer_slow_critic_update cfg = 0
    \/ achiever_slow_critic_update cfg = 0 ->
  exists evs,
    updates cfg step st = (Raised (Builtin ZeroDivisionError), evs)
    /\ Forall (fun e => e = Sample \/ e = Train \/ e = ExplorerUpdateCritic) evs.
Proof.
  intros Hzero. unfold updates, py_mod.
  destruct (decide (update_freq cfg = 0)); [eexists; split; [reflexivity | by apply Forall_nil]|].
  cbn [mbind mret M_bind M_ret bind ret].
  destruct (decide (explorer_slow_critic_update cfg = 0)).
  { destruct (decide ((step + 1) mod update_freq cfg = 0));
      cbn [mbind mret M_bind M_ret bind ret emit raise];
      eexists; (split; [reflexivity|]);
      repeat first [apply Forall_nil_2 | apply Forall_cons_2; [auto|]]. }
  destruct (decide (achiever_slow_critic_update cfg = 0)); [|by destruct Hzero as [?|[?|?]]].
  destruct (decide ((step + 1) mod update_freq cfg = 0));
    cbn [mbind mret M_bind M_ret bind ret emit raise];
    destruct (decide ((step + 1) mod explorer_slow_critic_update cfg = 0));
    cbn [mbind mret M_bind M_ret bind ret emit raise];
    eexists; (split; [reflexivity|]);
      repeat first [apply Forall_nil_2 | apply Forall_cons_2; [auto|]].
Qed.

Lemma eval_rollout_run (goal : Goal) (later_steps : nat) :
  exists evs,
    eval_rollout goal later_steps = (Returned tt, evs)
    /\ Forall (fun e => e = Agent achiever (Some goal) (Some false) \/ e = EvalEnvStep) evs.
Proof.
  induction later_steps as [|n (evs & IH & Hevs)]; cbn [eval_rollout].
  - eexists. split; [reflexivity|].
    repeat first [apply Forall_nil_2 | apply Forall_cons_2; [auto|]].
  - rewrite IH. eexists. split; [reflexivity|].
    cbn [app]. repeat (apply Forall_cons_2; [auto|]). exact Hevs.
Qed.

Lemma evaluation_call_mono (runs more : list (eval_run Goal GoalIdx)) (e : event) :
  runs ⊆ more -> evaluation_call runs e -> evaluation_call more e.
Proof.
  intros Hsub. destruct e; try done.
  intros (-> & -> & run & Hrun & ->). repeat split. exists run. split; [auto | done].
Qed.

Lemma eval_episodes_run (runs : list (eval_run Goal GoalIdx)) :
  exists evs,
    eval_episodes runs
    = (Returned (length (filter (fun run => success run = true) runs)), evs)
    /\ Forall (evaluation_call runs) evs.
Proof.
  induction runs as [|run runs (evs & IH & Hevs)].
  - eexists. split; [reflexivity | by apply Forall_nil].
  - cbn [eval_episodes].
    destruct (eval_rollout_run (goal_obs run) (later_steps run)) as (roll & -> & Hroll).
    rewrite IH. cbn [mbind mret M_bind M_ret bind ret emit app].
    exists ([EvalEnvReset; SetGoalIdx (goal_idx run); GetGoalObs] ++ roll
            ++ [ComputeSuccess (success run)] ++ evs ++ []).
    split.
    + destruct (success run) eqn:Hs.
      * by rewrite filter_cons_True by done.
      * by rewrite filter_cons_False by (by rewrite Hs).
    + repeat (apply Forall_cons_2; [done|]).
      apply Forall_app. split.
      { eapply Forall_impl; [exact Hroll|]. intros e [-> | ->]; [|done].
        repeat split. exists run. split; [apply list_elem_of_here | done]. }
      apply Forall_cons_2; [done|]. rewrite app_nil_r.
      eapply Forall_impl; [exact Hevs|]. intros e.
      apply evaluation_call_mono. intros x Hx. by apply list_elem_of_further.
Qed.

Lemma evaluate_run (step : Z) :
  if decide (eval_runs step = [])
  then evaluate step = (Raised (Builtin ZeroDivisionError), [])
  else exists evs,
         evaluate step = (Returned (score_of (eval_runs step)), evs)
         /\ Forall (evaluation_call (eval_runs step)) evs.
Proof.
  unfold evaluate, true_div.
  destruct (eval_episodes_run (eval_runs step)) as (evs & Hrun & Hevs).
  destruct (decide (eval_runs step = [])) as [Hnil|Hne].
  - by rewrite Hnil.
  - rewrite Hrun. exists evs. split; [|done].
    cbn [mbind mret M_bind M_ret bind ret].
    rewrite decide_False by (by destruct (eval_runs step)).
    cbn [mret M_ret ret]. by rewrite app_nil_r.
Qed.

Lemma evaluation_cases (cfg : config) (step : Z) (st : locals) :
  (eval_episode_freq cfg = 0
   /\ evaluation cfg step st = (Raised (Builtin ZeroDivisionError), []))
  \/ (episodes st mod eval_episode_freq cfg = 0
      /\ evaluation cfg step st = (Returned st, []))
  \/ (eval_runs step = []
      /\ evaluation cfg step st = (Raised (Builtin ZeroDivisionError), []))
  \/ (episodes st mod eval_episode_freq cfg <> 0 /\ eval_runs step <> []
      /\ exists evs,
           Forall (evaluation_call (eval_runs step)) evs
           /\ (((best_score st < score_of (eval_runs step))%Q
                /\ evaluation cfg step st
                   = (Returned (Locals (episodes st) (score_of (eval_runs step))
                                  (goal st) (metrics st)),
                      evs ++ [PrintScore (step + 1) (episodes st)
                                (score_of (eval_runs step));
                              Save Best; AgentReset]))
               \/ ((score_of (eval_runs step) <= best_score st)%Q
                   /\ evaluation cfg step st
                      = (Returned st,
                         evs ++ [PrintScore (step + 1) (episodes st)
                                   (score_of (eval_runs step));
                                 AgentReset])))).
Proof.
  unfold evaluation, py_mod.
  destruct (decide (eval_episode_freq cfg = 0)); [by left|].
  cbn [mbind mret M_bind M_ret bind ret].
  destruct (decide (episodes st mod eval_episode_freq cfg = 0)); [right; by left|].
  pose proof (evaluate_run step) as Heval.
  destruct (decide (eval_runs step = [])); [right; right; left; by rewrite Heval|].
  destruct Heval as (evs & -> & Hevs). do 3 right.
  split; [done|]. split; [done|]. exists evs. split; [done|].
  cbn [mbind mret M_bind M_ret bind ret emit].
  destruct (Qlt_le_dec _ _); [left | right]; (split; [done|]);
    cbn [mbind mret M_bind M_ret bind ret emit app]; by rewrite ?app_nil_r.
Qed.

Lemma episode_end_run (cfg : config) (step : Z) (st : locals) :
  episode_end cfg step st =
    match metrics st with
    | None => (Raised (UnboundLocalError "metrics"), [])
    | Some m =>
        let '(r, evs) :=
          evaluation cfg step
            (Locals (episodes st + 1) (best_score st) (Some (sampled_goal step))
               (metrics st)) in
        (r, [PrintMetrics (step + 1) (episodes st) m; Save (Checkpoint (step + 1));
             EnvReset; AgentReset; SampleGoal] ++ evs)
    end.
Proof.
  unfold episode_end. destruct (metrics st) as [m|]; [|done].
  cbn [mbind mret M_bind M_ret bind ret emit].
  by destruct (evaluation _ _ _) as [r evs].
Qed.

Lemma learning_step_run (cfg : config) (step : Z) (st : locals) :
  expl_episode_freq cfg <> 0 ->
  update_freq cfg <> 0 ->
  explorer_slow_critic_update cfg <> 0 ->
  achiever_slow_critic_update cfg <> 0 ->
  learning_step cfg step st =
    let st1 :=
      if decide ((step + 1) mod update_freq cfg = 0) then st
      else Locals (episodes st) (best_score st) (goal st) (Some (train_metrics step)) in
    let evs0 :=
      [Agent (if decide (episodes st mod expl_episode_freq cfg = 0)
              then explorer else achiever) (goal st) None;
       EnvStep; Push]
      ++ (if decide ((step + 1) mod update_freq cfg = 0) then [] else [Sample; Train])
      ++ (if decide ((step + 1) mod explorer_slow_critic_update cfg = 0) then []
          else [ExplorerUpdateCritic])
      ++ (if decide ((step + 1) mod achiever_slow_critic_update cfg = 0) then []
          else [AchieverUpdateCritic]) in
    if env_done step
    then let '(r, evs) := episode_end cfg step st1 in (r, evs0 ++ evs)
    else (Returned st1, evs0).
Proof.
  intros Hx Hu He Ha. unfold learning_step.
  rewrite interact_run, decide_False by done.
  rewrite (updates_run cfg step st Hu He Ha).
  cbn [mbind mret M_bind M_ret bind ret emit].
  destruct (env_done step).
  - destruct (episode_end _ _ _) as [r evs]. by rewrite <- !app_assoc.
  - cbn [mret M_ret ret]. by rewrite app_nil_r.
Qed.

Lemma learning_step_zero_frequency (cfg : config) (step : Z) (st : locals) :
  expl_episode_freq cfg = 0 \/ update_freq cfg = 0
    \/ explorer_slow_critic_update cfg = 0 \/ achiever_slow_critic_update cfg = 0 ->
  exists evs,
    learning_step cfg step st = (Raised (Builtin ZeroDivisionError), evs)
    /\ Forall (fun e => (exists m, e = Agent m (goal st) None
                                   /\ (m = achiever -> episodes st <> 0))
                        \/ e = EnvStep \/ e = Push \/ e = Sample \/ e = Train
                        \/ e = ExplorerUpdateCritic) evs.
Proof.
  intros Hzero. unfold learning_step. rewrite interact_run.
  destruct (decide (expl_episode_freq cfg = 0)) as [|Hx].
  { eexists. split; [reflexivity | by apply Forall_nil]. }
  destruct (updates_raises cfg step st) as (evs & Hr & Hevs);
    [by destruct Hzero as [?|?]|].
  rewrite Hr.
  cbn [mbind mret M_bind M_ret bind ret emit].
  eexists. split; [reflexivity|].
  apply Forall_cons_2.
  { left. eexists. split; [reflexivity|].
    destruct (decide (episodes st mod expl_episode_freq cfg = 0)) as [|Hne]; [done|].
    intros _ Hz. apply Hne. rewrite Hz. apply Z.mod_0_l, Hx. }
  apply Forall_cons_2; [auto|]. apply Forall_cons_2; [auto|].
  eapply Forall_impl; [exact Hevs|]. intros e [-> | [-> | ->]]; auto 10.
Qed.

Lemma learning_step_Returned (cfg : config) (step : Z) (st st' : locals) evs :
  learning_step cfg step st = (Returned st', evs) ->
  expl_episode_freq cfg <> 0 /\ update_freq cfg <> 0
  /\ explorer_slow_critic_update cfg <> 0 /\ achiever_slow_critic_update cfg <> 0.
Proof.
  intros Hrun.
  destruct (decide (expl_episode_freq cfg = 0)) as [Hx|Hx];
    [destruct (learning_step_zero_frequency cfg step st) as (? & Hr & _);
       [auto | congruence]|].
  destruct (decide (update_freq cfg = 0)) as [Hu|Hu];
    [destruct (learning_step_zero_frequency cfg step st) as (? & Hr & _);
       [auto | congruence]|].
  destruct (decide (explorer_slow_critic_update cfg = 0)) as [He|He];
    [destruct (learning_step_zero_frequency cfg step st) as (? & Hr & _);
       [auto | congruence]|].
  destruct (decide (achiever_slow_critic_update cfg = 0)) as [Ha|Ha];
    [destruct (learning_step_zero_frequency cfg step st) as (? & Hr & _);
       [auto | congruence]|].
  done.
Qed.

(** The calls made from the end of an episode on. *)
Lemma evaluation_events (cfg : config) (step : Z) (st : locals) r evs :
  evaluation cfg step st = (r, evs) ->
  Forall (fun e => evaluation_call (eval_runs step) e
                   \/ match e with
                      | PrintScore _ _ _ | Save Best | AgentReset => True
                      | _ => False
                      end) evs.
Proof.
  intros Hrun.
  destruct (evaluation_cases cfg step st)
    as [(_ & H) | [(_ & H) | [(_ & H)
       | (_ & _ & evs0 & Hevs0 & [(_ & H) | (_ & H)])]]];
    rewrite H in Hrun; injection Hrun as <- <-; try (by apply Forall_nil);
    apply Forall_app;
    (split; [eapply Forall_impl; [exact Hevs0|]; by left|]);
    repeat first [apply Forall_nil_2 | apply Forall_cons_2; [by right|]].
Qed.

Lemma episode_end_events (cfg : config) (step : Z) (st : locals) r evs :
  episode_end cfg step st = (r, evs) ->
  Forall (fun e => evaluation_call (eval_runs step) e
                   \/ match e with
                      | PrintMetrics _ _ _ | Save _ | EnvReset | AgentReset | SampleGoal
                      | PrintScore _ _ _ => True
                      | _ => False
                      end) evs.
Proof.
  rewrite episode_end_run. destruct (metrics st) as [m|];
    [|intros [= <- <-]; by apply Forall_nil].
  destruct (evaluation _ _ _) as [r' evs'] eqn:Heval. intros [= <- <-].
  apply evaluation_events in Heval.
  repeat (apply Forall_cons_2; [by right|]).
  eapply Forall_impl; [exact Heval|]. intros e [? | ?]; [by left | right].
  by destruct e as [| | | | | | | | |[]| | | | | | | | |].
Qed.

(** A call counted by none of the counters of training and critic
    updates, such as those of an evaluation. *)
Lemma calls_evaluation (p : event -> bool) runs (evs : list event) :
  (forall m g t, p (Agent m g t) = false) ->
  p EvalEnvReset = false -> (forall i, p (SetGoalIdx i) = false) ->
  p GetGoalObs = false -> p EvalEnvStep = false ->
  (forall b, p (ComputeSuccess b) = false) ->
  Forall (evaluation_call runs) evs -> calls p evs = 0%nat.
Proof.
  intros H1 H2 H3 H4 H5 H6 Hevs. apply calls_none.
  eapply Forall_impl; [exact Hevs|]. intros [] He; try done; auto.
Qed.

Lemma seed_loop_run (steps : list Z) :
  exists evs,
    seed_loop steps = (Returned tt, evs)
    /\ Forall (fun e => e = ActionSample \/ e = EnvStep \/ e = Push \/ e = EnvReset) evs.
Proof.
  induction steps as [|step steps (evs & IH & Hevs)].
  - eexists. split; [reflexivity | by apply Forall_nil].
  - cbn [seed_loop]. unfold seed_step. rewrite IH.
    destruct (seed_done step); cbn [mbind mret M_bind M_ret bind ret emit app];
      eexists; (split; [reflexivity|]);
      repeat (apply Forall_cons_2; [auto|]); exact Hevs.
Qed.

Lemma learning_step_calls (cfg : config) (step : Z) (st st' : locals) evs :
  learning_step cfg step st = (Returned st', evs) ->
  calls is_train evs
    = (if decide ((step + 1) mod update_freq cfg = 0) then 0%nat else 1%nat)
  /\ calls is_explorer_update evs
    = (if decide ((step + 1) mod explorer_slow_critic_update cfg = 0) then 0%nat else 1%nat)
  /\ calls is_achiever_update evs
    = (if decide ((step + 1) mod achiever_slow_critic_update cfg = 0) then 0%nat else 1%nat).
Proof.
  intros Hrun.
  destruct (learning_step_Returned _ _ _ _ _ Hrun) as (Hx & Hu & He & Ha).
  rewrite (learning_step_run cfg step st Hx Hu He Ha) in Hrun. cbv zeta in Hrun.
  assert (exists tail,
            evs = [Agent (if decide (episodes st mod expl_episode_freq cfg = 0)
                          then explorer else achiever) (goal st) None;
                   EnvStep; Push]
                  ++ (if decide ((step + 1) mod update_freq cfg = 0) then []
                      else [Sample; Train])
                  ++ (if decide ((step + 1) mod explorer_slow_critic_update cfg = 0)
                      then [] else [ExplorerUpdateCritic])
                  ++ (if decide ((step + 1) mod achiever_slow_critic_update cfg = 0)
                      then [] else [AchieverUpdateCritic])
                  ++ tail
            /\ calls is_train tail = 0%nat
            /\ calls is_explorer_update tail = 0%nat
            /\ calls is_achiever_update tail = 0%nat) as (tail & -> & Ht & He' & Ha').
  { destruct (env_done step).
    - destruct (episode_end _ _ _) as [r tail] eqn:Hend.
      injection Hrun as -> <-. exists tail.
      apply episode_end_events in Hend.
      split; [by rewrite <- !app_assoc|].
      split; [|split]; apply calls_none; (eapply Forall_impl; [exact Hend|]);
        by intros [] [?|?].
    - injection Hrun as _ <-. exists []. by rewrite !app_nil_r. }
  rewrite !calls_app, Ht, He', Ha'.
  destruct (decide ((step + 1) mod update_freq cfg = 0));
    destruct (decide ((step + 1) mod explorer_slow_critic_update cfg = 0));
    destruct (decide ((step + 1) mod achiever_slow_critic_update cfg = 0)); done.
Qed.

Lemma learning_loop_calls (cfg : config) (steps : list Z) (st st' : locals) evs :
  learning_loop cfg steps st = (Returned st', evs) ->
  calls is_train evs
    = length (filter (fun s => (s + 1) mod update_freq cfg <> 0) steps)
  /\ calls is_explorer_update evs
    = length (filter (fun s => (s + 1) mod explorer_slow_critic_update cfg <> 0) steps)
  /\ calls is_achiever_update evs
    = length (filter (fun s => (s + 1) mod achiever_slow_critic_update cfg <> 0) steps).
Proof.
  revert st evs. induction steps as [|step steps IH]; intros st evs Hrun.
  - injection Hrun as _ <-. done.
  - cbn [learning_loop] in Hrun.
    apply script_bind_Returned in Hrun as (st1 & evs1 & evs2 & Hstep & Hrest & ->).
    destruct (learning_step_calls _ _ _ _ _ Hstep) as (Ht & He & Ha).
    destruct (IH _ _ Hrest) as (Ht' & He' & Ha').
    rewrite !calls_app, Ht, He, Ha, Ht', He', Ha'.
    split; [|split].
    + destruct (decide ((step + 1) mod update_freq cfg = 0)).
      * by rewrite filter_cons_False by (intros ?; done).
      * by rewrite filter_cons_True by done.
    + destruct (decide ((step + 1) mod explorer_slow_critic_update cfg = 0)).
      * by rewrite filter_cons_False by (intros ?; done).
      * by rewrite filter_cons_True by done.
    + destruct (decide ((step + 1) mod achiever_slow_critic_update cfg = 0)).
      * by rewrite filter_cons_False by (intros ?; done).
      * by rewrite filter_cons_True by done.
Qed.

Lemma range_succ (n : nat) :
  range (Z.of_nat (S n)) = range (Z.of_nat n) ++ [Z.of_nat n].
Proof.
  unfold range. rewrite !Nat2Z.id, seq_S, map_app. done.
Qed.

Lemma elem_of_range (s n : Z) : s ∈ range n <-> 0 <= s < n.
Proof.
  unfold range. rewrite list_elem_of_In, in_map_iff. split.
  - intros (k & <- & Hk%in_seq). lia.
  - intros Hs. exists (Z.to_nat s). split; [lia|]. apply in_seq. lia.
Qed.

(** Among the first [n] values of [step + 1], those that are not a
    multiple of [f]. *)
Lemma skipped_multiples (f n : Z) :
  0 < f -> 0 <= n ->
  Z.of_nat (length (filter (fun s => (s + 1) mod f <> 0) (range n))) = n - n / f.
Proof.
  intros Hf Hn. rewrite <- (Z2Nat.id n Hn). generalize (Z.to_nat n). clear n Hn.
  induction n as [|n IH].
  - by rewrite Z.div_0_l by lia.
  - rewrite range_succ, filter_app, length_app, Nat2Z.inj_add, IH.
    assert ((Z.of_nat (S n)) = Z.of_nat n + 1) as -> by lia.
    pose proof (Z.div_mod (Z.of_nat n) f ltac:(lia)) as Hdm.
    pose proof (Z.mod_pos_bound (Z.of_nat n) f Hf) as Hb.
    pose proof (Z.div_mod (Z.of_nat n + 1) f ltac:(lia)) as Hdm'.
    pose proof (Z.mod_pos_bound (Z.of_nat n + 1) f Hf) as Hb'.
    destruct (decide ((Z.of_nat n + 1) mod f = 0)) as [Hz|Hz].
    + rewrite filter_cons_False, filter_nil by (intros ?; done). cbn [length]. nia.
    + rewrite filter_cons_True, filter_nil by done. cbn [length]. nia.
Qed.

Lemma main_run (cfg : config) r evs :
  main cfg = (r, evs) ->
  exists pre evs',
    learning_loop cfg (range (num_steps cfg)) initial = (r, evs')
    /\ evs = pre ++ evs'
    /\ Forall (fun e => e = ActionSample \/ e = EnvStep \/ e = Push \/ e = EnvReset) pre.
Proof.
  intros Hrun. unfold main in Hrun.
  destruct (seed_loop_run (range (seed_steps cfg))) as (seed & Hseed & Hevs).
  rewrite Hseed in Hrun. cbn [mbind mret M_bind M_ret bind ret emit] in Hrun.
  destruct (learning_loop cfg _ initial) as [r' evs'] eqn:Hloop.
  injection Hrun as <- <-.
  exists ([EnvReset] ++ seed ++ [EnvReset]), evs'.
  split; [done|]. split; [by rewrite <- !app_assoc|].
  apply Forall_app. split; [apply Forall_singleton; auto|].
  apply Forall_app. split; [done | apply Forall_singleton; auto].
Qed.

Lemma main_intro (cfg : config) r evs' :
  learning_loop cfg (range (num_steps cfg)) initial = (r, evs') ->
  exists pre,
    main cfg = (r, pre ++ evs')
    /\ Forall (fun e => e = ActionSample \/ e = EnvStep \/ e = Push \/ e = EnvReset) pre.
Proof.
  intros Hloop. destruct (main cfg) as [r0 evs0] eqn:Hmain.
  apply main_run in Hmain as (pre & evs1 & Hloop' & -> & Hpre).
  exists pre. split; [congruence | done].
Qed.

(** X15. The three tests on [step + 1] let a call through when the
    remainder is not zero, so [lexa.train] and the two [update_critic]
    calls are made on every learning step except the multiples of their
    frequency: over a run of [num_steps] steps that returns there are
    [num_steps - num_steps / f] of each.  With a frequency of 1 the call
    is never made. *)
Theorem updates_skip_multiples_of_frequency
    (cfg : config) (st : locals) (evs : list event) :
  0 <= num_steps cfg ->
  0 < update_freq cfg ->
  0 < explorer_slow_critic_update cfg ->
  0 < achiever_slow_critic_update cfg ->
  main cfg = (Returned st, evs) ->
  Z.of_nat (calls is_train evs)
    = num_steps cfg - num_steps cfg / update_freq cfg
  /\ Z.of_nat (calls is_explorer_update evs)
    = num_steps cfg - num_steps cfg / explorer_slow_critic_update cfg
  /\ Z.of_nat (calls is_achiever_update evs)
    = num_steps cfg - num_steps cfg / achiever_slow_critic_update cfg.
Proof.
  intros Hn Hu He Ha (pre & evs' & Hloop & -> & Hpre)%main_run.
  destruct (learning_loop_calls _ _ _ _ _ Hloop) as (Ht' & He' & Ha').
  assert (forall p, p ActionSample = false -> p EnvStep = false -> p Push = false ->
                    p EnvReset = false -> calls p (pre ++ evs') = calls p evs')
    as Hskip.
  { intros p H1 H2 H3 H4. rewrite calls_app, (calls_none p pre); [done|].
    eapply Forall_impl; [exact Hpre|]. by intros e [-> | [-> | [-> | ->]]]. }
  rewrite !Hskip by done. rewrite Ht', He', Ha'.
  by rewrite !skipped_multiples by done.
Qed.

(** *** The unassigned [metrics] *)

Lemma evaluation_raises (cfg : config) (step : Z) (st : locals) e evs :
  evaluation cfg step st = (Raised e, evs) -> e = Builtin ZeroDivisionError.
Proof.
  intros Hrun.
  destruct (evaluation_cases cfg step st)
    as [(_ & H) | [(_ & H) | [(_ & H) | (_ & _ & evs0 & _ & [(_ & H) | (_ & H)])]]];
    rewrite H in Hrun; congruence.
Qed.

Lemma learning_step_unbound (cfg : config) (step : Z) (st : locals) name evs :
  learning_step cfg step st = (Raised (UnboundLocalError name), evs) ->
  name = "metrics" /\ env_done step = true /\ metrics st = None
  /\ update_freq cfg <> 0 /\ (step + 1) mod update_freq cfg = 0.
Proof.
  intros Hrun.
  destruct (decide (expl_episode_freq cfg = 0 \/ update_freq cfg = 0
                    \/ explorer_slow_critic_update cfg = 0
                    \/ achiever_slow_critic_update cfg = 0)) as [Hzero|Hnz].
  { destruct (learning_step_zero_frequency cfg step st Hzero) as (? & Hr & _).
    congruence. }
  assert (expl_episode_freq cfg <> 0 /\ update_freq cfg <> 0
          /\ explorer_slow_critic_update cfg <> 0
          /\ achiever_slow_critic_update cfg <> 0) as (Hx & Hu & He & Ha)
    by (repeat split; intros ?; apply Hnz; auto).
  rewrite (learning_step_run cfg step st Hx Hu He Ha) in Hrun. cbv zeta in Hrun.
  destruct (env_done step); [|discriminate].
  rewrite episode_end_run in Hrun.
  destruct (decide ((step + 1) mod update_freq cfg = 0)) as [Hmod|Hmod].
  - destruct (metrics st) as [m|].
    + destruct (evaluation _ _ _) as [[st'|e] evs'] eqn:Heval; [discriminate|].
      apply evaluation_raises in Heval as ->. discriminate.
    + by injection Hrun as <- _.
  - cbn [metrics] in Hrun.
    destruct (evaluation _ _ _) as [[st'|e] evs'] eqn:Heval; [discriminate|].
    apply evaluation_raises in Heval as ->. discriminate.
Qed.

Lemma evaluation_keeps_metrics (cfg : config) (step : Z) (st st' : locals) evs :
  evaluation cfg step st = (Returned st', evs) ->
  metrics st' = metrics st /\ goal st' = goal st /\ episodes st' = episodes st.
Proof.
  intros Hrun.
  destruct (evaluation_cases cfg step st)
    as [(_ & H) | [(_ & H) | [(_ & H) | (_ & _ & evs0 & _ & [(_ & H) | (_ & H)])]]];
    rewrite H in Hrun; try discriminate; by injection Hrun as <- _.
Qed.

Lemma learning_step_keeps_metrics (cfg : config) (step : Z) (st st' : locals) evs :
  learning_step cfg step st = (Returned st', evs) ->
  metrics st' = None ->
  metrics st = None /\ (step + 1) mod update_freq cfg = 0.
Proof.
  intros Hrun Hnone.
  destruct (learning_step_Returned _ _ _ _ _ Hrun) as (Hx & Hu & He & Ha).
  rewrite (learning_step_run cfg step st Hx Hu He Ha) in Hrun. cbv zeta in Hrun.
  assert (metrics (if decide ((step + 1) mod update_freq cfg = 0) then st
                   else Locals (episodes st) (best_score st) (goal st)
                          (Some (train_metrics step))) = None) as Hst1.
  { destruct (env_done step).
    - rewrite episode_end_run in Hrun.
      destruct (metrics (if decide _ then _ else _)) as [m|] eqn:Hm; [|done].
      destruct (evaluation _ _ _) as [[st2|e] evs'] eqn:Heval; [|discriminate].
      injection Hrun as -> _.
      apply evaluation_keeps_metrics in Heval as (Hmet & _ & _).
      cbn [metrics] in Hmet. congruence.
    - injection Hrun as <- _. exact Hnone. }
  destruct (decide ((step + 1) mod update_freq cfg = 0)); [done | discriminate].
Qed.

Lemma learning_loop_bound_metrics (cfg : config) (steps : list Z) (st : locals) name evs :
  metrics st <> None ->
  learning_loop cfg steps st <> (Raised (UnboundLocalError name), evs).
Proof.
  revert st evs. induction steps as [|step steps IH]; intros st evs Hbound Hrun.
  - discriminate.
  - cbn [learning_loop] in Hrun.
    apply script_bind_inv in Hrun
      as [(st1 & evs1 & evs2 & Hstep & Hrest & ->) | (e & Hstep & [= <-])].
    + apply (IH st1 evs2); [|done].
      intros Hnone. by destruct (learning_step_keeps_metrics _ _ _ _ _ Hstep Hnone).
    + by destruct (learning_step_unbound _ _ _ _ _ Hstep) as (_ & _ & ? & _).
Qed.

Lemma learning_loop_unbound (cfg : config) (step : Z) (steps : list Z) (st : locals)
    name evs :
  learning_loop cfg (step :: steps) st = (Raised (UnboundLocalError name), evs) ->
  name = "metrics" /\ update_freq cfg <> 0 /\ (step + 1) mod update_freq cfg = 0
  /\ exists s, s ∈ step :: steps /\ env_done s = true.
Proof.
  revert step st evs. induction steps as [|step' steps IH]; intros step st evs Hrun;
    cbn [learning_loop] in Hrun;
    apply script_bind_inv in Hrun
      as [(st1 & evs1 & evs2 & Hstep & Hrest & ->) | (e & Hstep & [= <-])].
  - discriminate.
  - destruct (learning_step_unbound _ _ _ _ _ Hstep) as (-> & Hdone & _ & Hu & Hmod).
    repeat split; [done..|]. exists step. split; [apply list_elem_of_here | done].
  - destruct (learning_step_Returned _ _ _ _ _ Hstep) as (_ & Hu & _).
    destruct (metrics st1) as [m|] eqn:Hm.
    { exfalso. eapply (learning_loop_bound_metrics cfg (step' :: steps) st1);
        [by rewrite Hm | exact Hrest]. }
    destruct (learning_step_keeps_metrics _ _ _ _ _ Hstep Hm) as (_ & Hmod).
    destruct (IH _ _ _ Hrest) as (-> & _ & _ & s & Hs & Hdone).
    repeat split; [done..|]. exists s. split; [by apply list_elem_of_further | done].
  - destruct (learning_step_unbound _ _ _ _ _ Hstep) as (-> & Hdone & _ & Hu & Hmod).
    repeat split; [done..|]. exists step. split; [apply list_elem_of_here | done].
Qed.

Lemma learning_loop_never_trains (cfg : config) (steps : list Z) (st : locals) :
  update_freq cfg = 1 \/ update_freq cfg = -1 ->
  expl_episode_freq cfg <> 0 ->
  explorer_slow_critic_update cfg <> 0 ->
  achiever_slow_critic_update cfg <> 0 ->
  metrics st = None ->
  (exists s, s ∈ steps /\ env_done s = true) ->
  exists evs,
    learning_loop cfg steps st = (Raised (UnboundLocalError "metrics"), evs)
    /\ calls is_train evs = 0%nat /\ calls is_checkpoint evs = 0%nat.
Proof.
  intros Hone Hx He Ha Hnone. induction steps as [|step steps IH]; intros (s & Hs & Hdone).
  - by apply elem_of_nil in Hs.
  - assert (update_freq cfg <> 0) as Hu by lia.
    assert ((step + 1) mod update_freq cfg = 0) as Hmod.
    { destruct Hone as [-> | ->]; [apply Z.mod_1_r|].
      pose proof (Z.div_mod (step + 1) (-1) ltac:(lia)).
      pose proof (Z.mod_neg_bound (step + 1) (-1) ltac:(lia)). lia. }
    cbn [learning_loop]. rewrite (learning_step_run cfg step st Hx Hu He Ha). cbv zeta.
    destruct (decide ((step + 1) mod update_freq cfg = 0)) as [_|]; [|done].
    assert (forall p : event -> bool,
              (forall m g t, p (Agent m g t) = false) -> p EnvStep = false ->
              p Push = false -> p ExplorerUpdateCritic = false ->
              p AchieverUpdateCritic = false ->
              calls p
                ([Agent (if decide (episodes st mod expl_episode_freq cfg = 0)
                         then explorer else achiever) (goal st) None; EnvStep; Push]
                 ++ []
                 ++ (if decide ((step + 1) mod explorer_slow_critic_update cfg = 0)
                     then [] else [ExplorerUpdateCritic])
                 ++ (if decide ((step + 1) mod achiever_slow_critic_update cfg = 0)
                     then [] else [AchieverUpdateCritic])) = 0%nat) as Hquiet.
    { intros p H1 H2 H3 H4 H5. apply calls_none.
      repeat (apply Forall_cons_2; [done|]). cbn [app].
      apply Forall_app. split;
        match goal with |- Forall _ (if ?d then _ else _) => destruct d end;
        repeat first [apply Forall_nil_2 | apply Forall_cons_2; [done|]]. }
    destruct (env_done step) eqn:Hd.
    + rewrite episode_end_run, Hnone.
      eexists. split; [reflexivity|].
      split; rewrite calls_app, Hquiet by done; done.
    + destruct IH as (evs & Hrest & Ht & Hc).
      { exists s. split; [|done].
        apply elem_of_cons in Hs as [->|Hs]; [congruence | done]. }
      cbn [mbind M_bind bind]. rewrite Hrest.
      eexists. split; [reflexivity|].
      split; rewrite calls_app, Hquiet by done; [by rewrite Ht | by rewrite Hc].
Qed.

(** X16. [metrics] is assigned only by a training call.  With
    [update_freq] equal to 1 (or -1) no learning step trains, and the
    first episode that ends makes [main] raise [UnboundLocalError] for
    [metrics], before any training call and before any checkpoint is
    saved.  For every other [update_freq] the first learning step
    assigns [metrics], and that error is never raised. *)
Theorem metrics_unbound_iff (cfg : config) :
  expl_episode_freq cfg <> 0 ->
  explorer_slow_critic_update cfg <> 0 ->
  achiever_slow_critic_update cfg <> 0 ->
  ((exists name evs, main cfg = (Raised (UnboundLocalError name), evs))
   <-> (update_freq cfg = 1 \/ update_freq cfg = -1)
       /\ exists s, 0 <= s < num_steps cfg /\ env_done s = true)
  /\ (forall name evs,
        main cfg = (Raised (UnboundLocalError name), evs) ->
        name = "metrics" /\ calls is_train evs = 0%nat
        /\ calls is_checkpoint evs = 0%nat).
Proof.
  intros Hx He Ha.
  assert (forall name evs,
            main cfg = (Raised (UnboundLocalError name), evs) ->
            name = "metrics"
            /\ (update_freq cfg = 1 \/ update_freq cfg = -1)
            /\ exists s, 0 <= s < num_steps cfg /\ env_done s = true) as Hraise.
  { intros name evs (pre & evs' & Hloop & -> & Hpre)%main_run.
    destruct (range (num_steps cfg)) as [|step steps] eqn:Hrange; [discriminate|].
    assert (step = 0) as ->.
    { unfold range in Hrange. destruct (Z.to_nat (num_steps cfg)); [discriminate|].
      cbn [seq map] in Hrange. by injection Hrange as <- _. }
    apply learning_loop_unbound in Hloop as (-> & Hu & Hmod & s & Hs & Hdone).
    split; [done|]. split.
    - apply Z.divide_1_r. by apply (Z.mod_divide (0 + 1)).
    - exists s. split; [|done]. apply elem_of_range. by rewrite Hrange. }
  split; [split|].
  - intros (name & evs & Hrun). by destruct (Hraise _ _ Hrun) as (_ & ? & ?).
  - intros (Hone & s & Hs & Hdone).
    destruct (learning_loop_never_trains cfg (range (num_steps cfg)) initial
                Hone Hx He Ha eq_refl) as (evs & Hloop & _).
    { exists s. split; [by apply elem_of_range | done]. }
    destruct (main_intro _ _ _ Hloop) as (pre & Hmain & _). by eexists _, _.
  - intros name evs Hrun.
    destruct (Hraise _ _ Hrun) as (-> & Hone & s & Hs & Hdone). split; [done|].
    destruct (learning_loop_never_trains cfg (range (num_steps cfg)) initial
                Hone Hx He Ha eq_refl) as (evs' & Hloop & Ht & Hc).
    { exists s. split; [by apply elem_of_range | done]. }
    destruct (main_intro _ _ _ Hloop) as (pre & Hmain & Hpre).
    rewrite Hmain in Hrun. injection Hrun as <-.
    rewrite !calls_app, Ht, Hc.
    rewrite !(calls_none _ pre); [done|..];
      (eapply Forall_impl; [exact Hpre|]); by intros e [-> | [-> | [-> | ->]]].
Qed.

(** *** The goal handed to the achiever *)

Lemma learning_step_agents (cfg : config) (step : Z) (st : locals) r evs :
  (goal st = None -> episodes st = 0) ->
  (forall x, goal st = Some x -> exists s, env_done s = true /\ x = sampled_goal s) ->
  learning_step cfg step st = (r, evs) ->
  Forall (fun e => forall g t, e = Agent achiever g t ->
            (t = None /\ exists s, env_done s = true /\ g = Some (sampled_goal s))
            \/ (t = Some false
                /\ exists s run, env_done s = true /\ run ∈ eval_runs s
                                 /\ g = Some (goal_obs run))) evs
  /\ (forall st', r = Returned st' ->
        (goal st' = None -> episodes st' = 0)
        /\ (forall x, goal st' = Some x ->
              exists s, env_done s = true /\ x = sampled_goal s)).
Proof.
  intros Hnone Hsome Hrun.
  assert (forall m, m = achiever -> episodes st <> 0 ->
            forall g t, Agent m (goal st) None = Agent achiever g t ->
              t = None /\ exists s, env_done s = true /\ g = Some (sampled_goal s))
    as Hagent.
  { intros m -> Hne g t [= <- <-]. split; [done|]. destruct (goal st) as [x|] eqn:Hg.
    - destruct (Hsome x eq_refl) as (s & Hs & ->). by exists s.
    - by specialize (Hnone eq_refl). }
  destruct (decide (expl_episode_freq cfg = 0 \/ update_freq cfg = 0
                    \/ explorer_slow_critic_update cfg = 0
                    \/ achiever_slow_critic_update cfg = 0)) as [Hzero|Hnz].
  { destruct (learning_step_zero_frequency cfg step st Hzero) as (evs' & Hr & Hevs).
    rewrite Hr in Hrun. injection Hrun as <- <-. split; [|discriminate].
    eapply Forall_impl; [exact Hevs|].
    intros e [(m & -> & Hm) | Hother] g t Heq.
    - destruct m; [discriminate|]. left.
      by apply (Hagent achiever eq_refl (Hm eq_refl)).
    - destruct Hother as [-> | [-> | [-> | [-> | ->]]]]; discriminate. }
  assert (expl_episode_freq cfg <> 0 /\ update_freq cfg <> 0
          /\ explorer_slow_critic_update cfg <> 0
          /\ achiever_slow_critic_update cfg <> 0) as (Hx & Hu & He & Ha)
    by (repeat split; intros ?; apply Hnz; auto).
  rewrite (learning_step_run cfg step st Hx Hu He Ha) in Hrun. cbv zeta in Hrun.
  set (st1 := if decide ((step + 1) mod update_freq cfg = 0) then st
              else Locals (episodes st) (best_score st) (goal st)
                     (Some (train_metrics step))) in *.
  assert (goal st1 = goal st /\ episodes st1 = episodes st) as [Hg1 He1]
    by (subst st1; by destruct (decide _)).
  assert (Forall (fun e => forall g t, e = Agent achiever g t ->
            (t = None /\ exists s, env_done s = true /\ g = Some (sampled_goal s))
            \/ (t = Some false
                /\ exists s run, env_done s = true /\ run ∈ eval_runs s
                                 /\ g = Some (goal_obs run)))
            ([Agent (if decide (episodes st mod expl_episode_freq cfg = 0)
                     then explorer else achiever) (goal st) None; EnvStep; Push]
             ++ (if decide ((step + 1) mod update_freq cfg = 0) then []
                 else [Sample; Train])
             ++ (if decide ((step + 1) mod explorer_slow_critic_update cfg = 0)
                 then [] else [ExplorerUpdateCritic])
             ++ (if decide ((step + 1) mod achiever_slow_critic_update cfg = 0)
                 then [] else [AchieverUpdateCritic]))) as Hevs0.
  { apply Forall_cons_2.
    { destruct (decide (episodes st mod expl_episode_freq cfg = 0)) as [|Hne];
        [discriminate|].
      intros g t Heq. left. apply (Hagent achiever eq_refl); [|done].
      intros Hz. apply Hne. rewrite Hz. by apply Z.mod_0_l. }
    apply Forall_cons_2; [discriminate|]. apply Forall_cons_2; [discriminate|].
    cbn [app].
    repeat (apply Forall_app; split);
      match goal with |- Forall _ (if ?d then _ else _) => destruct d end;
      repeat first [apply Forall_nil_2 | apply Forall_cons_2; [discriminate|]]. }
  destruct (env_done step) eqn:Hd.
  - destruct (episode_end cfg step st1) as [r' tail] eqn:Hend.
    injection Hrun as <- <-. split.
    + rewrite !app_comm_cons. apply Forall_app. split; [exact Hevs0|].
      apply episode_end_events in Hend.
      eapply Forall_impl; [exact Hend|].
      intros e [Hcall | Hother] g t ->; [|done].
      destruct Hcall as (_ & -> & run & Hin & ->). right. split; [done|].
      by exists step, run.
    + intros st' ->. rewrite episode_end_run in Hend.
      destruct (metrics st1); [|discriminate].
      destruct (evaluation _ _ _) as [[st2|e] evs'] eqn:Heval; [|discriminate].
      injection Hend as -> _.
      apply evaluation_keeps_metrics in Heval as (_ & Hg & _).
      cbn [goal] in Hg. rewrite Hg. split; [discriminate|].
      intros x [= <-]. by exists step.
  - injection Hrun as <- <-. split; [exact Hevs0|].
    intros st' [= <-]. rewrite Hg1, He1. done.
Qed.

Lemma learning_loop_agents (cfg : config) (steps : list Z) (st : locals) r evs :
  (goal st = None -> episodes st = 0) ->
  (forall x, goal st = Some x -> exists s, env_done s = true /\ x = sampled_goal s) ->
  learning_loop cfg steps st = (r, evs) ->
  Forall (fun e => forall g t, e = Agent achiever g t ->
            (t = None /\ exists s, env_done s = true /\ g = Some (sampled_goal s))
            \/ (t = Some false
                /\ exists s run, env_done s = true /\ run ∈ eval_runs s
                                 /\ g = Some (goal_obs run))) evs.
Proof.
  revert st r evs. induction steps as [|step steps IH]; intros st r evs Hnone Hsome Hrun.
  - injection Hrun as _ <-. by apply Forall_nil.
  - cbn [learning_loop] in Hrun.
    apply script_bind_inv in Hrun
      as [(st1 & evs1 & evs2 & Hstep & Hrest & ->) | (e & Hstep & _)].
    + destruct (learning_step_agents _ _ _ _ _ Hnone Hsome Hstep) as [Hevs Hinv].
      destruct (Hinv st1 eq_refl) as [Hnone1 Hsome1].
      apply Forall_app. split; [done|]. by eapply IH.
    + by destruct (learning_step_agents _ _ _ _ _ Hnone Hsome Hstep) as [Hevs _].
Qed.

(** X17. The agent is never asked to act as achiever without a goal.
    In the learning loop [goal] is [None] only during the first
    episode, which is an explorer episode whatever [expl_episode_freq]
    is, and every later call in achiever mode, made without [train], is
    given a goal that [replay_buffer.sample(1, 1)] returned at the end
    of an episode.  The other calls in achiever mode are those of the
    evaluation episodes, made with [train=False] after an episode has
    ended and given the goal observation of the evaluation episode.
    This holds for the calls of every run, whether it returns or
    raises. *)
Theorem achiever_is_given_a_goal
    (cfg : config) (r : result locals) (evs : list event)
    (g : option Goal) (t : option bool) :
  main cfg = (r, evs) ->
  Agent achiever g t ∈ evs ->
  (t = None /\ exists s, env_done s = true /\ g = Some (sampled_goal s))
  \/ (t = Some false
      /\ exists s run, env_done s = true /\ run ∈ eval_runs s
                       /\ g = Some (goal_obs run)).
Proof.
  intros (pre & evs' & Hloop & -> & Hpre)%main_run [Hin|Hin]%elem_of_app.
  - pose proof (proj1 (Forall_forall _ _) Hpre _ Hin) as Hseed.
    by destruct Hseed as [? | [? | [? | ?]]].
  - apply learning_loop_agents in Hloop; [|done|discriminate].
    exact (proj1 (Forall_forall _ _) Hloop _ Hin g t eq_refl).
Qed.

(** *** The best score *)

Lemma score_range (runs : list (eval_run Goal GoalIdx)) :
  runs <> [] -> (0 <= score_of runs <= 1)%Q.
Proof.
  intros Hne. unfold score_of.
  pose proof (length_filter (fun run => success run = true) runs) as Hle.
  assert (length runs <> 0%nat) as Hlen by (by destruct runs).
  unfold Qle. cbn [Qnum Qden]. lia.
Qed.

Lemma evaluation_Returned (cfg : config) (step : Z) (st st' : locals) evs :
  evaluation cfg step st = (Returned st', evs) ->
  (st' = st /\ evs = [] /\ episodes st mod eval_episode_freq cfg = 0)
  \/ exists q evs0,
       (0 <= q <= 1)%Q /\ episodes st mod eval_episode_freq cfg <> 0
       /\ Forall (evaluation_call (eval_runs step)) evs0
       /\ (((best_score st < q)%Q /\ best_score st' = q
            /\ evs = evs0
                     ++ [PrintScore (step + 1) (episodes st) q; Save Best; AgentReset])
           \/ ((q <= best_score st)%Q /\ st' = st
               /\ evs = evs0
                        ++ [PrintScore (step + 1) (episodes st) q; AgentReset])).
Proof.
  intros Hrun.
  destruct (evaluation_cases cfg step st)
    as [(_ & H) | [(Hmod & H) | [(_ & H)
       | (Hmod & Hne & evs0 & Hevs0 & [(Hlt & H) | (Hle & H)])]]];
    rewrite H in Hrun; try discriminate.
  - injection Hrun as <- <-. by left.
  - injection Hrun as <- <-. right.
    exists (score_of (eval_runs step)), evs0.
    split; [by apply score_range|]. split; [done|]. split; [done|]. by left.
  - injection Hrun as <- <-. right.
    exists (score_of (eval_runs step)), evs0.
    split; [by apply score_range|]. split; [done|]. split; [done|]. by right.
Qed.

Lemma best_recorded_quiet (best : Q) (evs more : list event) :
  Forall (fun e => is_score e = false /\ is_best e = false) more ->
  best_recorded best evs -> best_recorded best (evs ++ more).
Proof.
  intros Hquiet [Hbound Hcases].
  assert (calls is_score more = 0%nat) as Hs
    by (apply calls_none; eapply Forall_impl; [exact Hquiet | by intros e []]).
  assert (calls is_best more = 0%nat) as Hb
    by (apply calls_none; eapply Forall_impl; [exact Hquiet | by intros e []]).
  split.
  - intros steps ep q [Hin|Hin]%elem_of_app; [by eapply Hbound|].
    by destruct (proj1 (Forall_forall _ _) Hquiet _ Hin).
  - rewrite !calls_app, Hs, Hb, !Nat.add_0_r.
    destruct Hcases as [?|[(steps & ep & Hin) ?]]; [by left|].
    right. split; [|done]. exists steps, ep. apply elem_of_app. by left.
Qed.

Lemma best_recorded_improved (best q : Q) (steps ep : Z) (evs : list event) :
  (0 <= q <= 1)%Q -> (best < q)%Q ->
  best_recorded best evs ->
  best_recorded q (evs ++ [PrintScore steps ep q; Save Best; AgentReset]).
Proof.
  intros Hq Hlt [Hbound Hcases]. split.
  - intros steps' ep' q' [Hin|Hin]%elem_of_app.
    + destruct (Hbound _ _ _ Hin) as [? Hle]. split; [done|].
      apply Qlt_le_weak. by eapply Qle_lt_trans.
    + apply elem_of_cons in Hin as [[= _ _ ->]|Hin]; [split; [done | apply Qle_refl]|].
      apply elem_of_cons in Hin as [[=]|Hin].
      apply elem_of_cons in Hin as [[=]|Hin]. by apply elem_of_nil in Hin.
  - right. split.
    + exists steps, ep. apply elem_of_app. right. apply list_elem_of_here.
    + rewrite !calls_app.
      assert (calls is_best [PrintScore steps ep q; Save Best; AgentReset] = 1%nat)
        as -> by done.
      assert (calls is_score [PrintScore steps ep q; Save Best; AgentReset] = 1%nat)
        as -> by done.
      destruct Hcases as [(_ & -> & ->)|[_ ?]]; lia.
Qed.

Lemma best_recorded_kept (best q : Q) (steps ep : Z) (evs : list event) :
  (0 <= q <= 1)%Q -> (q <= best)%Q ->
  best_recorded best evs ->
  best_recorded best (evs ++ [PrintScore steps ep q; AgentReset]).
Proof.
  intros Hq Hle [Hbound Hcases]. split.
  - intros steps' ep' q' [Hin|Hin]%elem_of_app; [by eapply Hbound|].
    apply elem_of_cons in Hin as [[= _ _ ->]|Hin]; [done|].
    apply elem_of_cons in Hin as [[=]|Hin]. by apply elem_of_nil in Hin.
  - right. destruct Hcases as [(-> & _ & _)|[(steps' & ep' & Hin) Hcount]].
    { exfalso. destruct Hq as [Hq _].
      pose proof (Qle_trans _ _ _ Hq Hle) as Habs. by compute in Habs. }
    split.
    + exists steps', ep'. apply elem_of_app. by left.
    + rewrite !calls_app.
      assert (calls is_best [PrintScore steps ep q; AgentReset] = 0%nat) as -> by done.
      assert (calls is_score [PrintScore steps ep q; AgentReset] = 1%nat) as -> by done.
      lia.
Qed.

Lemma learning_step_Returned_shape (cfg : config) (step : Z) (st st' : locals) evs :
  learning_step cfg step st = (Returned st', evs) ->
  exists st1 evs0,
    episodes st1 = episodes st /\ best_score st1 = best_score st
    /\ goal st1 = goal st
    /\ Forall (fun e => match e with
                        | Agent _ _ None | EnvStep | Push | Sample | Train
                        | ExplorerUpdateCritic | AchieverUpdateCritic => True
                        | _ => False
                        end) evs0
    /\ ((env_done step = false /\ st' = st1 /\ evs = evs0)
        \/ (env_done step = true
            /\ exists m evs2,
                 metrics st1 = Some m
                 /\ evaluation cfg step
                      (Locals (episodes st1 + 1) (best_score st1)
                         (Some (sampled_goal step)) (metrics st1))
                    = (Returned st', evs2)
                 /\ evs = evs0
                          ++ [PrintMetrics (step + 1) (episodes st1) m;
                              Save (Checkpoint (step + 1));
                              EnvReset; AgentReset; SampleGoal]
                          ++ evs2)).
Proof.
  intros Hrun.
  destruct (learning_step_Returned _ _ _ _ _ Hrun) as (Hx & Hu & He & Ha).
  rewrite (learning_step_run cfg step st Hx Hu He Ha) in Hrun. cbv zeta in Hrun.
  set (st1 := if decide ((step + 1) mod update_freq cfg = 0) then st
              else Locals (episodes st) (best_score st) (goal st)
                     (Some (train_metrics step))) in *.
  set (evs0 := _ ++ _ ++ _ ++ _) in Hrun.
  exists st1, evs0.
  split; [unfold st1; by destruct (decide ((step + 1) mod update_freq cfg = 0))|].
  split; [unfold st1; by destruct (decide ((step + 1) mod update_freq cfg = 0))|].
  split; [unfold st1; by destruct (decide ((step + 1) mod update_freq cfg = 0))|].
  split.
  { subst evs0. repeat (apply Forall_cons_2; [done|]). cbn [app].
    repeat (apply Forall_app; split);
      match goal with |- Forall _ (if ?d then _ else _) => destruct d end;
      repeat first [apply Forall_nil_2 | apply Forall_cons_2; [done|]]. }
  destruct (env_done step).
  - right. split; [done|]. rewrite episode_end_run in Hrun.
    destruct (metrics st1) as [m|] eqn:Hm.
    + destruct (evaluation _ _ _) as [r evs2] eqn:Heval.
      apply pair_equal_spec in Hrun as [-> <-].
      by exists m, evs2.
    + by apply pair_equal_spec in Hrun as [? _].
  - left. apply pair_equal_spec in Hrun as [[= <-] <-]. done.
Qed.

Lemma learning_step_best (cfg : config) (step : Z) (st st' : locals) pre evs :
  learning_step cfg step st = (Returned st', evs) ->
  best_recorded (best_score st) pre ->
  best_recorded (best_score st') (pre ++ evs).
Proof.
  intros (st1 & evs0 & _ & Hb1 & _ & Hevs0 & Hcases)%learning_step_Returned_shape Hinv.
  assert (best_recorded (best_score st1) (pre ++ evs0)) as Hinv0.
  { rewrite Hb1. apply best_recorded_quiet; [|done].
    eapply Forall_impl; [exact Hevs0|]. by intros []. }
  destruct Hcases as [(_ & -> & ->) | (_ & m & evs2 & _ & Heval & ->)]; [done|].
  set (head := [PrintMetrics _ _ _; _; _; _; _]).
  assert (best_recorded (best_score st1) ((pre ++ evs0) ++ head)) as Hinv1.
  { apply best_recorded_quiet; [|done]. subst head.
    repeat (apply Forall_cons_2; [done|]). by apply Forall_nil. }
  rewrite !app_assoc.
  apply evaluation_Returned in Heval
    as [(-> & -> & _)
       | (q & runs & Hq & _ & Hruns & [(Hlt & -> & ->) | (Hle & -> & ->)])];
    cbn [best_score] in *.
  - by rewrite app_nil_r.
  - rewrite app_assoc. eapply best_recorded_improved; [done | exact Hlt |].
    apply best_recorded_quiet; [|done].
    eapply Forall_impl; [exact Hruns|]. by intros [].
  - rewrite app_assoc. apply best_recorded_kept; [done..|].
    apply best_recorded_quiet; [|done].
    eapply Forall_impl; [exact Hruns|]. by intros [].
Qed.

Lemma learning_loop_best (cfg : config) (steps : list Z) (st st' : locals) pre evs :
  learning_loop cfg steps st = (Returned st', evs) ->
  best_recorded (best_score st) pre ->
  best_recorded (best_score st') (pre ++ evs).
Proof.
  revert st pre evs. induction steps as [|step steps IH]; intros st pre evs Hrun Hinv.
  - injection Hrun as <- <-. by rewrite app_nil_r.
  - cbn [learning_loop] in Hrun.
    apply script_bind_Returned in Hrun as (st1 & evs1 & evs2 & Hstep & Hrest & ->).
    rewrite app_assoc. eapply IH; [exact Hrest|]. by eapply learning_step_best.
Qed.

(** X18. When [main] returns, [best_score] is at least every score it
    printed, all of which lie between 0 and 1.  It is still -1 exactly
    when no evaluation ran, and then no 'best' checkpoint was saved;
    otherwise it is one of the printed scores, the 'best' checkpoint was
    saved at least once (the first evaluation always saves it, as any
    score exceeds -1) and at most once per evaluation. *)
Theorem best_score_is_the_highest_printed
    (cfg : config) (st : locals) (evs : list event) :
  main cfg = (Returned st, evs) ->
  (forall steps ep q,
     PrintScore steps ep q ∈ evs -> (0 <= q <= 1)%Q /\ (q <= best_score st)%Q)
  /\ ((best_score st = (-1)%Q /\ calls is_score evs = 0%nat /\ calls is_best evs = 0%nat)
      \/ ((exists steps ep, PrintScore steps ep (best_score st) ∈ evs)
          /\ (0 < calls is_best evs <= calls is_score evs)%nat)).
Proof.
  intros (pre & evs' & Hloop & -> & Hpre)%main_run.
  apply (learning_loop_best _ _ _ _ pre) in Hloop; [exact Hloop|].
  apply (best_recorded_quiet _ [] pre).
  - eapply Forall_impl; [exact Hpre|]. by intros e [-> | [-> | [-> | ->]]].
  - split; [by intros ? ? ? ?%elem_of_nil|]. by left.
Qed.

(** *** Episodes, checkpoints and evaluations *)

Lemma learning_step_episode (cfg : config) (step : Z) (st st' : locals) pre evs
    (dones : nat) :
  learning_step cfg step st = (Returned st', evs) ->
  episodes st = Z.of_nat dones ->
  calls is_checkpoint pre = dones ->
  calls is_score pre
    = length (filter (fun s => (s + 1) mod eval_episode_freq cfg <> 0)
                (range (Z.of_nat dones))) ->
  let dones' := (if env_done step then S dones else dones) in
  episodes st' = Z.of_nat dones'
  /\ calls is_checkpoint (pre ++ evs) = dones'
  /\ calls is_score (pre ++ evs)
     = length (filter (fun s => (s + 1) mod eval_episode_freq cfg <> 0)
                 (range (Z.of_nat dones'))).
Proof.
  intros (st1 & evs0 & He1 & _ & _ & Hevs0 & Hcases)%learning_step_Returned_shape
    Hep Hcp Hsc.
  assert (calls is_checkpoint evs0 = 0%nat) as Hc0
    by (apply calls_none; eapply Forall_impl; [exact Hevs0 | by intros []]).
  assert (calls is_score evs0 = 0%nat) as Hs0
    by (apply calls_none; eapply Forall_impl; [exact Hevs0 | by intros []]).
  destruct Hcases as [(-> & -> & ->) | (-> & m & evs2 & _ & Heval & ->)]; cbv zeta.
  { rewrite !calls_app, Hc0, Hs0, !Nat.add_0_r. split; [congruence | done]. }
  rewrite !calls_app, Hc0, Hs0.
  assert (calls is_checkpoint
            [PrintMetrics (step + 1) (episodes st1) m; Save (Checkpoint (step + 1));
             EnvReset; AgentReset; SampleGoal] = 1%nat) as -> by done.
  assert (calls is_score
            [PrintMetrics (step + 1) (episodes st1) m; Save (Checkpoint (step + 1));
             EnvReset; AgentReset; SampleGoal] = 0%nat) as -> by done.
  rewrite range_succ, filter_app, length_app, <- Hsc.
  pose proof (evaluation_keeps_metrics _ _ _ _ _ Heval) as (_ & _ & Hep').
  cbn [episodes] in Hep'.
  assert (forall calls_made : list event,
            Forall (evaluation_call (eval_runs step)) calls_made ->
            calls is_checkpoint calls_made = 0%nat
            /\ calls is_score calls_made = 0%nat) as Hflags.
  { intros calls_made Hmade. split; by eapply calls_evaluation. }
  apply evaluation_Returned in Heval
    as [(_ & -> & Hmod)
       | (q & flags & _ & Hmod & Hruns & [(_ & _ & ->) | (_ & _ & ->)])];
    cbn [episodes] in Hmod; rewrite He1, Hep in Hmod.
  - rewrite filter_cons_False, filter_nil by (intros Hne; by apply Hne).
    assert (forall p : event -> bool, calls p [] = 0%nat) as Hnil by done.
    rewrite !Hnil. cbn [length]. lia.
  - rewrite filter_cons_True, filter_nil by done.
    rewrite !calls_app. destruct (Hflags flags Hruns) as [-> ->].
    assert (forall a b, calls is_checkpoint [PrintScore a b q; Save Best; AgentReset]
                        = 0%nat) as -> by done.
    assert (forall a b, calls is_score [PrintScore a b q; Save Best; AgentReset]
                        = 1%nat) as -> by done.
    cbn [length]. lia.
  - rewrite filter_cons_True, filter_nil by done.
    rewrite !calls_app. destruct (Hflags flags Hruns) as [-> ->].
    assert (forall a b, calls is_checkpoint [PrintScore a b q; AgentReset]
                        = 0%nat) as -> by done.
    assert (forall a b, calls is_score [PrintScore a b q; AgentReset]
                        = 1%nat) as -> by done.
    cbn [length]. lia.
Qed.

Lemma learning_loop_episode (cfg : config) (steps : list Z) (st st' : locals) pre evs
    (dones : nat) :
  learning_loop cfg steps st = (Returned st', evs) ->
  episodes st = Z.of_nat dones ->
  calls is_checkpoint pre = dones ->
  calls is_score pre
    = length (filter (fun s => (s + 1) mod eval_episode_freq cfg <> 0)
                (range (Z.of_nat dones))) ->
  let dones' := (dones + length (filter (fun s => env_done s = true) steps))%nat in
  episodes st' = Z.of_nat dones'
  /\ calls is_checkpoint (pre ++ evs) = dones'
  /\ calls is_score (pre ++ evs)
     = length (filter (fun s => (s + 1) mod eval_episode_freq cfg <> 0)
                 (range (Z.of_nat dones'))).
Proof.
  revert st pre evs dones.
  induction steps as [|step steps IH]; intros st pre evs dones Hrun Hep Hcp Hsc; cbv zeta.
  - injection Hrun as <- <-. rewrite filter_nil, app_nil_r, Nat.add_0_r. done.
  - cbn [learning_loop] in Hrun.
    apply script_bind_Returned in Hrun as (st1 & evs1 & evs2 & Hstep & Hrest & ->).
    destruct (learning_step_episode _ _ _ _ pre _ dones Hstep Hep Hcp Hsc)
      as (Hep1 & Hcp1 & Hsc1).
    pose proof (IH _ _ _ _ Hrest Hep1 Hcp1 Hsc1) as Hind. cbv zeta in Hind.
    rewrite app_assoc.
    destruct (env_done step) eqn:Hd.
    + rewrite filter_cons_True by done. cbn [length].
      by rewrite Nat.add_succ_r.
    + by rewrite filter_cons_False by (by rewrite Hd).
Qed.

(** X19. When [main] returns, [episodes] is the number of learning
    steps that ended an episode, and a numbered checkpoint was saved at
    each of them.  The agent is evaluated after the episodes whose count
    is not a multiple of [eval_episode_freq]: of [E] episodes,
    [E - E / eval_episode_freq] are followed by an evaluation, and none
    is when [eval_episode_freq] is 1. *)
Theorem episodes_checkpoints_evaluations
    (cfg : config) (st : locals) (evs : list event) :
  0 < eval_episode_freq cfg ->
  main cfg = (Returned st, evs) ->
  let ended :=
    Z.of_nat (length (filter (fun s => env_done s = true) (range (num_steps cfg)))) in
  episodes st = ended
  /\ Z.of_nat (calls is_checkpoint evs) = ended
  /\ Z.of_nat (calls is_score evs) = ended - ended / eval_episode_freq cfg.
Proof.
  intros Hf (pre & evs' & Hloop & -> & Hpre)%main_run. cbv zeta.
  assert (calls is_checkpoint pre = 0%nat) as Hcp
    by (apply calls_none; eapply Forall_impl; [exact Hpre|];
        by intros e [-> | [-> | [-> | ->]]]).
  assert (calls is_score pre = 0%nat) as Hsc
    by (apply calls_none; eapply Forall_impl; [exact Hpre|];
        by intros e [-> | [-> | [-> | ->]]]).
  destruct (learning_loop_episode _ _ _ _ pre _ 0%nat Hloop eq_refl Hcp Hsc)
    as (Hep & Hcp' & Hsc').
  rewrite Nat.add_0_l in Hep, Hcp', Hsc'.
  rewrite Hep, Hcp', Hsc'. split; [done|]. split; [done|].
  apply skipped_multiples; lia.
Qed.

End ScriptFacts.

Lemma toy_script_returns :
  exists st evs,
    Main.main (C := ToyScript.collaborators) ToyScript.cfg = (Main.Returned st, evs).
Proof. eexists _, _. vm_compute. reflexivity. Qed.

Lemma updates_skip_multiples_witness :
  exists st evs,
    Main.main (C := ToyScript.collaborators) ToyScript.cfg = (Main.Returned st, evs)
    /\ Z.of_nat (Main.calls Main.is_train evs) = 4%Z
    /\ Z.of_nat (Main.calls Main.is_explorer_update evs) = 3%Z
    /\ Z.of_nat (Main.calls Main.is_achiever_update evs) = 5%Z.
Proof.
  destruct toy_script_returns as (st & evs & Hrun).
  exists st, evs. split; [exact Hrun|].
  exact (updates_skip_multiples_of_frequency (C := ToyScript.collaborators)
           ToyScript.cfg st evs ltac:(simpl; lia) ltac:(simpl; lia) ltac:(simpl; lia)
           ltac:(simpl; lia) Hrun).
Defined.

Lemma metrics_unbound_witness :
  exists name evs,
    Main.main (C := ToyScript.collaborators) ToyScript.cfg_update_freq_1
    = (Main.Raised (Main.UnboundLocalError name), evs).
Proof.
  apply (proj2 (proj1 (metrics_unbound_iff (C := ToyScript.collaborators)
                         ToyScript.cfg_update_freq_1
                         ltac:(simpl; lia) ltac:(simpl; lia) ltac:(simpl; lia)))).
  split; [by left|]. exists 1%Z. split; [simpl; lia | reflexivity].
Defined.

Lemma achiever_goal_witness :
  ((@None bool = None
    /\ exists s, Main.env_done (Collaborators := ToyScript.collaborators) s = true
                 /\ Some 1%Z
                    = Some (Main.sampled_goal (Collaborators := ToyScript.collaborators) s))
   \/ (@None bool = Some false
       /\ exists s run,
            Main.env_done (Collaborators := ToyScript.collaborators) s = true
            /\ run ∈ Main.eval_runs (Collaborators := ToyScript.collaborators) s
            /\ Some 1%Z = Some (Main.goal_obs run)))
  /\ ((Some false = None
       /\ exists s, Main.env_done (Collaborators := ToyScript.collaborators) s = true
                    /\ Some 101%Z
                       = Some (Main.sampled_goal
                                 (Collaborators := ToyScript.collaborators) s))
      \/ (Some false = Some false
          /\ exists s run,
               Main.env_done (Collaborators := ToyScript.collaborators) s = true
               /\ run ∈ Main.eval_runs (Collaborators := ToyScript.collaborators) s
               /\ Some 101%Z = Some (Main.goal_obs run))).
Proof.
  split.
  - apply (achiever_is_given_a_goal (C := ToyScript.collaborators)
             ToyScript.cfg
             (Main.main (C := ToyScript.collaborators) ToyScript.cfg).1
             (Main.main (C := ToyScript.collaborators) ToyScript.cfg).2
             (Some 1%Z) None).
    + by destruct (Main.main _).
    + vm_compute.
      repeat first [apply list_elem_of_here | apply list_elem_of_further].
  - apply (achiever_is_given_a_goal (C := ToyScript.collaborators)
             ToyScript.cfg
             (Main.main (C := ToyScript.collaborators) ToyScript.cfg).1
             (Main.main (C := ToyScript.collaborators) ToyScript.cfg).2
             (Some 101%Z) (Some false)).
    + by destruct (Main.main _).
    + vm_compute.
      repeat first [apply list_elem_of_here | apply list_elem_of_further].
Defined.

Lemma best_score_witness :
  exists st evs,
    Main.main (C := ToyScript.collaborators) ToyScript.cfg = (Main.Returned st, evs)
    /\ forall steps ep q,
         Main.PrintScore steps ep q ∈ evs -> (q <= Main.best_score st)%Q.
Proof.
  destruct toy_script_returns as (st & evs & Hrun).
  exists st, evs. split; [exact Hrun|].
  intros steps ep q Hin.
  exact (proj2 (proj1 (best_score_is_the_highest_printed
                         (C := ToyScript.collaborators) ToyScript.cfg st evs Hrun)
                  steps ep q Hin)).
Defined.

Lemma episodes_checkpoints_evaluations_witness :
  exists st evs,
    Main.main (C := ToyScript.collaborators) ToyScript.cfg = (Main.Returned st, evs)
    /\ Main.episodes st = 3%Z
    /\ Z.of_nat (Main.calls Main.is_checkpoint evs) = 3%Z
    /\ Z.of_nat (Main.calls Main.is_score evs) = 2%Z.
Proof.
  destruct toy_script_returns as (st & evs & Hrun).
  exists st, evs. split; [exact Hrun|].
  exact (episodes_checkpoints_evaluations (C := ToyScript.collaborators)
           ToyScript.cfg st evs ltac:(simpl; lia) Hrun).
Defined.
